(** * BiomedCLIP data pipeline: the streaming PMC image-caption builder

    A shallow embedding of [src/process.py]: the manifest reader, the
    archive retriever with its two endpoints, the image matcher, the image
    normaliser, the dedup index and the per-entry orchestration loop of
    [build_pubmed_image_caption_dataset_streaming] (the second definition
    of that name in the module, lines 315-475, which is the one bound when
    the runners call it).

    Python values are modelled as follows.
    - [str] is [string], the UTF-8 bytes of the text; [strip] drops the
      white space of [str.strip], also past U+007F; [lower] lowers the
      letters A to Z and leaves every other byte, which is [str.lower]
      on ASCII text.
    - [pathlib.Path] is the POSIX pure path: a root and a list of parts.
    - [set] is stdpp's [gset]; the dict that indexes archive members is an
      association list, because the code depends on its iteration order.
    - The network, [tarfile], [pubmed_parser] and PIL are a [world]: total
      functions that say what each call returns or whether it raises.
    - Effects (the output file, the image tree, the requests sent, the two
      counters) are fields of an explicit [state].

    The later sections embed the callers and the tools around the
    builder: the runners [run_dev_and_test] and [run_train_shards] of
    [src/process.py], the sharding script [src/split_into_shards.py] and
    the splitting script [src/split.py], with files on disk as lists of
    lines per path and [hashlib.md5] as a function given from outside.

    Left out: failures of the local file system ([mkdir], [im.save],
    [jf.write] are taken to succeed), the progress bar and the messages
    printed, JSON numbers that are not integers, archive members that
    are links, and capital letters past U+007F in member names and
    references. *)

From Stdlib Require Import ZArith List String Ascii Bool Lia.
From stdpp Require Import base gmap sets strings list.

Open Scope string_scope.

(** ** Strings *)

Module Str.

Definition lower_ascii (c : ascii) : ascii :=
  let n := nat_of_ascii c in
  if (65 <=? n)%nat && (n <=? 90)%nat then ascii_of_nat (n + 32) else c.

(** [s.lower()] for text whose capital letters are all ASCII: the letters
    A to Z are lowered and every other byte is kept. [str.lower] also
    lowers capitals past U+007F; names with such letters are outside the
    model. *)
Fixpoint lower (s : string) : string :=
  match s with
  | EmptyString => EmptyString
  | String c s' => String (lower_ascii c) (lower s')
  end.

(** [s.startswith(p)] *)
Fixpoint startswith (p s : string) : bool :=
  match p, s with
  | EmptyString, _ => true
  | String a p', String b s' => Ascii.eqb a b && startswith p' s'
  | String _ _, EmptyString => false
  end.

(** [s.endswith(suf)]: some tail of [s] is [suf]. *)
Fixpoint endswith (suf s : string) : bool :=
  String.eqb s suf ||
  match s with
  | EmptyString => false
  | String _ s' => endswith suf s'
  end.

(** [needle in hay] *)
Fixpoint contains (needle hay : string) : bool :=
  startswith needle hay ||
  match hay with
  | EmptyString => false
  | String _ hay' => contains needle hay'
  end.

(** [s.split(sep)] for a one-character separator: never the empty list. *)
Fixpoint split (sep : ascii) (s : string) : list string :=
  match s with
  | EmptyString => [EmptyString]
  | String c s' =>
      if Ascii.eqb c sep then EmptyString :: split sep s'
      else match split sep s' with
           | [] => [String c EmptyString]
           | h :: t => String c h :: t
           end
  end.

(** [s.rstrip(chars)] with the characters given by a predicate. *)
Fixpoint rstrip (drop : ascii -> bool) (s : string) : string :=
  match s with
  | EmptyString => EmptyString
  | String c s' =>
      match rstrip drop s' with
      | EmptyString => if drop c then EmptyString else String c EmptyString
      | r => String c r
      end
  end.

(** [str.isspace] on one byte: TAB, LF, VT, FF, CR, FS, GS, RS, US, SPACE. *)
Definition isspace (c : ascii) : bool :=
  let n := nat_of_ascii c in
  ((9 <=? n)%nat && (n <=? 13)%nat) || ((28 <=? n)%nat && (n <=? 32)%nat).

(** The white space of [str.isspace] past U+007F, in UTF-8: U+0085 and
    U+00A0 take two bytes; U+1680, U+2000 to U+200A, U+2028, U+2029,
    U+202F, U+205F and U+3000 take three. *)
Definition space2 (a b : ascii) : bool :=
  (nat_of_ascii a =? 194)%nat
  && ((nat_of_ascii b =? 133)%nat || (nat_of_ascii b =? 160)%nat).

Definition space3 (a b c : ascii) : bool :=
  ((nat_of_ascii a =? 225)%nat && (nat_of_ascii b =? 154)%nat && (nat_of_ascii c =? 128)%nat)
  || ((nat_of_ascii a =? 226)%nat && (nat_of_ascii b =? 128)%nat
      && (((128 <=? nat_of_ascii c)%nat && (nat_of_ascii c <=? 138)%nat)
          || (nat_of_ascii c =? 168)%nat || (nat_of_ascii c =? 169)%nat
          || (nat_of_ascii c =? 175)%nat))
  || ((nat_of_ascii a =? 226)%nat && (nat_of_ascii b =? 129)%nat && (nat_of_ascii c =? 159)%nat)
  || ((nat_of_ascii a =? 227)%nat && (nat_of_ascii b =? 128)%nat && (nat_of_ascii c =? 128)%nat).

(** White space dropped from the front of a UTF-8 text. *)
Fixpoint lstrip_space (s : string) : string :=
  match s with
  | EmptyString => EmptyString
  | String a s1 =>
      if isspace a then lstrip_space s1
      else
        match s1 with
        | EmptyString => s
        | String b s2 =>
            if space2 a b then lstrip_space s2
            else
              match s2 with
              | EmptyString => s
              | String c s3 => if space3 a b c then lstrip_space s3 else s
              end
        end
  end.

(** The same from the back, on the reversed text: a lead byte of UTF-8
    is never a continuation byte, so the last bytes of a text that spell
    a character are that character. *)
Fixpoint rstrip_space_rev (r : string) : string :=
  match r with
  | EmptyString => EmptyString
  | String c r1 =>
      if isspace c then rstrip_space_rev r1
      else
        match r1 with
        | EmptyString => r
        | String b r2 =>
            if space2 b c then rstrip_space_rev r2
            else
              match r2 with
              | EmptyString => r
              | String a r3 => if space3 a b c then rstrip_space_rev r3 else r
              end
        end
  end.

Fixpoint rev_onto (s acc : string) : string :=
  match s with
  | EmptyString => acc
  | String c s' => rev_onto s' (String c acc)
  end.

Definition rev (s : string) : string := rev_onto s EmptyString.

(** [s.strip()] *)
Definition strip (s : string) : string :=
  rev (rstrip_space_rev (rev (lstrip_space s))).

Definition newline : ascii := ascii_of_nat 10.
Definition tab : ascii := ascii_of_nat 9.

(** [s.rfind(c)], with [None] for Python's -1. *)
Fixpoint rfind (c : ascii) (s : string) : option nat :=
  match s with
  | EmptyString => None
  | String a s' =>
      match rfind c s' with
      | Some i => Some (S i)
      | None => if Ascii.eqb a c then Some 0%nat else None
      end
  end.

(** [sep.join(l)] *)
Fixpoint join (sep : string) (l : list string) : string :=
  match l with
  | [] => EmptyString
  | [x] => x
  | x :: rest => x ++ sep ++ join sep rest
  end.

(** Python truthiness of a [str]. *)
Definition truthy (s : string) : bool := negb (String.eqb s EmptyString).

End Str.

(** ** pathlib: pure POSIX paths *)

(** A path is its root ([""], ["/"] or ["//"]) and the parts after it;
    [Path(s)] drops empty and ["."] components. *)
Record Path := mkPath { root : string; parts : list string }.

#[global] Instance Path_eq_dec : EqDecision Path.
Proof. solve_decision. Defined.

Module Pathlib.

Fixpoint leading_slashes (s : string) : nat :=
  match s with
  | String c s' => if Ascii.eqb c "/" then S (leading_slashes s') else 0
  | EmptyString => 0
  end.

(** POSIX keeps exactly two leading slashes apart from one or three. *)
Definition root_of (s : string) : string :=
  match leading_slashes s with
  | 0 => ""
  | 2 => "//"
  | _ => "/"
  end.

Definition keep_part (x : string) : bool :=
  negb (String.eqb x "") && negb (String.eqb x ".").

(** [Path(s)] *)
Definition of_str (s : string) : Path :=
  {| root := root_of s; parts := List.filter keep_part (Str.split "/" s) |}.

(** [p / q]: an anchored right operand replaces the left one. *)
Definition join (p q : Path) : Path :=
  if Str.truthy (root q) then q
  else {| root := root p; parts := parts p ++ parts q |}.

(** [p.name] *)
Definition name (p : Path) : string := List.last (parts p) "".

(** The suffix of a name: from its last dot, unless that dot is the
    first or the last character. *)
Definition suffix_of (n : string) : string :=
  match Str.rfind "." n with
  | Some i =>
      if (0 <? i)%nat && (i <? String.length n - 1)%nat
      then String.substring i (String.length n - i) n
      else ""
  | None => ""
  end.

Definition stem_of (n : string) : string :=
  match Str.rfind "." n with
  | Some i =>
      if (0 <? i)%nat && (i <? String.length n - 1)%nat
      then String.substring 0 i n
      else n
  | None => n
  end.

(** [p.suffix] *)
Definition suffix (p : Path) : string := suffix_of (name p).

(** [p.stem] *)
Definition stem (p : Path) : string := stem_of (name p).

(** [p.with_suffix(suf)] for a well-formed [suf]; [None] is the
    [ValueError] raised for an empty name. *)
Definition with_suffix (p : Path) (suf : string) : option Path :=
  let n := name p in
  if String.eqb n "" then None
  else
    let old := suffix p in
    let n' := if String.eqb old "" then n ++ suf
              else String.substring 0 (String.length n - String.length old) n ++ suf in
    Some {| root := root p; parts := List.removelast (parts p) ++ [n'] |}.

Fixpoint is_prefix (l1 l2 : list string) : bool :=
  match l1, l2 with
  | [], _ => true
  | x :: l1', y :: l2' => String.eqb x y && is_prefix l1' l2'
  | _ :: _, [] => false
  end.

(** [p.relative_to(other)]; [None] is the [ValueError]. *)
Definition relative_to (p other : Path) : option Path :=
  if String.eqb (root p) (root other) && is_prefix (parts other) (parts p)
  then Some {| root := ""; parts := List.skipn (List.length (parts other)) (parts p) |}
  else None.

(** [p.as_posix()] *)
Definition as_posix (p : Path) : string :=
  match root p, parts p with
  | EmptyString, [] => "."
  | r, ps => r ++ Str.join "/" ps
  end.

End Pathlib.

(** ** Python values met by the pipeline *)

Definition bytes := string.

Inductive exn :=
| HTTPError | ReadError | RuntimeError | ValueError
| XMLSyntaxError | AttributeError | OtherError.

Inductive result (A : Type) :=
| Ok (a : A)
| Raise (e : exn).
Arguments Ok {A} a.
Arguments Raise {A} e.

(** The value a dict of the caption parser holds under a key: the key is
    absent, or bound to [None], or bound to a [str]. *)
Inductive pyval := Missing | PNone | PStr (s : string).

(** [d.get(k, default)] where the result is then used as [x or default]. *)
Definition get_or (v : pyval) (default : string) : string :=
  match v with
  | PStr s => if Str.truthy s then s else default
  | _ => default
  end.

(** [str(d.get(k, ""))] *)
Definition get_str (v : pyval) : string :=
  match v with
  | Missing => ""
  | PNone => "None"
  | PStr s => s
  end.

(** One dict of [pubmed_parser.parse_pubmed_caption]. *)
Record fig := mkFig {
  f_pmid : pyval;
  f_pmc : pyval;
  f_fig_id : pyval;
  f_fig_caption : pyval;
  f_graphic_ref : pyval
}.

(** A [tarfile.TarInfo] with the bytes [extractfile] reads for it. *)
Record TarInfo := mkTarInfo {
  ti_name : string;
  ti_isfile : bool;
  ti_data : bytes
}.

(** A decoded PIL image: its mode and its pixel data. *)
Record image := mkImage { mode : string; pixels : bytes }.

(** What [im.save(path, format=..., quality=...)] writes. *)
Record saved_file := mkSaved {
  sf_format : string;
  sf_quality : Z;
  sf_image : image
}.

(** Bands of a PIL mode. *)
Definition channels (m : string) : nat :=
  if String.eqb m "RGB" || String.eqb m "YCbCr" || String.eqb m "LAB" || String.eqb m "HSV" then 3
  else if String.eqb m "RGBA" || String.eqb m "CMYK" || String.eqb m "RGBX" || String.eqb m "RGBa" then 4
  else if String.eqb m "LA" || String.eqb m "PA" || String.eqb m "La" then 2
  else 1.

(** Decoding a saved JPEG gives an image of the mode that was saved. *)
Definition decoded_mode (f : saved_file) : string := mode (sf_image f).

(** JSON as [json.loads] returns it (numbers: integers only). *)
#[local] Unset Elimination Schemes.
Inductive json :=
| JNull
| JBool (b : bool)
| JInt (z : Z)
| JStr (s : string)
| JList (l : list json)
| JObj (fields : list (string * json)).
#[local] Set Elimination Schemes.

(** One line of the output file: [json.loads] raises on it, or returns a
    value. A line the pipeline writes is [json.dumps] of a dict of strings,
    which [json.loads] reads back as that dict. *)
Inductive jline :=
| Unparsable
| Parsed (v : json).

(** Hashable values that end up in [existing_pairs]; [True] is the key 1. *)
Inductive pykey := KStr (s : string) | KInt (z : Z).

#[global] Instance pykey_eq_dec : EqDecision pykey.
Proof. solve_decision. Defined.

#[global] Instance pykey_countable : Countable pykey.
Proof.
  refine (inj_countable'
            (fun k => match k with KStr s => inl s | KInt z => inr z end)
            (fun x => match x with inl s => KStr s | inr z => KInt z end) _).
  by intros [].
Defined.

(** [obj.get(k, default)] on a parsed object: the last binding of a
    repeated key is the one [json.loads] keeps. *)
Fixpoint obj_get (fields : list (string * json)) (k : string) (default : json) : json :=
  match fields with
  | [] => default
  | (k', v) :: rest =>
      obj_get rest k (if String.eqb k' k then v else default)
  end.

Inductive request := Head (url : string) | Get (url : string).

(** ** The outside world *)

Record world := mkWorld {
  (** [requests.head(url)]: raises, or answers with or without a
      Content-Length that [int] reads. *)
  http_head : string -> result (option Z);
  (** [_stream_download(url, dst)]: raises, or leaves these bytes at [dst]. *)
  http_get : string -> result bytes;
  (** [tarfile.open(mode="r:gz")] and [getmembers] on downloaded bytes. *)
  tar_open : bytes -> result (list TarInfo);
  (** [pubmed_parser.parse_pubmed_caption] on the bytes of a markup
      member; [None] is returned as the empty list, both are falsy. *)
  parse_pubmed_caption : bytes -> result (list fig);
  (** [Image.open] on the bytes of an image member; [None] when it raises. *)
  image_open : bytes -> option image
}.

(** ** Configuration and state *)

Record config := mkConfig {
  subset_size : option Z;
  file_extension : string;
  max_filesize_mb : option Z;
  resume : bool;
  use_dual_base : bool;
  images_out_dir : Path
}.

Record entry := mkEntry {
  e_path : string;
  e_title : string;
  e_pmcid : string;
  e_pmid : string;
  e_code : string
}.

Record state := mkState {
  jsonl : list jline;                  (* lines read at startup, then the records written *)
  existing_pairs : gset pykey;         (* the dedup set *)
  n_written : nat;
  n_skipped : nat;
  saved : list (Path * saved_file);    (* every [im.save], oldest first *)
  reqs : list request                  (* every request sent, oldest first *)
}.

Definition log_req (st : state) (r : request) : state :=
  {| jsonl := jsonl st; existing_pairs := existing_pairs st;
     n_written := n_written st; n_skipped := n_skipped st;
     saved := saved st; reqs := reqs st ++ [r] |}.

(** [n_skipped += 1] *)
Definition skip (st : state) : state :=
  {| jsonl := jsonl st; existing_pairs := existing_pairs st;
     n_written := n_written st; n_skipped := S (n_skipped st);
     saved := saved st; reqs := reqs st |}.

(** [im.save(out_path, ...)] *)
Definition save_image (st : state) (p : Path) (f : saved_file) : state :=
  {| jsonl := jsonl st; existing_pairs := existing_pairs st;
     n_written := n_written st; n_skipped := n_skipped st;
     saved := saved st ++ [(p, f)]; reqs := reqs st |}.

(** [jf.write(json.dumps(record) + "\n")], [existing_pairs.add(pair_id)]
    and [n_written += 1]. The record is logged as the run wrote it; the
    bytes go to the end of the file, so where the record lands among the
    lines on disk depends on how the file ended: see [append_records]. *)
Definition write_record (st : state) (line : jline) (pair_id : string) : state :=
  {| jsonl := jsonl st ++ [line];
     existing_pairs := {[KStr pair_id]} ∪ existing_pairs st;
     n_written := S (n_written st); n_skipped := n_skipped st;
     saved := saved st; reqs := reqs st |}.

(** ** Constants of the module *)

Definition PRIMARY_BASE : string := "https://pmc-oa-opendata.s3.amazonaws.com/".
Definition FALLBACK_BASE : string := "https://ftp.ncbi.nlm.nih.gov/pub/pmc/".
Definition IMAGE_EXTS : list string := [".jpg"; ".jpeg"; ".png"; ".tif"; ".tiff"].

(** ** Helpers (lines 24-71) *)

(** [_stream_download]: streams the response to [dst_path], or raises. *)
Definition _stream_download (w : world) (url : string) : result bytes :=
  http_get w url.

(** [_safe_open_tar], with the member list read from the archive. *)
Definition _safe_open_tar (w : world) (tar_bytes : bytes) : result (list TarInfo) :=
  tar_open w tar_bytes.

(** [_load_pubmed_figs_from_nxml_bytes]: the parser run on a temporary
    copy of the bytes. *)
Definition _load_pubmed_figs_from_nxml_bytes (w : world) (nxml_bytes : bytes)
    : result (list fig) :=
  parse_pubmed_caption w nxml_bytes.

(** [_response_size]: the Content-Length, or [None] when the request
    raises or the header is missing. *)
Definition _response_size (w : world) (url : string) : option Z :=
  match http_head w url with
  | Ok (Some n) => Some n
  | Ok None => None
  | Raise _ => None
  end.

(** [_members_by_ext]: members whose lowercased name ends with one of the
    lowercased extensions. *)
Definition _members_by_ext (members : list TarInfo) (exts : list string) : list TarInfo :=
  List.filter
    (fun m => existsb (fun e => Str.endswith (Str.lower e) (Str.lower (ti_name m))) exts)
    members.

(** [_extract_member_to_bytes]: [extractfile] gives no file object for a
    member that is not a file, and the helper then returns [b""]. *)
Definition _extract_member_to_bytes (m : TarInfo) : bytes :=
  if ti_isfile m then ti_data m else "".

(** [im.convert(m)] *)
Definition convert (im : image) (m : string) : image :=
  {| mode := m; pixels := pixels im |}.

(** [_ensure_jpeg_and_save]: [None] when [Image.open] or [with_suffix]
    raises (nothing has been saved then); otherwise the path written and
    the state with that save. Both branches of the mode test convert, as
    in the source: every mode but RGB ends as RGB. *)
Definition _ensure_jpeg_and_save (w : world) (img_bytes : bytes) (out_path : Path)
    (st : state) : option (Path * state) :=
  match image_open w img_bytes with
  | None => None
  | Some im =>
      let im :=
        if negb (String.eqb (mode im) "RGB" || String.eqb (mode im) "L")
        then convert im "RGB"
        else if String.eqb (mode im) "L" then convert im "RGB"
        else im in
      let out :=
        if negb (String.eqb (Str.lower (Pathlib.suffix out_path)) ".jpg")
        then Pathlib.with_suffix out_path ".jpg"
        else Some out_path in
      match out with
      | None => None
      | Some out_path =>
          Some (out_path,
                save_image st out_path
                  {| sf_format := "JPEG"; sf_quality := 90; sf_image := im |})
      end
  end.

(** ** The dedup index at startup (lines 332-342) *)

(** The [pid] a line contributes: [json.loads] must succeed, the value
    must be a dict, and [obj.get("pair_id", "")] must be truthy and
    hashable; every exception of the loop's body is swallowed. The
    iteration itself is outside the [try]: a file that cannot be decoded
    raises out of the function, see [lines_read] and [run_on]. *)
Definition line_pid (l : jline) : option pykey :=
  match l with
  | Parsed (JObj fields) =>
      match obj_get fields "pair_id" (JStr "") with
      | JStr s => if Str.truthy s then Some (KStr s) else None
      | JInt z => if (z =? 0)%Z then None else Some (KInt z)
      | JBool b => if b then Some (KInt 1) else None
      | JNull | JList _ | JObj _ => None
      end
  | _ => None
  end.

Definition load_existing_pairs (resume : bool) (file : list jline) : gset pykey :=
  if resume
  then fold_left (fun s l => match line_pid l with
                             | Some k => {[k]} ∪ s
                             | None => s
                             end) file ∅
  else ∅.

(** ** The manifest (lines 344-355) *)

Definition parse_row (line : string) : option entry :=
  match Str.split Str.tab (Str.rstrip (Ascii.eqb Str.newline) line) with
  | [path; title; pmcid; pmid; code] =>
      Some {| e_path := path; e_title := title; e_pmcid := pmcid;
              e_pmid := pmid; e_code := code |}
  | _ => None
  end.

(** [subset_size and idx + 1 > subset_size] *)
Definition cap_reached (subset_size : option Z) (idx : nat) : bool :=
  match subset_size with
  | Some n => negb (n =? 0)%Z && (Z.of_nat idx + 1 >? n)%Z
  | None => false
  end.

Fixpoint read_loop (subset_size : option Z) (idx : nat) (lines : list string)
    (entries : list entry) : list entry :=
  match lines with
  | [] => entries
  | line :: rest =>
      if cap_reached subset_size idx then entries
      else match parse_row line with
           | Some e => read_loop subset_size (S idx) rest (entries ++ [e])
           | None => read_loop subset_size (S idx) rest entries
           end
  end.

(** [file.readlines()[1:]] and the loop over it. *)
Definition read_entries (subset_size : option Z) (manifest : list string) : list entry :=
  read_loop subset_size 0 (List.tl manifest) [].

(** ** The image matcher (lines 401-433) *)

(** A dict keyed by strings, in insertion order: binding an existing key
    again replaces its value and keeps its place. *)
Fixpoint dict_set {V : Type} (d : list (string * V)) (k : string) (v : V) : list (string * V) :=
  match d with
  | [] => [(k, v)]
  | (k', v') :: d' =>
      if String.eqb k' k then (k', v) :: d' else (k', v') :: dict_set d' k v
  end.

Fixpoint dict_get {V : Type} (d : list (string * V)) (k : string) : option V :=
  match d with
  | [] => None
  | (k', v) :: d' => if String.eqb k' k then Some v else dict_get d' k
  end.

Definition is_image_member (m : TarInfo) : bool :=
  ti_isfile m &&
  existsb (fun ext => Str.endswith ext (Str.lower (ti_name m))) IMAGE_EXTS.

(** [img_tar_members]: lowercased basename to member. *)
Definition img_index (members : list TarInfo) : list (string * TarInfo) :=
  fold_left
    (fun d m =>
       if is_image_member m
       then dict_set d (Str.lower (Pathlib.name (Pathlib.of_str (ti_name m)))) m
       else d)
    members [].

Definition ref_base (graphic_ref : string) : string :=
  Pathlib.name (Pathlib.of_str graphic_ref).

Definition ref_stem (graphic_ref : string) : string :=
  Pathlib.stem (Pathlib.of_str (ref_base graphic_ref)).

Definition candidates (graphic_ref : string) : list string :=
  [Str.lower (ref_base graphic_ref)] ++
  List.map (fun ext => Str.lower (ref_stem graphic_ref ++ ext)) IMAGE_EXTS.

(** [for c in candidates: if c in img_tar_members: ...; break] *)
Fixpoint first_candidate (idx : list (string * TarInfo)) (cs : list string) : option TarInfo :=
  match cs with
  | [] => None
  | c :: cs' =>
      match dict_get idx c with
      | Some m => Some m
      | None => first_candidate idx cs'
      end
  end.

(** [for mname in img_tar_members: if stem in mname: ...; break] *)
Fixpoint scan_stem (stem : string) (idx : list (string * TarInfo)) : option TarInfo :=
  match idx with
  | [] => None
  | (mname, m) :: idx' =>
      if Str.contains stem mname then Some m else scan_stem stem idx'
  end.

Definition find_member (idx : list (string * TarInfo)) (graphic_ref : string) : option TarInfo :=
  match first_candidate idx (candidates graphic_ref) with
  | Some m => Some m
  | None => scan_stem (ref_stem graphic_ref) idx
  end.

(** ** One caption (lines 411-458) *)

(** How one pass through the caption loop's body ends: the loop goes on
    with the next caption, or an exception leaves the loop. *)
Inductive fig_step :=
| Continue (st : state) (wrote_any : bool)
| Abort (st : state) (e : exn).

(** [fig.get("graphic_ref", "")], [None] when the value is falsy. *)
Definition get_ref (v : pyval) : option string :=
  match v with
  | PStr s => if Str.truthy s then Some s else None
  | _ => None
  end.

Definition pair_id_of (_pmid fig_id : string) : string := _pmid ++ "_" ++ fig_id.

(** [Path(_pmc) / f"{_pmc}_fig-{fig_id}.jpg"] *)
Definition img_rel_of (_pmc fig_id : string) : Path :=
  Pathlib.join (Pathlib.of_str _pmc) (Pathlib.of_str (_pmc ++ "_fig-" ++ fig_id ++ ".jpg")).

Definition record_line (image caption pmid pmcid pair_id : string) : jline :=
  Parsed (JObj [("image", JStr image); ("caption", JStr caption);
                ("pmid", JStr pmid); ("pmcid", JStr pmcid);
                ("pair_id", JStr pair_id)]).

Definition process_fig (cfg : config) (w : world) (idx : list (string * TarInfo))
    (_pmid _pmc : string) (st : state) (wrote_any : bool) (f : fig) : fig_step :=
  let fig_id := get_str (f_fig_id f) in
  let fig_caption := Str.strip (get_str (f_fig_caption f)) in
  match get_ref (f_graphic_ref f) with
  | None => Continue st wrote_any
  | Some graphic_ref =>
      if negb (Str.truthy fig_caption) then Continue st wrote_any
      else
        match find_member idx graphic_ref with
        | None => Continue st wrote_any
        | Some member =>
            let pair_id := pair_id_of _pmid fig_id in
            if resume cfg && bool_decide (KStr pair_id ∈ existing_pairs st)
            then Continue st wrote_any
            else
              let img_bytes := _extract_member_to_bytes member in
              let img_abs := Pathlib.join (images_out_dir cfg) (img_rel_of _pmc fig_id) in
              match _ensure_jpeg_and_save w img_bytes img_abs st with
              | None => Continue st wrote_any
              | Some (saved_path, st1) =>
                  match Pathlib.relative_to saved_path (images_out_dir cfg) with
                  | None => Abort st1 ValueError
                  | Some rel =>
                      Continue
                        (write_record st1
                           (record_line (Pathlib.as_posix rel) fig_caption _pmid _pmc pair_id)
                           pair_id)
                        true
                  end
              end
        end
  end.

Fixpoint fig_loop (cfg : config) (w : world) (idx : list (string * TarInfo))
    (_pmid _pmc : string) (figs : list fig) (st : state) (wrote_any : bool) : fig_step :=
  match figs with
  | [] => Continue st wrote_any
  | f :: rest =>
      match process_fig cfg w idx _pmid _pmc st wrote_any f with
      | Continue st' wrote_any' => fig_loop cfg w idx _pmid _pmc rest st' wrote_any'
      | Abort st' e => Abort st' e
      end
  end.

(** ** Retrieval (lines 297-313, 367-383) *)

(** [rel_path if rel_path.endswith(file_extension) else rel_path + file_extension] *)
Definition with_extension (rel_path file_extension : string) : string :=
  if Str.endswith file_extension rel_path then rel_path
  else rel_path ++ file_extension.

(** [_try_download_with_fallback]: the primary endpoint, then the
    fallback; [RuntimeError] when both raise. *)
Definition _try_download_with_fallback (w : world) (rel_path file_extension : string)
    (st : state) : result bytes * state :=
  let rel := with_extension rel_path file_extension in
  let s3_url := PRIMARY_BASE ++ rel in
  let st1 := log_req st (Get s3_url) in
  match _stream_download w s3_url with
  | Ok b => (Ok b, st1)
  | Raise e1 =>
      let ftp_url := FALLBACK_BASE ++ rel in
      let st2 := log_req st1 (Get ftp_url) in
      match _stream_download w ftp_url with
      | Ok b => (Ok b, st2)
      | Raise e2 => (Raise RuntimeError, st2)
      end
  end.

(** The optional size check: whether the entry is skipped, and the state
    with the request sent, if any. *)
Definition size_guard (cfg : config) (w : world) (rel_path : string) (st : state) : bool * state :=
  match max_filesize_mb cfg with
  | Some mx =>
      let url := PRIMARY_BASE ++ with_extension rel_path (file_extension cfg) in
      let st' := log_req st (Head url) in
      match _response_size w url with
      | Some size_bytes => ((size_bytes >? mx * 1024 * 1024)%Z, st')
      | None => (false, st')
      end
  | None => (false, st)
  end.

Definition download (cfg : config) (w : world) (rel_path : string) (st : state)
    : result bytes * state :=
  if use_dual_base cfg
  then _try_download_with_fallback w rel_path (file_extension cfg) st
  else
    let url := PRIMARY_BASE ++ with_extension rel_path (file_extension cfg) in
    (_stream_download w url, log_req st (Get url)).

(** ** One manifest entry (lines 362-473) *)

(** The exit the loop body took for an entry; not a value of the program,
    but a name for each of its paths. *)
Inductive outcome :=
| TooLarge
| DownloadFailed (e : exn)
| BadArchive (e : exn)
| NoMarkup
| ParseFailed (e : exn)
| NoCaptions
| LoopAborted (e : exn)
| Finished (wrote_any : bool).

(** Lines 367-399: size check, download, archive, markup, captions. On
    the left the exit taken when the entry is given up; on the right the
    archive members and the captions, first one apart. *)
Definition open_entry (cfg : config) (w : world) (st : state) (ent : entry)
    : (outcome + list TarInfo * fig * list fig) * state :=
  let rel_path := e_path ent in
  match size_guard cfg w rel_path st with
  | (true, st0) => (inl TooLarge, st0)
  | (false, st0) =>
      match download cfg w rel_path st0 with
      | (Raise e, st1) => (inl (DownloadFailed e), st1)
      | (Ok tar_bytes, st1) =>
          match _safe_open_tar w tar_bytes with
          | Raise e => (inl (BadArchive e), st1)
          | Ok members =>
              match _members_by_ext members [".nxml"] with
              | [] => (inl NoMarkup, st1)
              | nxml :: _ =>
                  match _load_pubmed_figs_from_nxml_bytes w (_extract_member_to_bytes nxml) with
                  | Raise e => (inl (ParseFailed e), st1)
                  | Ok [] => (inl NoCaptions, st1)
                  | Ok (fig0 :: figs) => (inr (members, fig0, figs), st1)
                  end
              end
          end
      end
  end.

(** The body of [for ent in pbar]: every way of giving the entry up, and
    every [except] clause, ends in [n_skipped += 1]. *)
Definition process_entry (cfg : config) (w : world) (st : state) (ent : entry)
    : state * outcome :=
  let pmcid := e_pmcid ent in
  let pmid := e_pmid ent in
  match open_entry cfg w st ent with
  | (inl o, st1) => (skip st1, o)
  | (inr (members, fig0, figs), st1) =>
      let idx := img_index members in
      let _pmid := get_or (f_pmid fig0) pmid in
      let _pmc := get_or (f_pmc fig0) pmcid in
      match fig_loop cfg w idx _pmid _pmc (fig0 :: figs) st1 false with
      | Continue st2 wrote_any =>
          (if wrote_any then st2 else skip st2, Finished wrote_any)
      | Abort st2 e => (skip st2, LoopAborted e)
      end
  end.

(** ** The run (lines 315-475) *)

Definition initial_state (cfg : config) (file : list jline) : state :=
  {| jsonl := file;
     existing_pairs := load_existing_pairs (resume cfg) file;
     n_written := 0; n_skipped := 0; saved := []; reqs := [] |}.

(** [for ent in pbar: ...], with the exit of every entry. *)
Fixpoint process_entries (cfg : config) (w : world) (entries : list entry) (st : state)
    : state * list outcome :=
  match entries with
  | [] => (st, [])
  | ent :: rest =>
      let '(st1, o) := process_entry cfg w st ent in
      let '(st2, os) := process_entries cfg w rest st1 in
      (st2, o :: os)
  end.

(** The function once the output file has been read: [manifest] is the
    lines of [file_list_path], [file] the lines the startup loop gets from
    [jsonl_out_path] (none when the file does not exist). What the file
    on disk becomes, and the file that cannot be read, are in [run_on]
    below. *)
Definition build_pubmed_image_caption_dataset_streaming (cfg : config) (w : world)
    (manifest : list string) (file : list jline) : state * list outcome :=
  process_entries cfg w (read_entries (subset_size cfg) manifest) (initial_state cfg file).

Definition run_state (cfg : config) (w : world) (manifest : list string)
    (file : list jline) : state :=
  fst (build_pubmed_image_caption_dataset_streaming cfg w manifest file).

Definition run_outcomes (cfg : config) (w : world) (manifest : list string)
    (file : list jline) : list outcome :=
  snd (build_pubmed_image_caption_dataset_streaming cfg w manifest file).

(** The lines a run appended to the output file. *)
Definition appended (cfg : config) (w : world) (manifest : list string)
    (file : list jline) : list jline :=
  List.skipn (List.length file) (jsonl (run_state cfg w manifest file)).

(** ** The output file on disk (lines 332-342, 361, 455) *)

(** The text after the last newline of the file, when there is some: a
    record cut short, or one whose newline is missing. [Blank] is a tail
    of spaces and tabs, the white space [json.loads] passes over;
    [Fragment v] is any other text, [v] being what [json.loads] makes of
    that text alone. *)
Inductive tail_text :=
| Blank
| Fragment (v : jline).

(** The output file: its complete lines and the tail after them; or a
    file with bytes that are not UTF-8, such as a record cut inside a
    character. *)
Inductive out_file :=
| Lines (complete : list jline) (tail : option tail_text)
| Undecodable.

Definition tail_line (t : tail_text) : jline :=
  match t with
  | Blank => Unparsable
  | Fragment v => v
  end.

(** [for line in f]: the lines the startup loop is given, the tail as the
    last one; [None] is the [UnicodeDecodeError] that leaves the loop and
    the function, the iteration being outside the [try]. *)
Definition lines_read (f : out_file) : option (list jline) :=
  match f with
  | Lines complete None => Some complete
  | Lines complete (Some t) => Some (complete ++ [tail_line t])%list
  | Undecodable => None
  end.

(** The line a record makes when its bytes follow a tail: after spaces
    and tabs [json.loads] reads the record; after any other text the
    line is that text followed by an object, which is not JSON. *)
Definition glue (t : tail_text) (record : jline) : jline :=
  match t with
  | Blank => record
  | Fragment _ => Unparsable
  end.

(** The file after [jf.write] has added the records to its end: the
    first one lands on the line of the tail. *)
Definition append_records (f : out_file) (records : list jline) : out_file :=
  match f with
  | Undecodable => Undecodable
  | Lines complete None => Lines (complete ++ records) None
  | Lines complete (Some t) =>
      match records with
      | [] => f
      | r :: rest => Lines (complete ++ glue t r :: rest) None
      end
  end.

(** The function on the file as it is on disk: the file is read only
    with resume on; the result is the final state, the exit of every
    entry and the file left behind, or [None] when the startup loop
    raises. *)
Definition run_on (cfg : config) (w : world) (manifest : list string) (f : out_file)
    : option (state * list outcome * out_file) :=
  match (if resume cfg then lines_read f else Some []) with
  | None => None
  | Some file =>
      Some (run_state cfg w manifest file, run_outcomes cfg w manifest file,
            append_records f (appended cfg w manifest file))
  end.

(** ** Definitions used to state and prove the properties *)

(** The part of [_ensure_jpeg_and_save] that does not touch the state:
    the path it writes and the file it writes there. *)
Definition normalized (w : world) (img_bytes : bytes) (out_path : Path)
    : option (Path * saved_file) :=
  match _ensure_jpeg_and_save w img_bytes out_path
          {| jsonl := []; existing_pairs := ∅; n_written := 0; n_skipped := 0;
             saved := []; reqs := [] |} with
  | Some (p, st) =>
      match saved st with
      | [(_, sf)] => Some (p, sf)
      | _ => None
      end
  | None => None
  end.

(** What one caption asks of the state, read off the caption, the
    archive and the world alone: nothing; or, unless its pair id is
    already known, an image save followed by a record; or an image save
    followed by an exception. *)
Inductive plan :=
| PNothing
| PWrite (pair_id : string) (p : Path) (sf : saved_file) (line : jline)
| PFail (pair_id : string) (p : Path) (sf : saved_file) (e : exn).

Definition fig_plan (cfg : config) (w : world) (idx : list (string * TarInfo))
    (_pmid _pmc : string) (f : fig) : plan :=
  let fig_id := get_str (f_fig_id f) in
  let fig_caption := Str.strip (get_str (f_fig_caption f)) in
  match get_ref (f_graphic_ref f) with
  | None => PNothing
  | Some graphic_ref =>
      if negb (Str.truthy fig_caption) then PNothing
      else
        match find_member idx graphic_ref with
        | None => PNothing
        | Some member =>
            let pair_id := pair_id_of _pmid fig_id in
            let img_abs := Pathlib.join (images_out_dir cfg) (img_rel_of _pmc fig_id) in
            match normalized w (_extract_member_to_bytes member) img_abs with
            | None => PNothing
            | Some (saved_path, sf) =>
                match Pathlib.relative_to saved_path (images_out_dir cfg) with
                | None => PFail pair_id saved_path sf ValueError
                | Some rel =>
                    PWrite pair_id saved_path sf
                      (record_line (Pathlib.as_posix rel) fig_caption _pmid _pmc pair_id)
                end
            end
        end
  end.

Definition known (resume : bool) (pair_id : string) (st : state) : bool :=
  resume && bool_decide (KStr pair_id ∈ existing_pairs st).

Definition exec_plan (resume : bool) (pl : plan) (st : state) (wrote_any : bool) : fig_step :=
  match pl with
  | PNothing => Continue st wrote_any
  | PWrite pair_id p sf line =>
      if known resume pair_id st then Continue st wrote_any
      else Continue (write_record (save_image st p sf) line pair_id) true
  | PFail pair_id p sf e =>
      if known resume pair_id st then Continue st wrote_any
      else Abort (save_image st p sf) e
  end.

Fixpoint exec_plans (resume : bool) (pls : list plan) (st : state) (wrote_any : bool) : fig_step :=
  match pls with
  | [] => Continue st wrote_any
  | pl :: rest =>
      match exec_plan resume pl st wrote_any with
      | Continue st' wrote_any' => exec_plans resume rest st' wrote_any'
      | Abort st' e => Abort st' e
      end
  end.

(** The pair id a plan is about, if any. *)
Definition plan_pid (pl : plan) : option string :=
  match pl with
  | PNothing => None
  | PWrite pid _ _ _ => Some pid
  | PFail pid _ _ _ => Some pid
  end.

(** The state with another request log. *)
Definition with_reqs (st : state) (r : list request) : state :=
  {| jsonl := jsonl st; existing_pairs := existing_pairs st;
     n_written := n_written st; n_skipped := n_skipped st;
     saved := saved st; reqs := r |}.

(** The pair ids the startup loop collects from a file. *)
Definition collected (file : list jline) : list pykey := omap line_pid file.

(** The manifest lines a cap lets through, in the words of the specification:
    the first [n] lines for a cap [n] other than 0, every line for no cap
    and for the cap 0. *)
Definition capped (subset_size : option Z) (lines : list string) : list string :=
  match subset_size with
  | Some n => if (n =? 0)%Z then lines else take (Z.to_nat n) lines
  | None => lines
  end.

(** The lines the reading loop still gets to when it stands at index
    [idx] with [lines] ahead. *)
Definition remaining (subset_size : option Z) (idx : nat) (lines : list string) : list string :=
  match subset_size with
  | Some n => if (n =? 0)%Z then lines else take (Z.to_nat n - idx) lines
  | None => lines
  end.

(** The matcher in the words of the specification: the exact lowercased
    basename, then the stem with each extension in order, then the first
    indexed basename that contains the stem. *)
Definition match_exact (idx : list (string * TarInfo)) (graphic_ref : string) : option TarInfo :=
  dict_get idx (Str.lower (ref_base graphic_ref)).

Definition match_ext (idx : list (string * TarInfo)) (graphic_ref ext : string) : option TarInfo :=
  dict_get idx (Str.lower (ref_stem graphic_ref ++ ext)).

Definition match_substring (idx : list (string * TarInfo)) (graphic_ref : string) : option TarInfo :=
  snd <$> List.find (fun km => Str.contains (ref_stem graphic_ref) (fst km)) idx.

Definition or_else {A : Type} (x y : option A) : option A :=
  match x with
  | Some a => Some a
  | None => y
  end.

Definition match_by_precedence (idx : list (string * TarInfo)) (graphic_ref : string)
    : option TarInfo :=
  or_else (match_exact idx graphic_ref)
    (or_else (match_ext idx graphic_ref ".jpg")
       (or_else (match_ext idx graphic_ref ".jpeg")
          (or_else (match_ext idx graphic_ref ".png")
             (or_else (match_ext idx graphic_ref ".tif")
                (or_else (match_ext idx graphic_ref ".tiff")
                   (match_substring idx graphic_ref)))))).

(** A string without a slash. *)
Fixpoint no_slash (s : string) : bool :=
  match s with
  | EmptyString => true
  | String c s' => negb (Ascii.eqb c "/") && no_slash s'
  end.

(** An identifier that is one path component: not empty, not ["."], no
    slash. *)
Definition plain (s : string) : bool :=
  no_slash s && Pathlib.keep_part s.

Definition is_get (r : request) : bool :=
  match r with
  | Get _ => true
  | Head _ => false
  end.

Definition aborted (o : outcome) : bool :=
  match o with
  | LoopAborted _ => true
  | _ => false
  end.

(** An entry counted as skipped: every exit but a finished loop that
    wrote a record. *)
Definition counted_skipped (o : outcome) : bool :=
  match o with
  | Finished true => false
  | _ => true
  end.

Definition empty_state : state :=
  {| jsonl := []; existing_pairs := ∅; n_written := 0; n_skipped := 0;
     saved := []; reqs := [] |}.

(** What [open_entry] returns for an entry and which requests it sends:
    neither depends on the state it starts from. *)
Definition opened (cfg : config) (w : world) (ent : entry)
    : outcome + list TarInfo * fig * list fig :=
  fst (open_entry cfg w empty_state ent).

Definition sent (cfg : config) (w : world) (ent : entry) : list request :=
  reqs (snd (open_entry cfg w empty_state ent)).

(** The identifiers every record of an entry carries. *)
Definition entry_pmid (ent : entry) (fig0 : fig) : string := get_or (f_pmid fig0) (e_pmid ent).
Definition entry_pmc (ent : entry) (fig0 : fig) : string := get_or (f_pmc fig0) (e_pmcid ent).

(** The plans of the captions of an entry, or the exit that gives the
    entry up before its captions are looked at. *)
Definition entry_plans (cfg : config) (w : world) (ent : entry) : outcome + list plan :=
  match opened cfg w ent with
  | inl o => inl o
  | inr (members, fig0, figs) =>
      inr (List.map
             (fig_plan cfg w (img_index members) (entry_pmid ent fig0) (entry_pmc ent fig0))
             (fig0 :: figs))
  end.

Definition exec_entry (resume : bool) (new_reqs : list request) (ep : outcome + list plan)
    (st : state) : state * outcome :=
  let st1 := with_reqs st (reqs st ++ new_reqs) in
  match ep with
  | inl o => (skip st1, o)
  | inr pls =>
      match exec_plans resume pls st1 false with
      | Continue st2 wrote_any => (if wrote_any then st2 else skip st2, Finished wrote_any)
      | Abort st2 e => (skip st2, LoopAborted e)
      end
  end.

(** A plan that writes a line writes one whose pair id the startup loop
    of a later run collects. *)
Definition plan_wf (pl : plan) : Prop :=
  match pl with
  | PWrite pid _ _ line => line_pid line = Some (KStr pid)
  | _ => True
  end.

(** The state a step of the caption loop ends in. *)
Definition step_state (s : fig_step) : state :=
  match s with
  | Continue st _ => st
  | Abort st _ => st
  end.

(** The dedup set holds exactly the pair ids of the lines of the file,
    and no two lines share one. *)
Definition index_matches_file (st : state) : Prop :=
  (forall k : pykey, k ∈ existing_pairs st <-> k ∈ collected (jsonl st))
  /\ NoDup (collected (jsonl st)).

(** Every line carries a pair id, as the lines the pipeline writes do. *)
Definition all_records (file : list jline) : Prop :=
  Forall (fun l => exists pid, line_pid l = Some (KStr pid)) file.

(** Successive runs against one output file: each starts from the file
    the one before left. *)
Fixpoint successive_runs (runs : list (config * world * list string)) (file : list jline)
    : list jline :=
  match runs with
  | [] => file
  | (cfg, w, manifest) :: rest =>
      successive_runs rest (jsonl (run_state cfg w manifest file))
  end.

(** How many entries of a run were counted as skipped. *)
Definition count_skipped (os : list outcome) : nat :=
  List.length (List.filter counted_skipped os).

(** The file name of an image, [f"{_pmc}_fig-{fig_id}.jpg"]. *)
Definition image_name (_pmc fig_id : string) : string :=
  _pmc ++ "_fig-" ++ fig_id ++ ".jpg".

(** The configuration without a size ceiling. *)
Definition no_ceiling (cfg : config) : config :=
  {| subset_size := subset_size cfg; file_extension := file_extension cfg;
     max_filesize_mb := None; resume := resume cfg;
     use_dual_base := use_dual_base cfg; images_out_dir := images_out_dir cfg |}.

(** The world in which the download of [url] succeeds with [b], all else
    as in [w]. *)
Definition served_at (w : world) (url : string) (b : bytes) : world :=
  {| http_head := http_head w;
     http_get := fun u => if String.eqb u url then Ok b else http_get w u;
     tar_open := tar_open w;
     parse_pubmed_caption := parse_pubmed_caption w;
     image_open := image_open w |}.

(** The URL of an entry's package at the primary and at the fallback
    endpoint. *)
Definition primary_url (cfg : config) (ent : entry) : string :=
  PRIMARY_BASE ++ with_extension (e_path ent) (file_extension cfg).

Definition fallback_url (cfg : config) (ent : entry) : string :=
  FALLBACK_BASE ++ with_extension (e_path ent) (file_extension cfg).

(** Every pair id the captions of an entry could write is in the set. *)
Definition covered (s : gset pykey) (ep : outcome + list plan) : Prop :=
  match ep with
  | inl _ => True
  | inr pls => forall pid, In (Some pid) (List.map plan_pid pls) -> KStr pid ∈ s
  end.

(** ** Fixtures: small worlds used by the examples *)

Module Fixture.

Definition row (fields : list string) : string :=
  Str.join (String Str.tab "") fields ++ String Str.newline "".

Definition header : string := row ["File"; "Article Citation"; "Accession ID"; "PMID"; "License"].

Definition cfg0 : config :=
  {| subset_size := None; file_extension := ".tar.gz"; max_filesize_mb := None;
     resume := true; use_dual_base := true;
     images_out_dir := Pathlib.of_str "/data/images/dev" |}.

Definition caption (fig_id text ref : string) : fig :=
  {| f_pmid := Missing; f_pmc := Missing; f_fig_id := PStr fig_id;
     f_fig_caption := PStr text; f_graphic_ref := PStr ref |}.

(** The end-to-end scenario: one package with one caption and one image. *)
Definition manifest1 : list string :=
  [header; row ["00/00/PMC1.tar.gz"; "titleX"; "PMC1"; "1001"; "CC0"]].

Definition members1 : list TarInfo :=
  [ {| ti_name := "PMC1/article.nxml"; ti_isfile := true; ti_data := "nxml-1" |};
    {| ti_name := "PMC1/f1.jpg"; ti_isfile := true; ti_data := "img-f1" |} ].

Definition world1 : world :=
  {| http_head := fun _ => Raise OtherError;
     http_get := fun url =>
       if String.eqb url (PRIMARY_BASE ++ "00/00/PMC1.tar.gz") then Ok "tar-1"
       else Raise HTTPError;
     tar_open := fun b => if String.eqb b "tar-1" then Ok members1 else Raise ReadError;
     parse_pubmed_caption := fun b =>
       if String.eqb b "nxml-1" then Ok [caption "1" "A cell." "f1"]
       else Raise XMLSyntaxError;
     image_open := fun b =>
       if String.eqb b "img-f1" then Some {| mode := "L"; pixels := "px-f1" |} else None |}.

(** A manifest whose first data line has too few fields. *)
Definition manifest_bad : list string :=
  [header; row ["not"; "a"; "row"]; row ["00/00/PMC1.tar.gz"; "titleX"; "PMC1"; "1001"; "CC0"]].

Definition entry1 : entry :=
  {| e_path := "00/00/PMC1.tar.gz"; e_title := "titleX"; e_pmcid := "PMC1";
     e_pmid := "1001"; e_code := "CC0" |}.

(** The archive of the matching example: two image members. *)
Definition fig3_png : TarInfo :=
  {| ti_name := "PMC3/fig3.png"; ti_isfile := true; ti_data := "img-fig3" |}.

Definition other_jpg : TarInfo :=
  {| ti_name := "PMC3/other.jpg"; ti_isfile := true; ti_data := "img-other" |}.

Definition idx3 : list (string * TarInfo) := img_index [fig3_png; other_jpg].

Definition world3 : world :=
  {| http_head := fun _ => Raise OtherError;
     http_get := fun _ => Raise HTTPError;
     tar_open := fun _ => Raise ReadError;
     parse_pubmed_caption := fun _ => Raise XMLSyntaxError;
     image_open := fun b =>
       if String.eqb b "img-fig3" then Some {| mode := "RGBA"; pixels := "px-fig3" |}
       else None |}.

Definition state0 : state := initial_state cfg0 [].

(** The path the pipeline builds for figure 3 of PMC3, and the file the
    normaliser writes there for the RGBA image of [world3]. *)
Definition path3 : Path := Pathlib.join (images_out_dir cfg0) (img_rel_of "PMC3" "3").

Definition file3 : saved_file :=
  {| sf_format := "JPEG"; sf_quality := 90;
     sf_image := {| mode := "RGB"; pixels := "px-fig3" |} |}.

(** The same configuration with resume off. *)
Definition cfg_noresume : config :=
  {| subset_size := None; file_extension := ".tar.gz"; max_filesize_mb := None;
     resume := false; use_dual_base := true;
     images_out_dir := Pathlib.of_str "/data/images/dev" |}.

Definition line1 : jline :=
  record_line "PMC1/PMC1_fig-1.jpg" "A cell." "1001" "PMC1" "1001_1".

(** One package with two captions, each with its image. *)
Definition manifest2 : list string :=
  [header; row ["00/01/PMC2.tar.gz"; "titleY"; "PMC2"; "2002"; "CC BY"]].

Definition members2 : list TarInfo :=
  [ {| ti_name := "PMC2/article.nxml"; ti_isfile := true; ti_data := "nxml-2" |};
    {| ti_name := "PMC2/a.jpg"; ti_isfile := true; ti_data := "img-a" |};
    {| ti_name := "PMC2/b.png"; ti_isfile := true; ti_data := "img-b" |} ].

Definition world2 : world :=
  {| http_head := fun _ => Ok None;
     http_get := fun url =>
       if String.eqb url (PRIMARY_BASE ++ "00/01/PMC2.tar.gz") then Ok "tar-2"
       else Raise HTTPError;
     tar_open := fun b => if String.eqb b "tar-2" then Ok members2 else Raise ReadError;
     parse_pubmed_caption := fun b =>
       if String.eqb b "nxml-2"
       then Ok [caption "F1" "First." "a"; caption "F2" "Second." "b"]
       else Raise XMLSyntaxError;
     image_open := fun b =>
       if String.eqb b "img-a" then Some {| mode := "RGB"; pixels := "px-a" |}
       else if String.eqb b "img-b" then Some {| mode := "P"; pixels := "px-b" |}
       else None |}.

(** The caption of the end-to-end scenario, its archive index and the
    path of its image. *)
Definition caption1 : fig := caption "1" "A cell." "f1".

Definition idx1 : list (string * TarInfo) := img_index members1.

Definition path1 : Path := Pathlib.join (images_out_dir cfg0) (img_rel_of "PMC1" "1").

(** The state after that caption has been written once with resume off. *)
Definition state_written : state :=
  step_state (process_fig cfg_noresume world1 idx1 "1001" "PMC1"
                (initial_state cfg_noresume []) false caption1).

(** One package whose second caption names another article. *)
Definition manifest5 : list string :=
  [header; row ["00/05/PMC5.tar.gz"; "titleZ"; "PMC5"; "5005"; "CC0"]].

Definition entry5 : entry :=
  {| e_path := "00/05/PMC5.tar.gz"; e_title := "titleZ"; e_pmcid := "PMC5";
     e_pmid := "5005"; e_code := "CC0" |}.

Definition members5 : list TarInfo :=
  [ {| ti_name := "PMC5/main.nxml"; ti_isfile := true; ti_data := "nxml-5" |};
    {| ti_name := "PMC5/g1.jpg"; ti_isfile := true; ti_data := "img-a" |};
    {| ti_name := "PMC5/g2.jpg"; ti_isfile := true; ti_data := "img-b" |} ].

Definition caption5a : fig :=
  {| f_pmid := PStr "111"; f_pmc := PStr "PMC111"; f_fig_id := PStr "F1";
     f_fig_caption := PStr "First."; f_graphic_ref := PStr "g1" |}.

Definition caption5b : fig :=
  {| f_pmid := PStr "222"; f_pmc := PStr "PMC222"; f_fig_id := PStr "F2";
     f_fig_caption := PStr "Second."; f_graphic_ref := PStr "g2" |}.

Definition world5 : world :=
  {| http_head := fun _ => Ok None;
     http_get := fun url =>
       if String.eqb url (PRIMARY_BASE ++ "00/05/PMC5.tar.gz") then Ok "tar-5"
       else Raise HTTPError;
     tar_open := fun b => if String.eqb b "tar-5" then Ok members5 else Raise ReadError;
     parse_pubmed_caption := fun b =>
       if String.eqb b "nxml-5" then Ok [caption5a; caption5b]
       else Raise XMLSyntaxError;
     image_open := fun b =>
       if String.eqb b "img-a" then Some {| mode := "RGB"; pixels := "px-a" |}
       else if String.eqb b "img-b" then Some {| mode := "P"; pixels := "px-b" |}
       else None |}.

(** A ceiling of 1 MB, and a world that reports 5 MB for the package of
    the end-to-end scenario. *)
Definition cfg_ceiling : config :=
  {| subset_size := None; file_extension := ".tar.gz"; max_filesize_mb := Some 1%Z;
     resume := true; use_dual_base := true;
     images_out_dir := Pathlib.of_str "/data/images/dev" |}.

Definition world_big : world :=
  {| http_head := fun _ => Ok (Some 5242880%Z);
     http_get := http_get world1;
     tar_open := tar_open world1;
     parse_pubmed_caption := parse_pubmed_caption world1;
     image_open := image_open world1 |}.

(** The end-to-end scenario with the primary endpoint down and the
    package on the fallback endpoint. *)
Definition world_fallback : world :=
  {| http_head := http_head world1;
     http_get := fun url =>
       if String.eqb url (FALLBACK_BASE ++ "00/00/PMC1.tar.gz") then Ok "tar-1"
       else Raise HTTPError;
     tar_open := tar_open world1;
     parse_pubmed_caption := parse_pubmed_caption world1;
     image_open := image_open world1 |}.

(** A manifest whose first row has an absolute path for an accession id.
    With the image directory [/d/x_fig-1], the image of its caption 2 is
    saved outside the directory and [relative_to] raises; the image of
    its caption 1/a lies inside. The second row is an article with the
    same pmid. *)
Definition cfg_abs : config :=
  {| subset_size := None; file_extension := ".tar.gz"; max_filesize_mb := None;
     resume := true; use_dual_base := true;
     images_out_dir := Pathlib.of_str "/d/x_fig-1" |}.

Definition manifest_abs : list string :=
  [header; row ["p/A.tar.gz"; "titleA"; "/d/x"; "7"; "CC0"];
           row ["p/B.tar.gz"; "titleB"; "ok"; "7"; "CC0"]].

Definition members_abs : list TarInfo :=
  [ {| ti_name := "A/a.nxml"; ti_isfile := true; ti_data := "nxml-A" |};
    {| ti_name := "A/g.jpg"; ti_isfile := true; ti_data := "img-a" |} ].

Definition members_ok : list TarInfo :=
  [ {| ti_name := "B/b.nxml"; ti_isfile := true; ti_data := "nxml-B" |};
    {| ti_name := "B/g.jpg"; ti_isfile := true; ti_data := "img-a" |} ].

Definition world_abs : world :=
  {| http_head := fun _ => Ok None;
     http_get := fun url =>
       if String.eqb url (PRIMARY_BASE ++ "p/A.tar.gz") then Ok "tar-A"
       else if String.eqb url (PRIMARY_BASE ++ "p/B.tar.gz") then Ok "tar-B"
       else Raise HTTPError;
     tar_open := fun b =>
       if String.eqb b "tar-A" then Ok members_abs
       else if String.eqb b "tar-B" then Ok members_ok
       else Raise ReadError;
     parse_pubmed_caption := fun b =>
       if String.eqb b "nxml-A" then Ok [caption "2" "Two." "g"; caption "1/a" "One." "g"]
       else if String.eqb b "nxml-B" then Ok [caption "2" "Two." "g"]
       else Raise XMLSyntaxError;
     image_open := fun b =>
       if String.eqb b "img-a" then Some {| mode := "RGB"; pixels := "px-a" |} else None |}.

End Fixture.

From Stdlib Require DecimalString DecimalNat.

(** ** Text files on disk *)

(** A directory tree as the files written so far, oldest first: a path
    and the lines (or records) of the file. *)
Fixpoint fs_lookup {A : Type} (fs : list (Path * list A)) (p : Path) : option (list A) :=
  match fs with
  | [] => None
  | (q, c) :: fs' => if decide (q = p) then Some c else fs_lookup fs' p
  end.

(** [p.open("w")]: the file is created, or emptied where it stands. *)
Fixpoint fs_open_w {A : Type} (fs : list (Path * list A)) (p : Path) : list (Path * list A) :=
  match fs with
  | [] => [(p, [])]
  | (q, c) :: fs' => if decide (q = p) then (q, []) :: fs' else (q, c) :: fs_open_w fs' p
  end.

(** [f.write(x)] on the open file [p]. *)
Fixpoint fs_write {A : Type} (fs : list (Path * list A)) (p : Path) (x : A)
    : list (Path * list A) :=
  match fs with
  | [] => []
  | (q, c) :: fs' =>
      if decide (q = p) then (q, (c ++ [x])%list) :: fs' else (q, c) :: fs_write fs' p x
  end.

(** The whole content of a file replaced, the file created if absent. *)
Fixpoint fs_put {A : Type} (fs : list (Path * list A)) (p : Path) (c : list A)
    : list (Path * list A) :=
  match fs with
  | [] => [(p, c)]
  | (q, c') :: fs' => if decide (q = p) then (q, c) :: fs' else (q, c') :: fs_put fs' p c
  end.

(** ** Number formatting *)

Fixpoint zeros (k : nat) : string :=
  match k with
  | O => ""
  | S k' => String "0" (zeros k')
  end.

(** [str(n)] for a natural number. *)
Definition decimal (n : nat) : string :=
  DecimalString.NilEmpty.string_of_uint (Nat.to_uint n).

(** [f"{n:05d}"]: the decimal digits, padded with zeros on the left to
    five characters. *)
Definition format_05d (n : nat) : string :=
  zeros (5 - String.length (decimal n)) ++ decimal n.

(** [int(s)] for a string of digits. *)
Definition parse_decimal (s : string) : option nat :=
  Nat.of_uint <$> DecimalString.NilEmpty.uint_of_string s.

(** ** split_into_shards.py *)

Module Shards.

Record loop_state := mkLoop {
  files : list (Path * list string);
  shard_idx : nat;
  rows_in_shard : nat;
  fout : option Path
}.

(** [args.out_dir / f"{args.prefix}_shard-{shard_idx:05d}.txt"] *)
Definition shard_path (out_dir : Path) (prefix : string) (idx : nat) : Path :=
  Pathlib.join out_dir (Pathlib.of_str (prefix ++ "_shard-" ++ format_05d idx ++ ".txt")).

(** The body of [for line in fin] (lines 21-31). *)
Definition step (out_dir : Path) (prefix : string) (shard_size : Z) (header : string)
    (st : loop_state) (line : string) : loop_state :=
  let st1 :=
    if Nat.eqb (rows_in_shard st) 0
    then
      let p := shard_path out_dir prefix (shard_idx st) in
      {| files := fs_write (fs_open_w (files st) p) p header;
         shard_idx := S (shard_idx st);
         rows_in_shard := rows_in_shard st;
         fout := Some p |}
    else st in
  let files2 :=
    match fout st1 with
    | Some p => fs_write (files st1) p line
    | None => files st1
    end in
  let rows := S (rows_in_shard st1) in
  {| files := files2;
     shard_idx := shard_idx st1;
     rows_in_shard := if (Z.of_nat rows >=? shard_size)%Z then 0 else rows;
     fout := fout st1 |}.

(** [main] (lines 15-33): [input] is the lines of [args.input];
    [readline] gives the empty string for an empty file. *)
Definition main (out_dir : Path) (prefix : string) (shard_size : Z) (input : list string)
    : list (Path * list string) :=
  let header := List.hd "" input in
  files (fold_left (step out_dir prefix shard_size header) (List.tl input)
           {| files := []; shard_idx := 0; rows_in_shard := 0; fout := None |}).

(** The rows of a shard file: its lines after the header. *)
Definition rows_of (f : Path * list string) : list string := List.tl (snd f).

(** Rows per shard in effect: a size below 1 acts as 1. *)
Definition effective_size (shard_size : Z) : nat := Z.to_nat (Z.max 1 shard_size).

End Shards.

(** ** split.py *)

Module Split.

Record outputs := mkOutputs {
  train : list string;
  dev : list string;
  test : list string
}.

(** [line.rstrip("\n").split("\t")] *)
Definition fields (line : string) : list string :=
  Str.split Str.tab (Str.rstrip (Ascii.eqb Str.newline) line).

(** [int(hashlib.md5(pmcid.encode("utf-8")).hexdigest()[:8], 16) % 100],
    with the first 32 bits of the digest given by [md5_32]. *)
Definition bucket (md5_32 : string -> Z) (pmcid : string) : Z :=
  (md5_32 pmcid mod 100)%Z.

(** The body of [for line in fin] (lines 21-37). *)
Definition step (md5_32 : string -> Z) (o : outputs) (line : string) : outputs :=
  let parts := fields line in
  if (List.length parts <? 5)%nat then o
  else
    let pmcid := List.nth 2 parts "" in
    let h := bucket md5_32 pmcid in
    if (h <? 97)%Z then {| train := (train o ++ [line])%list; dev := dev o; test := test o |}
    else if (h <? 98)%Z then {| train := train o; dev := (dev o ++ [line])%list; test := test o |}
    else {| train := train o; dev := dev o; test := (test o ++ [line])%list |}.

(** The script (lines 12-37): [None] is the [StopIteration] that
    [next(fin)] raises on an empty file. *)
Definition main (md5_32 : string -> Z) (src : list string) : option outputs :=
  match src with
  | [] => None
  | header :: rows =>
      Some (fold_left (step md5_32) rows
              {| train := [header]; dev := [header]; test := [header] |})
  end.

(** A row the script keeps: at least five fields. *)
Definition kept (line : string) : bool := negb (List.length (fields line) <? 5)%nat.

(** The bucket of a row, from its third field. *)
Definition row_bucket (md5_32 : string -> Z) (line : string) : Z :=
  bucket md5_32 (List.nth 2 (fields line) "").

(** A kept row whose bucket is in [lo, hi). *)
Definition row_in (md5_32 : string -> Z) (lo hi : Z) (line : string) : bool :=
  kept line && (lo <=? row_bucket md5_32 line)%Z && (row_bucket md5_32 line <? hi)%Z.

(** A manifest entry whose article has its bucket in [lo, hi). *)
Definition entry_in (md5_32 : string -> Z) (lo hi : Z) (e : entry) : bool :=
  (lo <=? bucket md5_32 (e_pmcid e))%Z && (bucket md5_32 (e_pmcid e) <? hi)%Z.

End Split.

(** ** Definitions used to state the properties of the tools *)

(** The shard files that hold the given chunks of rows, numbered from
    [i]. *)
Fixpoint shard_layout (out_dir : Path) (prefix header : string) (i : nat)
    (chunks : list (list string)) : list (Path * list string) :=
  match chunks with
  | [] => []
  | c :: cs =>
      (Shards.shard_path out_dir prefix i, header :: c)
      :: shard_layout out_dir prefix header (S i) cs
  end.

(** The chunk being filled, as a list of chunks: none while it is empty. *)
Definition open_chunk (last : list string) : list (list string) :=
  match last with
  | [] => []
  | _ => [last]
  end.

(** The state of the sharding loop after the rows [done]: full shards of
    [n] rows, then the rows of the shard being filled. *)
Definition shards_inv (out_dir : Path) (prefix header : string) (n : nat)
    (done : list string) (st : Shards.loop_state) : Prop :=
  exists full last,
    Forall (fun c => List.length c = n) full
    /\ (List.length last < n)%nat
    /\ Shards.rows_in_shard st = List.length last
    /\ Shards.files st = shard_layout out_dir prefix header 0 (full ++ open_chunk last)
    /\ Shards.shard_idx st = List.length (full ++ open_chunk last)
    /\ Shards.fout st
       = match (full ++ open_chunk last)%list with
         | [] => None
         | _ => Some (Shards.shard_path out_dir prefix
                        (List.length (full ++ open_chunk last) - 1))
         end
    /\ (List.concat full ++ last)%list = done.

(** The key of an archive member in the image index,
    [Path(m.name).name.lower()]. *)
Definition member_key (m : TarInfo) : string :=
  Str.lower (Pathlib.name (Pathlib.of_str (ti_name m))).

(** An ASCII capital letter, and a string that has one. *)
Definition is_upper (c : ascii) : bool :=
  (65 <=? nat_of_ascii c)%nat && (nat_of_ascii c <=? 90)%nat.

Fixpoint has_upper (s : string) : bool :=
  match s with
  | EmptyString => false
  | String c s' => is_upper c || has_upper s'
  end.

(** A string with this character in it. *)
Fixpoint has_char (c : ascii) (s : string) : bool :=
  match s with
  | EmptyString => false
  | String a s' => Ascii.eqb a c || has_char c s'
  end.

(** A manifest field: neither a tab nor a newline in it. *)
Definition field_ok (s : string) : bool :=
  negb (has_char Str.tab s) && negb (has_char Str.newline s).

(** A file as the normaliser writes it: a JPEG of quality 90 written from
    an RGB image. *)
Definition normalised_file (sf : saved_file) : Prop :=
  sf_format sf = "JPEG" /\ sf_quality sf = 90%Z /\ decoded_mode sf = "RGB".

(** The image tree after the saves of a log, read at one path: [im.save]
    replaces a file that is already there, so the last save at the path
    is the file on disk. *)
Fixpoint image_at (log : list (Path * saved_file)) (p : Path) : option saved_file :=
  match log with
  | [] => None
  | (q, sf) :: rest =>
      match image_at rest p with
      | Some later => Some later
      | None => if decide (q = p) then Some sf else None
      end
  end.

(** A record line and a save of the log that was made for it: the line
    names, relative to the image directory, the path of the save, a
    normalised file; its caption is not empty. *)
Definition record_has_image (cfg : config) (files : list (Path * saved_file)) (l : jline)
    : Prop :=
  exists p sf rel caption pmid pmc pid,
    In (p, sf) files
    /\ Pathlib.relative_to p (images_out_dir cfg) = Some rel
    /\ l = record_line (Pathlib.as_posix rel) caption pmid pmc pid
    /\ Str.truthy caption = true
    /\ sf_format sf = "JPEG" /\ sf_quality sf = 90%Z /\ decoded_mode sf = "RGB".

(** A writing plan whose line has its image in the saved file; the file
    of a plan that fails after its save is a normalised one as well. *)
Definition plan_has_image (cfg : config) (pl : plan) : Prop :=
  match pl with
  | PWrite _ p sf line => record_has_image cfg [(p, sf)] line
  | PFail _ _ sf _ => normalised_file sf
  | _ => True
  end.

(** Whether the caption loop was left by an exception. *)
Definition step_aborted (s : fig_step) : bool :=
  match s with
  | Continue _ _ => false
  | Abort _ _ => true
  end.

(** ** The runners of process.py (lines 480-539) *)

Module Runner.

(** The output files, the image tree and the requests sent, across the
    calls of a runner. *)
Record disk := mkDisk {
  outputs : list (Path * list jline);
  images : list (Path * saved_file);
  traffic : list request
}.

(** The keyword arguments every runner passes: [resume=True],
    [use_dual_base=True], the rest at their defaults. *)
Definition runner_config (images_dir : Path) : config :=
  {| subset_size := None; file_extension := ".tar.gz"; max_filesize_mb := None;
     resume := true; use_dual_base := true; images_out_dir := images_dir |}.

(** The lines of an output file before a run: none when it does not
    exist. *)
Definition lines_of (fs : list (Path * list jline)) (p : Path) : list jline :=
  match fs_lookup fs p with
  | Some l => l
  | None => []
  end.

(** One call of [build_pubmed_image_caption_dataset_streaming] on the
    disk: [manifest] is the lines of [file_list_path]. *)
Definition call_builder (w : world) (d : disk) (manifest : list string)
    (jsonl_out images_dir : Path) : disk :=
  let st := run_state (runner_config images_dir) w manifest (lines_of (outputs d) jsonl_out) in
  {| outputs := fs_put (outputs d) jsonl_out (jsonl st);
     images := (images d ++ saved st)%list;
     traffic := (traffic d ++ reqs st)%list |}.

(** [run_dev_and_test] *)
Definition run_dev_and_test (w : world) (dev_list test_list : list string) (out_root : Path)
    (d : disk) : disk :=
  let images_root := Pathlib.join out_root (Pathlib.of_str "images") in
  let d1 := call_builder w d dev_list
              (Pathlib.join out_root (Pathlib.of_str "dev.jsonl"))
              (Pathlib.join images_root (Pathlib.of_str "dev")) in
  call_builder w d1 test_list
    (Pathlib.join out_root (Pathlib.of_str "test.jsonl"))
    (Pathlib.join images_root (Pathlib.of_str "test")).

(** The default [shard_name_fmt], ["train_shard-{idx:05d}"], applied to
    an index. *)
Definition default_shard_name (i : nat) : string := "train_shard-" ++ format_05d i.

(** [out_root / f"{shard_name}.jsonl"] *)
Definition shard_jsonl (out_root : Path) (shard_name_fmt : nat -> string) (i : nat) : Path :=
  Pathlib.join out_root (Pathlib.of_str (shard_name_fmt i ++ ".jsonl")).

(** [out_root / "images" / "train" / f"shard-{i:05d}"] *)
Definition shard_images (out_root : Path) (i : nat) : Path :=
  Pathlib.join (Pathlib.join (Pathlib.join out_root (Pathlib.of_str "images"))
                  (Pathlib.of_str "train"))
    (Pathlib.of_str ("shard-" ++ format_05d i)).

(** The loop of [run_train_shards] from index [i] on;
    [shard_name_fmt.format(idx=i)] is [shard_name_fmt i]. *)
Fixpoint shards_from (w : world) (out_root : Path) (shard_name_fmt : nat -> string)
    (i : nat) (shard_lists : list (list string)) (d : disk) : disk :=
  match shard_lists with
  | [] => d
  | shard_list :: rest =>
      shards_from w out_root shard_name_fmt (S i) rest
        (call_builder w d shard_list (shard_jsonl out_root shard_name_fmt i)
           (shard_images out_root i))
  end.

(** [run_train_shards]: [enumerate(shard_lists, start=1)]. *)
Definition run_train_shards (w : world) (shard_lists : list (list string)) (out_root : Path)
    (shard_name_fmt : nat -> string) (d : disk) : disk :=
  shards_from w out_root shard_name_fmt 1 shard_lists d.

End Runner.

(** The string a record line holds under a key, as a reader of the
    output file gets it from [json.loads(line)]: [None] when the line is
    no object, the key is absent or its value is not a string. *)
Definition record_field (l : jline) (k : string) : option string :=
  match l with
  | Parsed (JObj fields) =>
      match obj_get fields k JNull with
      | JStr s => Some s
      | _ => None
      end
  | _ => None
  end.

(** The file a run leaves on disk, if the run gets past its startup. *)
Definition file_after (cfg : config) (w : world) (manifest : list string) (f : out_file)
    : option out_file :=
  match run_on cfg w manifest f with
  | Some (_, _, f') => Some f'
  | None => None
  end.

(** The text [{pmc}/{pmc}_fig-{fig_id}.jpg]. *)
Definition image_text (_pmc fig_id : string) : string :=
  _pmc ++ "/" ++ _pmc ++ "_fig-" ++ fig_id ++ ".jpg".

(** A path text that pathlib keeps as written and whose name is more than
    an extension: no component between its slashes is empty or a dot (so
    it is relative and has no doubled or final slash), and the last
    component is not the bare [.jpg]. *)
Definition kept_as_written (s : string) : bool :=
  forallb Pathlib.keep_part (Str.split "/" s)
  && negb (String.eqb (List.last (Str.split "/" s) "") ".jpg").

(** The identifier every record of an entry carries, in the words of the
    specification: the value of the first caption, or the value of the
    manifest when the first caption has none, [None] or the empty text. *)
Definition first_or_manifest (first : pyval) (manifest_value : string) : string :=
  match first with
  | Missing => manifest_value
  | PNone => manifest_value
  | PStr s => if String.eqb s "" then manifest_value else s
  end.

(** ** Sample values for the tools and the matcher *)

Module Sample.

(** An archive with one image, [fig1.jpg]. *)
Definition fig1 : TarInfo :=
  {| ti_name := "PMC7/fig1.jpg"; ti_isfile := true; ti_data := "img-fig1" |}.

Definition archive : list TarInfo :=
  [{| ti_name := "PMC7/article.nxml"; ti_isfile := true; ti_data := "markup" |}; fig1].

(** Two output files with the same pair ids: one has an unreadable
    line, the other the same record twice. *)
Definition known_line : jline := Parsed (JObj [("pair_id", JStr "2002_F1")]).

Definition file_torn : list jline := [Unparsable; known_line].

Definition file_twice : list jline := [known_line; known_line].

(** An archive with the same picture as PNG and as JPEG, the PNG
    first. *)
Definition x_png : TarInfo :=
  {| ti_name := "d/x.png"; ti_isfile := true; ti_data := "img-x-png" |}.

Definition x_jpg : TarInfo :=
  {| ti_name := "d/x.jpg"; ti_isfile := true; ti_data := "img-x-jpg" |}.

Definition png_then_jpg : list (string * TarInfo) := img_index [x_png; x_jpg].

(** The package of [Fixture.world5] when its first caption has an empty
    [pmid] and [None] for its [pmc], and the second caption names another
    article. *)
Definition caption6a : fig :=
  {| f_pmid := PStr ""; f_pmc := PNone; f_fig_id := PStr "F1";
     f_fig_caption := PStr "First."; f_graphic_ref := PStr "g1" |}.

Definition world6 : world :=
  {| http_head := http_head Fixture.world5;
     http_get := http_get Fixture.world5;
     tar_open := tar_open Fixture.world5;
     parse_pubmed_caption := fun b =>
       if String.eqb b "nxml-5" then Ok [caption6a; Fixture.caption5b]
       else Raise XMLSyntaxError;
     image_open := image_open Fixture.world5 |}.

(** The world of the end-to-end scenario when the size query reports
    exactly 1 MB, the ceiling of [Fixture.cfg_ceiling], and when it
    reports one byte more. *)
Definition world_at_ceiling : world :=
  {| http_head := fun _ => Ok (Some 1048576%Z);
     http_get := http_get Fixture.world1;
     tar_open := tar_open Fixture.world1;
     parse_pubmed_caption := parse_pubmed_caption Fixture.world1;
     image_open := image_open Fixture.world1 |}.

Definition world_over_ceiling : world :=
  {| http_head := fun _ => Ok (Some 1048577%Z);
     http_get := http_get Fixture.world1;
     tar_open := tar_open Fixture.world1;
     parse_pubmed_caption := parse_pubmed_caption Fixture.world1;
     image_open := image_open Fixture.world1 |}.

End Sample.

(** The state when the output file held [before] ahead of its lines. *)
Definition shift_file (before : list jline) (st : state) : state :=
  {| jsonl := (before ++ jsonl st)%list; existing_pairs := existing_pairs st;
     n_written := n_written st; n_skipped := n_skipped st;
     saved := saved st; reqs := reqs st |}.

(** The state a run starts in, the lines of the file apart. *)
Definition initial_index (cfg : config) (file : list jline) : state :=
  {| jsonl := []; existing_pairs := load_existing_pairs (resume cfg) file;
     n_written := 0; n_skipped := 0; saved := []; reqs := [] |}.

(** * Properties *)

(** ** Strings and paths *)

Section StringFacts.

Lemma app_cons (c : ascii) (a b : string) : String c a ++ b = String c (a ++ b).
Proof. reflexivity. Qed.

Lemma app_nil (b : string) : "" ++ b = b.
Proof. reflexivity. Qed.

Lemma str_length_app (a b : string) :
  String.length (a ++ b) = (String.length a + String.length b)%nat.
Proof.
  induction a as [|c a IH]; [reflexivity|].
  rewrite app_cons. simpl. now rewrite IH.
Qed.

Lemma app_empty_r (a : string) : a ++ "" = a.
Proof. induction a as [|c a IH]; [reflexivity | now rewrite app_cons, IH]. Qed.

Lemma app_assoc_str (a b c : string) : (a ++ b) ++ c = a ++ (b ++ c).
Proof. induction a as [|x a IH]; [reflexivity | now rewrite !app_cons, IH]. Qed.

Lemma length_zero_empty (a : string) : String.length a = 0%nat -> a = "".
Proof. destruct a; simpl; [reflexivity | discriminate]. Qed.

Lemma substring_zero_app (a b : string) :
  String.substring 0 (String.length a) (a ++ b) = a.
Proof.
  induction a as [|c a IH].
  - rewrite app_nil. destruct b; reflexivity.
  - rewrite app_cons. simpl. now rewrite IH.
Qed.

Lemma substring_all (b : string) : String.substring 0 (String.length b) b = b.
Proof. induction b as [|c b IH]; simpl; [reflexivity | now rewrite IH]. Qed.

Lemma substring_skip_app (a b : string) :
  String.substring (String.length a) (String.length b) (a ++ b) = b.
Proof.
  induction a as [|c a IH]; [apply substring_all | rewrite app_cons; exact IH].
Qed.

Lemma length_substring (s : string) : forall i n,
  (i + n <= String.length s)%nat -> String.length (String.substring i n s) = n.
Proof.
  induction s as [|c s IH]; intros i n H; simpl in *.
  - destruct i, n; simpl; lia.
  - destruct i as [|i]; [destruct n as [|n]|]; simpl; try reflexivity.
    + f_equal. apply IH. lia.
    + apply IH. lia.
Qed.

Lemma rfind_app (c : ascii) (a b : string) :
  Str.rfind c (a ++ b) =
  match Str.rfind c b with
  | Some i => Some (String.length a + i)%nat
  | None => Str.rfind c a
  end.
Proof.
  induction a as [|x a IH].
  - rewrite app_nil. destruct (Str.rfind c b); reflexivity.
  - rewrite app_cons. simpl. rewrite IH.
    destruct (Str.rfind c b), (Str.rfind c a); reflexivity.
Qed.

Lemma rfind_lt (c : ascii) (s : string) (i : nat) :
  Str.rfind c s = Some i -> (i < String.length s)%nat.
Proof.
  revert i. induction s as [|x s IH]; simpl; intros i H; [discriminate|].
  destruct (Str.rfind c s) as [j|].
  - injection H as <-. specialize (IH j eq_refl). lia.
  - destruct (Ascii.eqb x c); [injection H as <-; lia | discriminate].
Qed.

(** A name that ends in [.jpg] after at least one character has the
    suffix [.jpg]. *)
Lemma suffix_of_jpg (t : string) :
  t <> "" -> Pathlib.suffix_of (t ++ ".jpg") = ".jpg".
Proof.
  intros Ht. unfold Pathlib.suffix_of.
  rewrite rfind_app. simpl Str.rfind. rewrite str_length_app. simpl String.length.
  assert (0 < String.length t)%nat as Hpos.
  { destruct t; [congruence | simpl; lia]. }
  replace (0 <? String.length t + 0)%nat with true by (symmetry; apply Nat.ltb_lt; lia).
  replace (String.length t + 0 <? String.length t + 4 - 1)%nat with true
    by (symmetry; apply Nat.ltb_lt; lia).
  simpl andb. cbv iota.
  replace (String.length t + 4 - (String.length t + 0))%nat with (String.length ".jpg")
    by (simpl; lia).
  rewrite Nat.add_0_r. apply substring_skip_app.
Qed.

(** The suffix of a name is never the whole name: a non-empty part
    stays in front of it. *)
Lemma suffix_of_split (n : string) :
  Pathlib.suffix_of n = "" \/
  (String.substring 0 (String.length n - String.length (Pathlib.suffix_of n)) n <> "").
Proof.
  unfold Pathlib.suffix_of.
  destruct (Str.rfind "." n) as [i|] eqn:Hr; [|now left].
  destruct ((0 <? i)%nat && (i <? String.length n - 1)%nat) eqn:Hc; [|now left].
  right. apply andb_true_iff in Hc as [H0 H1].
  apply Nat.ltb_lt in H0. apply Nat.ltb_lt in H1.
  rewrite (length_substring n i (String.length n - i)) by lia.
  intros Hempty.
  assert (String.length (String.substring 0 (String.length n - (String.length n - i)) n)
          = (String.length n - (String.length n - i))%nat) as Hl
    by (apply length_substring; lia).
  rewrite Hempty in Hl. simpl in Hl. lia.
Qed.

Lemma last_snoc {A : Type} (l : list A) (x d : A) : List.last (l ++ [x]) d = x.
Proof.
  induction l as [|a l IH]; simpl; [reflexivity|].
  destruct (l ++ [x])%list eqn:E; [destruct l; discriminate | exact IH].
Qed.

Lemma last_app_nonempty {A : Type} (l1 l2 : list A) (d : A) :
  l2 <> [] -> List.last (l1 ++ l2) d = List.last l2 d.
Proof.
  intros H. induction l1 as [|a l1 IH]; simpl; [reflexivity|].
  destruct (l1 ++ l2)%list eqn:E; [|exact IH].
  destruct l1, l2; simpl in E; congruence.
Qed.

(** [with_suffix(".jpg")] succeeds on every path with a name, and the
    new name is a non-empty base followed by [.jpg]. *)
Lemma with_suffix_jpg (p p' : Path) :
  Pathlib.with_suffix p ".jpg" = Some p' ->
  exists base, base <> "" /\ Pathlib.name p' = base ++ ".jpg" /\
    root p' = root p /\ parts p' = (List.removelast (parts p) ++ [(base ++ ".jpg")%string])%list.
Proof.
  unfold Pathlib.with_suffix, Pathlib.suffix.
  destruct (String.eqb (Pathlib.name p) "") eqn:Hn; [discriminate|].
  apply String.eqb_neq in Hn.
  intros H. injection H as <-. unfold Pathlib.name at 1. simpl.
  destruct (String.eqb (Pathlib.suffix_of (Pathlib.name p)) "") eqn:Hs.
  - exists (Pathlib.name p). rewrite last_snoc. auto.
  - apply String.eqb_neq in Hs.
    destruct (suffix_of_split (Pathlib.name p)) as [He|Hb]; [congruence|].
    eexists. rewrite last_snoc. split; [exact Hb|]. auto.
Qed.

Lemma suffix_after_with_suffix (p p' : Path) :
  Pathlib.with_suffix p ".jpg" = Some p' -> Pathlib.suffix p' = ".jpg".
Proof.
  intros H. destruct (with_suffix_jpg _ _ H) as (base & Hb & Hn & _).
  unfold Pathlib.suffix. rewrite Hn. now apply suffix_of_jpg.
Qed.

End StringFacts.

(** ** The manifest reader *)

Section Manifest.

Variable subset_size : option Z.

Lemma read_loop_remaining (lines : list string) : forall idx entries,
  read_loop subset_size idx lines entries
  = (entries ++ omap parse_row (remaining subset_size idx lines))%list.
Proof.
  induction lines as [|line rest IH]; intros idx entries.
  - unfold remaining. simpl.
    destruct subset_size as [n|]; [destruct (n =? 0)%Z|];
      rewrite ?take_nil; simpl; now rewrite app_nil_r.
  - simpl read_loop. destruct (cap_reached subset_size idx) eqn:Hcap.
    + unfold cap_reached in Hcap. unfold remaining.
      destruct subset_size as [n|]; [|discriminate].
      destruct (n =? 0)%Z; [discriminate|]. simpl in Hcap.
      apply Z.gtb_lt in Hcap.
      replace (Z.to_nat n - idx)%nat with 0%nat by lia.
      simpl. now rewrite app_nil_r.
    + assert (remaining subset_size idx (line :: rest) = line :: remaining subset_size (S idx) rest) as ->.
      { unfold cap_reached in Hcap. unfold remaining.
        destruct subset_size as [n|]; [|reflexivity].
        destruct (n =? 0)%Z; [reflexivity|]. simpl in Hcap.
        assert (~ (Z.of_nat idx + 1 > n)%Z) as Hle.
        { intros Hgt. apply Z.gt_lt, Z.gtb_lt in Hgt. congruence. }
        replace (Z.to_nat n - idx)%nat with (S (Z.to_nat n - S idx)) by lia.
        reflexivity. }
      simpl omap. destruct (parse_row line) as [e|]; rewrite IH.
      * now rewrite <- app_assoc.
      * reflexivity.
Qed.

End Manifest.

(** C9. The subset cap is applied to the raw manifest lines that follow
    the header, in file order: the entries are the well-formed rows among
    the first [n] lines, so a malformed line uses up a place under the cap
    and fewer than [n] entries may be attempted; the cap 0 reads every
    line, like no cap. *)
Theorem subset_cap_counts_raw_lines :
  (forall (subset_size : option Z) (manifest : list string),
      read_entries subset_size manifest
      = omap parse_row (capped subset_size (List.tl manifest)))
  /\ (forall manifest : list string,
         read_entries (Some 0%Z) manifest = read_entries None manifest
         /\ read_entries (Some 0%Z) manifest = omap parse_row (List.tl manifest))
  /\ (read_entries (Some 1%Z) Fixture.manifest_bad = []
      /\ read_entries (Some 2%Z) Fixture.manifest_bad = [Fixture.entry1]
      /\ read_entries None Fixture.manifest_bad = [Fixture.entry1]).
Proof.
  assert (forall ss manifest,
             read_entries ss manifest = omap parse_row (capped ss (List.tl manifest))) as H.
  { intros ss manifest. unfold read_entries. rewrite read_loop_remaining.
    unfold remaining, capped. simpl.
    destruct ss as [n|]; [|reflexivity].
    destruct (n =? 0)%Z; [reflexivity|]. now rewrite Nat.sub_0_r. }
  split; [exact H|]. split.
  - intros manifest. rewrite !H. simpl. auto.
  - repeat split; vm_compute; reflexivity.
Qed.

(** ** Paths and their components *)

Section Components.

Lemma split_nonempty (sep : ascii) (s : string) : Str.split sep s <> [].
Proof.
  destruct s as [|c s]; simpl; [discriminate|].
  destruct (Ascii.eqb c sep); [discriminate|].
  destruct (Str.split sep s); discriminate.
Qed.

Lemma split_no_slash (s : string) : no_slash s = true -> Str.split "/" s = [s].
Proof.
  induction s as [|c s IH]; simpl; [reflexivity|].
  intros H. apply andb_true_iff in H as [Hc Hs].
  apply negb_true_iff in Hc. rewrite Hc, (IH Hs). reflexivity.
Qed.

(** Appending a slash-free string changes only the last component. *)
Lemma split_app_no_slash (a b : string) :
  no_slash b = true ->
  Str.split "/" (a ++ b)
  = (List.removelast (Str.split "/" a) ++ [(List.last (Str.split "/" a) "" ++ b)%string])%list.
Proof.
  intros Hb. induction a as [|c a IH].
  - rewrite app_nil. simpl. now apply split_no_slash.
  - rewrite app_cons. simpl Str.split. rewrite IH.
    pose proof (split_nonempty "/" a) as Hne.
    destruct (Str.split "/" a) as [|h t]; [congruence|].
    destruct (Ascii.eqb c "/").
    + reflexivity.
    + destruct t as [|h' t']; reflexivity.
Qed.

Lemma keep_part_jpg (t : string) : Pathlib.keep_part (t ++ ".jpg") = true.
Proof.
  unfold Pathlib.keep_part.
  assert (String.length (t ++ ".jpg") = (String.length t + 4)%nat) as Hl
    by (rewrite str_length_app; reflexivity).
  apply andb_true_iff; split; apply negb_true_iff, String.eqb_neq;
    intros He; rewrite He in Hl; simpl in Hl; lia.
Qed.

Lemma no_slash_app (a b : string) : no_slash (a ++ b) = no_slash a && no_slash b.
Proof.
  induction a as [|c a IH]; [reflexivity|].
  rewrite app_cons. simpl. rewrite IH. now rewrite andb_assoc.
Qed.

Lemma root_of_no_slash (s : string) : no_slash s = true -> Pathlib.root_of s = "".
Proof.
  unfold Pathlib.root_of. destruct s as [|c s]; simpl; [reflexivity|].
  intros H. apply andb_true_iff in H as [Hc _]. apply negb_true_iff in Hc.
  now rewrite Hc.
Qed.

(** A separator splits a text into the components before it and those
    after it. *)
Lemma split_sep_app (sep : ascii) (a b : string) :
  Str.split sep (a ++ String sep b) = (Str.split sep a ++ Str.split sep b)%list.
Proof.
  induction a as [|c a IH].
  - rewrite app_nil. simpl. now rewrite Ascii.eqb_refl.
  - rewrite app_cons. simpl Str.split. rewrite IH.
    pose proof (split_nonempty sep a) as Hne.
    destruct (Str.split sep a) as [|h t]; [congruence|].
    destruct (Ascii.eqb c sep); reflexivity.
Qed.

(** Joining the components again gives the text back. *)
Lemma join_split (sep : ascii) (s : string) :
  Str.join (String sep EmptyString) (Str.split sep s) = s.
Proof.
  induction s as [|c s IH]; [reflexivity|].
  simpl Str.split. pose proof (split_nonempty sep s) as Hne.
  destruct (Str.split sep s) as [|h t] eqn:E; [congruence|].
  destruct (Ascii.eqb c sep) eqn:Ec.
  - apply Ascii.eqb_eq in Ec. subst c.
    change (Str.join (String sep "") ("" :: h :: t))
      with ("" ++ String sep "" ++ Str.join (String sep "") (h :: t)).
    now rewrite IH.
  - destruct t as [|y t].
    + simpl in IH |- *. now rewrite IH.
    + change (Str.join (String sep "") (String c h :: y :: t))
        with (String c h ++ String sep "" ++ Str.join (String sep "") (y :: t)).
      change (Str.join (String sep "") (h :: y :: t))
        with (h ++ String sep "" ++ Str.join (String sep "") (y :: t)) in IH.
      rewrite app_cons. now rewrite IH.
Qed.

Lemma filter_all {A : Type} (p : A -> bool) (l : list A) :
  forallb p l = true -> List.filter p l = l.
Proof.
  induction l as [|x l IH]; simpl; [reflexivity|].
  intros H. apply andb_true_iff in H as [Hx Hl]. now rewrite Hx, IH.
Qed.

Lemma no_char_rfind (c : ascii) (s : string) :
  has_char c s = false -> Str.rfind c s = None.
Proof.
  induction s as [|a s IH]; [reflexivity|]. simpl.
  intros H. apply orb_false_iff in H as [Ha Hs]. now rewrite (IH Hs), Ha.
Qed.

(** The name of a path text is its last component that is neither
    empty nor a dot. *)
Lemma name_of_str_dir (dir name : string) :
  no_slash name = true -> Pathlib.keep_part name = true ->
  Pathlib.name (Pathlib.of_str name) = name
  /\ Pathlib.name (Pathlib.of_str (dir ++ "/" ++ name)) = name.
Proof.
  intros Hns Hk. unfold Pathlib.name, Pathlib.of_str. simpl parts. split.
  - rewrite (split_no_slash _ Hns). simpl. now rewrite Hk.
  - change (dir ++ "/" ++ name) with (dir ++ String "/" name).
    rewrite split_sep_app, (split_no_slash _ Hns), List.filter_app. simpl List.filter.
    rewrite Hk. apply last_snoc.
Qed.

(** The stem of a name: the text before its last dot, when that dot is
    neither the first nor the last character. *)
Lemma stem_of_ext (s e : string) :
  s <> "" -> e <> "" -> has_char "." e = false ->
  Pathlib.stem_of (s ++ "." ++ e) = s.
Proof.
  intros Hs He Hdot. unfold Pathlib.stem_of.
  rewrite rfind_app. change ("." ++ e) with (String "." e). simpl Str.rfind.
  rewrite (no_char_rfind _ _ Hdot). simpl. rewrite Nat.add_0_r.
  rewrite str_length_app. simpl String.length.
  assert (0 < String.length s)%nat as Hps by (destruct s; [congruence | simpl; lia]).
  assert (0 < String.length e)%nat as Hpe by (destruct e; [congruence | simpl; lia]).
  destruct (Nat.ltb_spec 0 (String.length s)); [|lia].
  destruct (Nat.ltb_spec (String.length s) (String.length s + S (String.length e) - 1));
    [|lia].
  simpl. apply substring_zero_app.
Qed.

Lemma stem_of_no_dot (s : string) : has_char "." s = false -> Pathlib.stem_of s = s.
Proof. intros H. unfold Pathlib.stem_of. now rewrite (no_char_rfind _ _ H). Qed.

Lemma keep_part_ext (s e : string) : s <> "" -> Pathlib.keep_part (s ++ "." ++ e) = true.
Proof.
  intros Hs.
  assert (2 <= String.length (s ++ "." ++ e))%nat as Hlen.
  { rewrite !str_length_app. destruct s; [congruence | simpl; lia]. }
  unfold Pathlib.keep_part.
  apply andb_true_iff; split; apply negb_true_iff, String.eqb_neq;
    intros H; rewrite H in Hlen; simpl in Hlen; lia.
Qed.

End Components.

(** ** The image matcher *)

Section Matcher.

Variable idx : list (string * TarInfo).

Lemma scan_stem_find (stem : string) (d : list (string * TarInfo)) :
  scan_stem stem d = snd <$> List.find (fun km => Str.contains stem (fst km)) d.
Proof.
  induction d as [|[k m] d IH]; simpl; [reflexivity|].
  destruct (Str.contains stem k); [reflexivity | exact IH].
Qed.

Lemma find_member_precedence (graphic_ref : string) :
  find_member idx graphic_ref = match_by_precedence idx graphic_ref.
Proof.
  unfold find_member, match_by_precedence, match_exact, match_ext, match_substring.
  rewrite scan_stem_find. unfold candidates, IMAGE_EXTS. simpl.
  repeat (match goal with
          | |- context [dict_get idx ?k] => destruct (dict_get idx k); simpl; try reflexivity
          end).
Qed.

End Matcher.

Section ReferenceNames.

(** The base of a reference is its last path component; the stem is the
    base without its extension. *)
Lemma ref_base_dir (dir name : string) :
  no_slash name = true -> Pathlib.keep_part name = true ->
  ref_base name = name /\ ref_base (dir ++ "/" ++ name) = name.
Proof. apply name_of_str_dir. Qed.

Lemma ref_stem_of_base (graphic_ref base : string) :
  ref_base graphic_ref = base -> no_slash base = true -> Pathlib.keep_part base = true ->
  ref_stem graphic_ref = Pathlib.stem_of base.
Proof.
  intros Hb Hns Hk. unfold ref_stem, Pathlib.stem. rewrite Hb.
  now rewrite (proj1 (name_of_str_dir "" base Hns Hk)).
Qed.

Lemma ref_stem_ext (dir s e : string) :
  no_slash s = true -> s <> "" -> no_slash e = true -> e <> "" -> has_char "." e = false ->
  ref_stem (s ++ "." ++ e) = s /\ ref_stem (dir ++ "/" ++ s ++ "." ++ e) = s.
Proof.
  intros Hs Hne He Hee Hdot.
  assert (no_slash (s ++ "." ++ e) = true) as Hns
    by (rewrite !no_slash_app, Hs, He; reflexivity).
  pose proof (keep_part_ext s e Hne) as Hk.
  destruct (ref_base_dir dir _ Hns Hk) as [H1 H2].
  split.
  - rewrite (ref_stem_of_base _ _ H1 Hns Hk). now apply stem_of_ext.
  - rewrite (ref_stem_of_base _ _ H2 Hns Hk). now apply stem_of_ext.
Qed.

Lemma ref_stem_plain (dir s : string) :
  no_slash s = true -> Pathlib.keep_part s = true -> has_char "." s = false ->
  ref_stem s = s /\ ref_stem (dir ++ "/" ++ s) = s.
Proof.
  intros Hs Hk Hdot. destruct (ref_base_dir dir _ Hs Hk) as [H1 H2].
  split.
  - rewrite (ref_stem_of_base _ _ H1 Hs Hk). now apply stem_of_no_dot.
  - rewrite (ref_stem_of_base _ _ H2 Hs Hk). now apply stem_of_no_dot.
Qed.

End ReferenceNames.

Section UnmatchedCaption.

Variables (cfg : config) (w : world) (idx : list (string * TarInfo)).
Variables (_pmid _pmc : string).

Lemma process_fig_unmatched (st : state) (wrote_any : bool) (f : fig) (graphic_ref : string) :
  get_ref (f_graphic_ref f) = Some graphic_ref ->
  find_member idx graphic_ref = None ->
  process_fig cfg w idx _pmid _pmc st wrote_any f = Continue st wrote_any.
Proof.
  intros Href Hnone. unfold process_fig. rewrite Href, Hnone.
  now destruct (negb _).
Qed.

End UnmatchedCaption.



(** ** The image normaliser *)

Section Normaliser.

Variable w : world.

Lemma ensure_jpeg_normalized (img_bytes : bytes) (out_path : Path) (st : state) :
  _ensure_jpeg_and_save w img_bytes out_path st =
  match normalized w img_bytes out_path with
  | Some (p, sf) => Some (p, save_image st p sf)
  | None => None
  end.
Proof.
  unfold normalized, _ensure_jpeg_and_save.
  destruct (image_open w img_bytes) as [im|]; [|reflexivity].
  destruct (if negb _ then Pathlib.with_suffix out_path ".jpg" else Some out_path);
    reflexivity.
Qed.

Lemma normalized_file (img_bytes : bytes) (out_path p : Path) (sf : saved_file) :
  normalized w img_bytes out_path = Some (p, sf) ->
  sf_format sf = "JPEG" /\ sf_quality sf = 90%Z /\ decoded_mode sf = "RGB".
Proof.
  unfold normalized, _ensure_jpeg_and_save.
  destruct (image_open w img_bytes) as [im|]; [|discriminate].
  destruct (if negb _ then Pathlib.with_suffix out_path ".jpg" else Some out_path);
    [|discriminate].
  simpl. intros H. injection H as _ <-. unfold decoded_mode. simpl.
  repeat split.
  destruct (String.eqb (mode im) "RGB") eqn:Hrgb; simpl.
  - destruct (String.eqb (mode im) "L"); [reflexivity|].
    now apply String.eqb_eq.
  - destruct (String.eqb (mode im) "L"); reflexivity.
Qed.

Lemma normalized_path (img_bytes : bytes) (out_path p : Path) (sf : saved_file) :
  normalized w img_bytes out_path = Some (p, sf) ->
  (Str.lower (Pathlib.suffix out_path) = ".jpg" /\ p = out_path)
  \/ (Str.lower (Pathlib.suffix out_path) <> ".jpg"
      /\ Pathlib.with_suffix out_path ".jpg" = Some p).
Proof.
  unfold normalized, _ensure_jpeg_and_save.
  destruct (image_open w img_bytes) as [im|]; [|discriminate].
  destruct (String.eqb (Str.lower (Pathlib.suffix out_path)) ".jpg") eqn:Hs; simpl.
  - intros H. injection H as <- _. left. split; [now apply String.eqb_eq | reflexivity].
  - apply String.eqb_neq in Hs.
    destruct (Pathlib.with_suffix out_path ".jpg") as [q|] eqn:Hq; [|discriminate].
    simpl. intros H. injection H as <- _. right. auto.
Qed.

(** The image written is the decoded one, its pixels kept, in mode RGB. *)
Lemma normalized_image (img_bytes : bytes) (out_path p : Path) (sf : saved_file) :
  normalized w img_bytes out_path = Some (p, sf) ->
  exists im,
    image_open w img_bytes = Some im
    /\ sf_image sf = {| mode := "RGB"; pixels := pixels im |}.
Proof.
  unfold normalized, _ensure_jpeg_and_save.
  destruct (image_open w img_bytes) as [im|]; [|discriminate].
  destruct (if negb _ then Pathlib.with_suffix out_path ".jpg" else Some out_path);
    [|discriminate].
  simpl. intros H. injection H as _ <-. exists im. split; [reflexivity|]. simpl.
  destruct (String.eqb (mode im) "RGB") eqn:Hrgb; simpl.
  - destruct (String.eqb (mode im) "L"); [reflexivity|].
    apply String.eqb_eq in Hrgb. destruct im as [m px]. simpl in *. now subst m.
  - destruct (String.eqb (mode im) "L"); reflexivity.
Qed.

End Normaliser.

Section PipelinePaths.

Lemma parts_of_str_jpg (s : string) :
  exists front t,
    parts (Pathlib.of_str (s ++ ".jpg")) = (front ++ [(t ++ ".jpg")%string])%list.
Proof.
  unfold Pathlib.of_str. simpl parts.
  rewrite split_app_no_slash by reflexivity.
  rewrite List.filter_app. simpl List.filter. rewrite keep_part_jpg.
  eauto.
Qed.

Lemma name_join (p q : Path) :
  parts q <> [] -> Pathlib.name (Pathlib.join p q) = Pathlib.name q.
Proof.
  intros Hq. unfold Pathlib.join, Pathlib.name.
  destruct (Str.truthy (root q)); [reflexivity|].
  simpl. now apply last_app_nonempty.
Qed.

Lemma parts_join_nonempty (p q : Path) :
  parts q <> [] -> parts (Pathlib.join p q) <> [].
Proof.
  intros Hq. unfold Pathlib.join.
  destruct (Str.truthy (root q)); [exact Hq|].
  simpl. destruct (parts p); simpl; [exact Hq | discriminate].
Qed.

(** The name of every image path the pipeline builds ends in [.jpg]. *)
Lemma name_img_abs (dir : Path) (_pmc fig_id : string) :
  exists t, Pathlib.name (Pathlib.join dir (img_rel_of _pmc fig_id)) = t ++ ".jpg".
Proof.
  unfold img_rel_of.
  replace (_pmc ++ "_fig-" ++ fig_id ++ ".jpg")
    with ((_pmc ++ "_fig-" ++ fig_id) ++ ".jpg")
    by (now rewrite !app_assoc_str).
  destruct (parts_of_str_jpg (_pmc ++ "_fig-" ++ fig_id)) as (front & t & Hp).
  exists t.
  assert (parts (Pathlib.of_str ((_pmc ++ "_fig-" ++ fig_id) ++ ".jpg")) <> []) as Hne.
  { rewrite Hp. destruct front; discriminate. }
  rewrite name_join by (now apply parts_join_nonempty).
  rewrite name_join by exact Hne.
  unfold Pathlib.name. rewrite Hp. apply last_snoc.
Qed.

End PipelinePaths.

(** C4. Every image the normaliser saves is the decoded source image
    written as JPEG with quality 90 in the three-channel mode RGB,
    whatever the mode of the source. The extension of the written path is
    [.jpg]: a path whose extension differs from [.jpg] (letter case
    apart, as the code compares the lowercased extension) is forced to
    [.jpg], and on every path the pipeline builds the extension is [.jpg]
    exactly. *)
Theorem normalizer_rgb_jpeg :
  forall (w : world) (img_bytes : bytes) (out_path : Path) (st : state)
         (p : Path) (st' : state),
    _ensure_jpeg_and_save w img_bytes out_path st = Some (p, st') ->
    exists sf : saved_file,
      st' = save_image st p sf
      /\ saved st' = (saved st ++ [(p, sf)])%list
      /\ sf_format sf = "JPEG"
      /\ sf_quality sf = 90%Z
      /\ (exists im,
             image_open w img_bytes = Some im
             /\ sf_image sf = {| mode := "RGB"; pixels := pixels im |})
      /\ decoded_mode sf = "RGB"
      /\ channels (decoded_mode sf) = 3
      /\ Str.lower (Pathlib.suffix p) = ".jpg"
      /\ (Str.lower (Pathlib.suffix out_path) <> ".jpg" -> Pathlib.suffix p = ".jpg")
      /\ (Str.lower (Pathlib.suffix out_path) = ".jpg" -> p = out_path)
      /\ (forall dir _pmc fig_id,
             out_path = Pathlib.join dir (img_rel_of _pmc fig_id) ->
             Pathlib.suffix p = ".jpg").
Proof.
  intros w img_bytes out_path st p st' H.
  rewrite ensure_jpeg_normalized in H.
  destruct (normalized w img_bytes out_path) as [[q sf]|] eqn:Hn; [|discriminate].
  injection H as <- <-. exists sf.
  destruct (normalized_file _ _ _ _ _ Hn) as (Hfmt & Hq & Hmode).
  split; [reflexivity|]. split; [reflexivity|]. split; [exact Hfmt|].
  split; [exact Hq|]. split; [exact (normalized_image _ _ _ _ _ Hn)|].
  split; [exact Hmode|]. split; [now rewrite Hmode|].
  destruct (normalized_path _ _ _ _ _ Hn) as [[Hlow ->]|[Hlow Hws]].
  - split; [exact Hlow|]. split; [congruence|]. split; [reflexivity|].
    intros dir _pmc fig_id ->.
    destruct (name_img_abs dir _pmc fig_id) as [t Ht].
    unfold Pathlib.suffix in *. rewrite Ht in *.
    destruct t as [|c t]; [vm_compute in Hlow; discriminate|].
    now apply suffix_of_jpg.
  - pose proof (suffix_after_with_suffix _ _ Hws) as Hs.
    split; [now rewrite Hs|]. split; [auto|]. split; [congruence|]. auto.
Qed.

(** An RGBA image saved at the path of figure 3 of PMC3, and a grayscale
    image given a path that ends in [.png]. *)
Lemma normalizer_rgb_jpeg_witness :
  _ensure_jpeg_and_save Fixture.world3 "img-fig3" Fixture.path3 Fixture.state0
  = Some (Fixture.path3, save_image Fixture.state0 Fixture.path3 Fixture.file3)
  /\ _ensure_jpeg_and_save Fixture.world1 "img-f1" (Pathlib.of_str "out/scan.png")
       Fixture.state0
     = Some (Pathlib.of_str "out/scan.jpg",
             save_image Fixture.state0 (Pathlib.of_str "out/scan.jpg")
               {| sf_format := "JPEG"; sf_quality := 90;
                  sf_image := {| mode := "RGB"; pixels := "px-f1" |} |})
  /\ exists sf : saved_file,
      save_image Fixture.state0 Fixture.path3 Fixture.file3
      = save_image Fixture.state0 Fixture.path3 sf
      /\ saved (save_image Fixture.state0 Fixture.path3 Fixture.file3)
         = (saved Fixture.state0 ++ [(Fixture.path3, sf)])%list
      /\ sf_format sf = "JPEG"
      /\ sf_quality sf = 90%Z
      /\ (exists im,
             image_open Fixture.world3 "img-fig3" = Some im
             /\ sf_image sf = {| mode := "RGB"; pixels := pixels im |})
      /\ decoded_mode sf = "RGB"
      /\ channels (decoded_mode sf) = 3
      /\ Str.lower (Pathlib.suffix Fixture.path3) = ".jpg"
      /\ (Str.lower (Pathlib.suffix Fixture.path3) <> ".jpg"
          -> Pathlib.suffix Fixture.path3 = ".jpg")
      /\ (Str.lower (Pathlib.suffix Fixture.path3) = ".jpg" -> Fixture.path3 = Fixture.path3)
      /\ (forall dir _pmc fig_id,
             Fixture.path3 = Pathlib.join dir (img_rel_of _pmc fig_id) ->
             Pathlib.suffix Fixture.path3 = ".jpg").
Proof.
  split; [vm_compute; reflexivity|]. split; [vm_compute; reflexivity|].
  apply (normalizer_rgb_jpeg Fixture.world3 "img-fig3" Fixture.path3 Fixture.state0).
  vm_compute; reflexivity.
Defined.

(** The helper on its own, given a path that ends in [.JPG]: no caller
    builds such a path; the comparison is on the lowercased extension,
    so the path is kept. *)
Example normalizer_keeps_uppercase_extension :
  _ensure_jpeg_and_save Fixture.world3 "img-fig3" (Pathlib.of_str "out/x.JPG") Fixture.state0
  = Some (Pathlib.of_str "out/x.JPG",
          save_image Fixture.state0 (Pathlib.of_str "out/x.JPG") Fixture.file3)
  /\ Pathlib.suffix (Pathlib.of_str "out/x.JPG") = ".JPG"
  /\ String.eqb (Pathlib.suffix (Pathlib.of_str "out/x.JPG")) ".jpg" = false.
Proof. repeat split; vm_compute; reflexivity. Qed.

(** ** The caption loop as the execution of plans *)

(** Case analysis on the scrutinee of the first [match] of the goal. *)
Ltac break_match :=
  match goal with
  | |- context [match ?x with _ => _ end] =>
      lazymatch x with
      | context [match _ with _ => _ end] => fail
      | _ => destruct x eqn:?
      end
  end.

Section Plans.

Variables (cfg : config) (w : world).

Lemma process_fig_exec idx _pmid _pmc st wrote_any f :
  process_fig cfg w idx _pmid _pmc st wrote_any f
  = exec_plan (resume cfg) (fig_plan cfg w idx _pmid _pmc f) st wrote_any.
Proof.
  unfold process_fig, fig_plan.
  destruct (get_ref (f_graphic_ref f)) as [graphic_ref|]; [|reflexivity].
  destruct (negb _); [reflexivity|].
  destruct (find_member idx graphic_ref) as [member|]; [|reflexivity].
  rewrite ensure_jpeg_normalized.
  destruct (normalized w _ _) as [[p sf]|].
  - destruct (Pathlib.relative_to p (images_out_dir cfg)); reflexivity.
  - simpl. now destruct (resume cfg && _).
Qed.

Lemma fig_loop_exec idx _pmid _pmc figs : forall st wrote_any,
  fig_loop cfg w idx _pmid _pmc figs st wrote_any
  = exec_plans (resume cfg) (List.map (fig_plan cfg w idx _pmid _pmc) figs) st wrote_any.
Proof.
  induction figs as [|f figs IH]; intros st wrote_any; simpl; [reflexivity|].
  rewrite process_fig_exec.
  destruct (exec_plan _ _ st wrote_any); [apply IH | reflexivity].
Qed.

Lemma truthy_pair_id (_pmid fig_id : string) : Str.truthy (pair_id_of _pmid fig_id) = true.
Proof. unfold pair_id_of. destruct _pmid; reflexivity. Qed.

Lemma line_pid_record (image caption pmid pmcid pair_id : string) :
  Str.truthy pair_id = true ->
  line_pid (record_line image caption pmid pmcid pair_id) = Some (KStr pair_id).
Proof. intros H. unfold record_line, line_pid. simpl. now rewrite H. Qed.

(** The shape of a plan that writes: the record carries the identifiers
    of the entry and the pair id built from them and the caption's id. *)
Lemma fig_plan_write idx _pmid _pmc f pid p sf line :
  fig_plan cfg w idx _pmid _pmc f = PWrite pid p sf line ->
  pid = pair_id_of _pmid (get_str (f_fig_id f))
  /\ exists image caption, line = record_line image caption _pmid _pmc pid.
Proof.
  unfold fig_plan.
  destruct (get_ref (f_graphic_ref f)) as [graphic_ref|]; [|discriminate].
  destruct (negb _); [discriminate|].
  destruct (find_member idx graphic_ref) as [member|]; [|discriminate].
  destruct (normalized w _ _) as [[q sf']|]; [|discriminate].
  destruct (Pathlib.relative_to q (images_out_dir cfg)) as [rel|]; [|discriminate].
  intros H. injection H as <- <- <- <-. eauto.
Qed.

Lemma fig_plan_pid idx _pmid _pmc f pid :
  plan_pid (fig_plan cfg w idx _pmid _pmc f) = Some pid ->
  pid = pair_id_of _pmid (get_str (f_fig_id f)).
Proof.
  unfold fig_plan.
  destruct (get_ref (f_graphic_ref f)) as [graphic_ref|]; [|discriminate].
  destruct (negb _); [discriminate|].
  destruct (find_member idx graphic_ref) as [member|]; [|discriminate].
  destruct (normalized w _ _) as [[q sf']|]; [|discriminate].
  destruct (Pathlib.relative_to q (images_out_dir cfg)) as [rel|];
    simpl; intros H; now injection H as <-.
Qed.

Lemma fig_plan_wf idx _pmid _pmc f : plan_wf (fig_plan cfg w idx _pmid _pmc f).
Proof.
  destruct (fig_plan cfg w idx _pmid _pmc f) as [|pid p sf line|] eqn:E; simpl; auto.
  destruct (fig_plan_write _ _ _ _ _ _ _ _ E) as (-> & image & caption & ->).
  apply line_pid_record, truthy_pair_id.
Qed.

(** [open_entry] reads the state only to append the requests it sends. *)
Lemma open_entry_pure st ent :
  open_entry cfg w st ent
  = (opened cfg w ent, with_reqs st (reqs st ++ sent cfg w ent)).
Proof.
  unfold opened, sent, open_entry, size_guard, download, _try_download_with_fallback.
  repeat break_match;
    unfold with_reqs, log_req; simpl; rewrite <- ?app_assoc, ?app_nil_r; reflexivity.
Qed.

Lemma process_entry_exec st ent :
  process_entry cfg w st ent
  = exec_entry (resume cfg) (sent cfg w ent) (entry_plans cfg w ent) st.
Proof.
  unfold process_entry, exec_entry, entry_plans. rewrite open_entry_pure.
  destruct (opened cfg w ent) as [o|[[members fig0] figs]]; [reflexivity|].
  rewrite fig_loop_exec. reflexivity.
Qed.

Lemma entry_plans_wf ent pls :
  entry_plans cfg w ent = inr pls -> Forall plan_wf pls.
Proof.
  unfold entry_plans.
  destruct (opened cfg w ent) as [o|[[members fig0] figs]]; [discriminate|].
  intros H. injection H as <-.
  pose proof (fig_plan_wf (img_index members) (entry_pmid ent fig0) (entry_pmc ent fig0))
    as Hwf.
  assert (forall l : list fig,
             Forall plan_wf
               (List.map (fig_plan cfg w (img_index members) (entry_pmid ent fig0)
                            (entry_pmc ent fig0)) l)) as HF.
  { intros l. induction l as [|f l IH]; simpl; constructor; [apply Hwf | exact IH]. }
  apply (HF (fig0 :: figs)).
Qed.

End Plans.

(** ** Invariants of the loops *)

Section Invariant.

(** A property of the state that every effect of the loops preserves is
    preserved by the caption loop, by an entry and by a run. *)
Variable resume_flag : bool.
Variable I : state -> Prop.

Hypothesis I_write : forall st pid p sf line,
  I st -> known resume_flag pid st = false -> line_pid line = Some (KStr pid) ->
  I (write_record (save_image st p sf) line pid).
Hypothesis I_save : forall st pid p sf,
  I st -> known resume_flag pid st = false -> I (save_image st p sf).
Hypothesis I_skip : forall st, I st -> I (skip st).
Hypothesis I_reqs : forall st r, I st -> I (with_reqs st r).

Lemma exec_plan_inv pl st wrote_any :
  plan_wf pl -> I st -> I (step_state (exec_plan resume_flag pl st wrote_any)).
Proof.
  intros Hwf HI. destruct pl as [|pid p sf line|pid p sf e]; simpl.
  - exact HI.
  - destruct (known resume_flag pid st) eqn:Hk; simpl; [exact HI|].
    now apply I_write.
  - destruct (known resume_flag pid st) eqn:Hk; simpl; [exact HI|].
    now apply I_save with pid.
Qed.

Lemma exec_plans_inv pls : forall st wrote_any,
  Forall plan_wf pls -> I st -> I (step_state (exec_plans resume_flag pls st wrote_any)).
Proof.
  induction pls as [|pl pls IH]; intros st wrote_any Hwf HI; simpl; [exact HI|].
  apply Forall_cons in Hwf as [Hpl Hpls].
  pose proof (exec_plan_inv pl st wrote_any Hpl HI) as Hstep.
  destruct (exec_plan resume_flag pl st wrote_any) as [st' wa'|st' e]; simpl in Hstep |- *.
  - now apply IH.
  - exact Hstep.
Qed.

Lemma exec_entry_inv new_reqs ep st :
  (forall pls, ep = inr pls -> Forall plan_wf pls) ->
  I st -> I (fst (exec_entry resume_flag new_reqs ep st)).
Proof.
  intros Hwf HI. unfold exec_entry. destruct ep as [o|pls]; simpl.
  - apply I_skip. apply I_reqs. exact HI.
  - pose proof (exec_plans_inv pls (with_reqs st (reqs st ++ new_reqs)) false
                  (Hwf pls eq_refl) (I_reqs _ _ HI)) as H.
    destruct (exec_plans resume_flag pls (with_reqs st (reqs st ++ new_reqs)) false)
      as [st2 [|]|st2 e]; simpl in H |- *; auto.
Qed.

Lemma process_entry_inv cfg w st ent :
  resume cfg = resume_flag -> I st -> I (fst (process_entry cfg w st ent)).
Proof.
  intros Hr HI. rewrite process_entry_exec, Hr.
  apply exec_entry_inv; [apply entry_plans_wf | exact HI].
Qed.

Lemma process_entries_inv cfg w entries : forall st,
  resume cfg = resume_flag -> I st -> I (fst (process_entries cfg w entries st)).
Proof.
  induction entries as [|ent rest IH]; intros st Hr HI; simpl; [exact HI|].
  pose proof (process_entry_inv cfg w st ent Hr HI) as H1.
  destruct (process_entry cfg w st ent) as [st1 o]. simpl in H1.
  specialize (IH st1 Hr H1).
  destruct (process_entries cfg w rest st1) as [st2 os]. exact IH.
Qed.

End Invariant.

Section DedupIndex.

Lemma load_existing_pairs_collected (file : list jline) (k : pykey) :
  k ∈ load_existing_pairs true file <-> k ∈ collected file.
Proof.
  unfold load_existing_pairs, collected.
  assert (forall (s : gset pykey),
             k ∈ fold_left (fun s l => match line_pid l with
                                       | Some k => {[k]} ∪ s
                                       | None => s
                                       end) file s
             <-> k ∈ s \/ k ∈ omap line_pid file) as H.
  { induction file as [|l file IH]; intros s; simpl.
    - rewrite elem_of_nil. tauto.
    - rewrite IH. destruct (line_pid l) as [k'|].
      + rewrite elem_of_cons, elem_of_union, elem_of_singleton. tauto.
      + tauto. }
  rewrite H. split; [intros [H0|H0]|auto].
  - now apply not_elem_of_empty in H0.
  - exact H0.
Qed.

Lemma collected_snoc (file : list jline) (line : jline) (pid : string) :
  line_pid line = Some (KStr pid) ->
  collected (file ++ [line]) = (collected file ++ [KStr pid])%list.
Proof.
  intros H. unfold collected. rewrite omap_app. simpl. now rewrite H.
Qed.

Lemma known_false_not_in (pid : string) (st : state) :
  known true pid st = false -> KStr pid ∉ existing_pairs st.
Proof.
  unfold known. simpl. intros H. now apply bool_decide_eq_false in H.
Qed.

Lemma known_true_in (r : bool) (pid : string) (st : state) :
  known r pid st = true -> r = true /\ KStr pid ∈ existing_pairs st.
Proof.
  unfold known. intros H. apply andb_true_iff in H as [-> H].
  split; [reflexivity|]. now apply bool_decide_eq_true in H.
Qed.

(** With resume on, a write keeps the dedup set equal to the pair ids of
    the file and keeps those ids pairwise distinct. *)
Lemma index_matches_file_write st pid p sf line :
  index_matches_file st -> known true pid st = false ->
  line_pid line = Some (KStr pid) ->
  index_matches_file (write_record (save_image st p sf) line pid).
Proof.
  intros [Heq Hnd] Hk Hline. apply known_false_not_in in Hk.
  unfold index_matches_file. simpl. rewrite (collected_snoc _ _ _ Hline). split.
  - intros k. rewrite elem_of_union, elem_of_singleton, elem_of_app,
      list_elem_of_singleton, Heq. tauto.
  - apply NoDup_app. split; [exact Hnd|]. split; [|apply NoDup_singleton].
    intros k Hin Hk'. apply list_elem_of_singleton in Hk'. subst k.
    apply Hk, Heq, Hin.
Qed.

Lemma all_records_write file line pid :
  all_records file -> line_pid line = Some (KStr pid) -> all_records (file ++ [line]).
Proof.
  intros H Hl. apply Forall_app. split; [exact H|]. repeat constructor. eauto.
Qed.

Lemma initial_index_matches_file cfg file :
  resume cfg = true -> NoDup (collected file) ->
  index_matches_file (initial_state cfg file).
Proof.
  intros Hr Hnd. unfold index_matches_file, initial_state. simpl. rewrite Hr.
  split; [intros k; apply load_existing_pairs_collected | exact Hnd].
Qed.

(** A run with resume on keeps the pair ids of the file pairwise
    distinct and the dedup set equal to them. *)
Lemma run_index_matches_file cfg w manifest file :
  resume cfg = true -> NoDup (collected file) ->
  index_matches_file (run_state cfg w manifest file).
Proof.
  intros Hr Hnd. unfold run_state, build_pubmed_image_caption_dataset_streaming.
  apply (process_entries_inv true index_matches_file); auto.
  - intros. now apply index_matches_file_write.
  - apply initial_index_matches_file; assumption.
Qed.

Lemma run_all_records cfg w manifest file :
  all_records file -> all_records (jsonl (run_state cfg w manifest file)).
Proof.
  intros H. unfold run_state, build_pubmed_image_caption_dataset_streaming.
  apply (process_entries_inv (resume cfg) (fun st => all_records (jsonl st))); auto.
  intros. now apply all_records_write with pid.
Qed.

End DedupIndex.

(** ** The dedup index and the output file *)

Section AppendOnly.

Variables (cfg : config) (w : world).

(** The output file only grows. *)
Lemma process_entries_extends entries st :
  exists new, jsonl (fst (process_entries cfg w entries st)) = (jsonl st ++ new)%list.
Proof.
  apply (process_entries_inv (resume cfg)
           (fun st' => exists new, jsonl st' = (jsonl st ++ new)%list)); auto.
  - intros st' pid p sf line [new Hn] _ _. exists (new ++ [line])%list.
    simpl. now rewrite Hn, <- app_assoc.
  - exists []. now rewrite app_nil_r.
Qed.

Lemma run_extends manifest file :
  exists new, jsonl (run_state cfg w manifest file) = (file ++ new)%list.
Proof. apply process_entries_extends. Qed.

Lemma run_appended manifest file :
  jsonl (run_state cfg w manifest file) = (file ++ appended cfg w manifest file)%list.
Proof.
  unfold appended. destruct (run_extends manifest file) as [new Hn].
  rewrite Hn. now rewrite drop_app_length.
Qed.

(** A run on a file whose last line is complete: the records follow the
    lines that were there. *)
Lemma run_on_complete manifest (complete : list jline) :
  resume cfg = true ->
  run_on cfg w manifest (Lines complete None)
  = Some (run_state cfg w manifest complete, run_outcomes cfg w manifest complete,
          Lines (jsonl (run_state cfg w manifest complete)) None).
Proof.
  intros Hr. unfold run_on. rewrite Hr. simpl. now rewrite run_appended.
Qed.

End AppendOnly.

Lemma successive_runs_distinct runs : forall file,
  Forall (fun r => resume (fst (fst r)) = true) runs ->
  NoDup (collected file) -> all_records file ->
  NoDup (collected (successive_runs runs file)) /\ all_records (successive_runs runs file).
Proof.
  induction runs as [|[[cfg w] manifest] runs IH]; intros file Hr Hnd Hall; simpl.
  - auto.
  - apply Forall_cons in Hr as [Hcfg Hr]. simpl in Hcfg.
    apply IH; [exact Hr | | now apply run_all_records].
    now apply run_index_matches_file.
Qed.

(** C1, as the code has it. For a caption that got as far as a record:
    with resume on and its pair id in the dedup set nothing is written;
    with resume off, or with the pair id not in the set, exactly one line
    is appended and the pair id is added to the set. Hence a run with
    resume on keeps the pair ids of the file pairwise distinct, and so
    does any sequence of runs with resume on that starts from no file. *)
Theorem dedup_append_once_under_resume :
  (forall cfg w idx _pmid _pmc st wrote_any f,
      resume cfg = true ->
      KStr (pair_id_of _pmid (get_str (f_fig_id f))) ∈ existing_pairs st ->
      process_fig cfg w idx _pmid _pmc st wrote_any f = Continue st wrote_any)
  /\ (forall cfg w idx _pmid _pmc st wrote_any f pid p sf line,
         fig_plan cfg w idx _pmid _pmc f = PWrite pid p sf line ->
         resume cfg = false \/ KStr pid ∉ existing_pairs st ->
         exists st',
           process_fig cfg w idx _pmid _pmc st wrote_any f = Continue st' true
           /\ jsonl st' = (jsonl st ++ [line])%list
           /\ line_pid line = Some (KStr pid)
           /\ existing_pairs st' = {[KStr pid]} ∪ existing_pairs st
           /\ n_written st' = S (n_written st))
  /\ (forall cfg w manifest file,
         resume cfg = true -> NoDup (collected file) ->
         NoDup (collected (jsonl (run_state cfg w manifest file)))
         /\ forall k, k ∈ collected (appended cfg w manifest file) -> k ∉ collected file)
  /\ (forall runs,
         Forall (fun r => resume (fst (fst r)) = true) runs ->
         NoDup (collected (successive_runs runs []))
         /\ all_records (successive_runs runs [])).
Proof.
  split; [|split; [|split]].
  - intros cfg w idx _pmid _pmc st wrote_any f Hr Hin.
    rewrite process_fig_exec.
    destruct (fig_plan cfg w idx _pmid _pmc f) as [|pid p sf line|pid p sf e] eqn:E;
      simpl; [reflexivity| |];
      (assert (pid = pair_id_of _pmid (get_str (f_fig_id f))) as ->
          by (apply (fig_plan_pid cfg w idx _pmid _pmc f); now rewrite E));
      unfold known; rewrite Hr, bool_decide_eq_true_2 by exact Hin; reflexivity.
  - intros cfg w idx _pmid _pmc st wrote_any f pid p sf line E Hnew.
    exists (write_record (save_image st p sf) line pid).
    rewrite process_fig_exec, E. simpl.
    assert (known (resume cfg) pid st = false) as ->.
    { unfold known. destruct Hnew as [-> | Hnin]; [reflexivity|].
      rewrite bool_decide_eq_false_2 by exact Hnin. apply andb_false_r. }
    repeat split.
    pose proof (fig_plan_wf cfg w idx _pmid _pmc f) as Hwf. now rewrite E in Hwf.
  - intros cfg w manifest file Hr Hnd.
    destruct (run_index_matches_file cfg w manifest file Hr Hnd) as [_ Hnd'].
    split; [exact Hnd'|].
    rewrite run_appended in Hnd'. unfold collected in Hnd'. rewrite omap_app in Hnd'.
    apply NoDup_app in Hnd' as (_ & Hdisj & _).
    intros k Hk Hfile. exact (Hdisj k Hfile Hk).
  - intros runs Hr. apply successive_runs_distinct; [exact Hr | constructor | constructor].
Qed.

(** Two runs of the end-to-end scenario with resume on. *)
Lemma dedup_append_once_under_resume_witness :
  Forall (fun r : config * world * list string => resume (fst (fst r)) = true)
    [(Fixture.cfg0, Fixture.world1, Fixture.manifest1);
     (Fixture.cfg0, Fixture.world1, Fixture.manifest1)]
  /\ NoDup (collected (successive_runs
                         [(Fixture.cfg0, Fixture.world1, Fixture.manifest1);
                          (Fixture.cfg0, Fixture.world1, Fixture.manifest1)] []))
  /\ successive_runs
       [(Fixture.cfg0, Fixture.world1, Fixture.manifest1);
        (Fixture.cfg0, Fixture.world1, Fixture.manifest1)] []
     = [Fixture.line1].
Proof.
  split; [repeat constructor|]. split.
  - apply (proj2 (proj2 (proj2 dedup_append_once_under_resume))).
    repeat constructor.
  - vm_compute; reflexivity.
Defined.

(** C1 as stated fails: with resume off, a second run of the end-to-end
    scenario against the file of the first appends the same record again,
    so two lines of the file carry the pair id [1001_1]. *)
Lemma resume_off_appends_duplicate :
  resume Fixture.cfg_noresume = false
  /\ successive_runs
       [(Fixture.cfg_noresume, Fixture.world1, Fixture.manifest1);
        (Fixture.cfg_noresume, Fixture.world1, Fixture.manifest1)] []
     = [Fixture.line1; Fixture.line1]
  /\ collected [Fixture.line1; Fixture.line1] = [KStr "1001_1"; KStr "1001_1"].
Proof. repeat split; vm_compute; reflexivity. Qed.

(** ** The counters *)

Section Counters.

Variable resume_flag : bool.

(** The caption loop never touches [n_skipped]; it adds to [n_written]
    one for every line it appends, and leaves the loop with
    [wrote_any] set exactly when it was set before or a line was
    appended. *)
Lemma exec_plans_counts pls : forall st wrote_any,
  exists new,
    jsonl (step_state (exec_plans resume_flag pls st wrote_any)) = (jsonl st ++ new)%list
    /\ n_written (step_state (exec_plans resume_flag pls st wrote_any))
       = (n_written st + List.length new)%nat
    /\ n_skipped (step_state (exec_plans resume_flag pls st wrote_any)) = n_skipped st
    /\ forall st' wrote_any',
         exec_plans resume_flag pls st wrote_any = Continue st' wrote_any' ->
         wrote_any' = wrote_any || negb (Nat.eqb (List.length new) 0).
Proof.
  induction pls as [|pl pls IH]; intros st wrote_any; simpl.
  - exists []. rewrite app_nil_r.
    split; [reflexivity|]. split; [simpl; lia|]. split; [reflexivity|].
    intros st' wa' [= <- <-]. simpl. now rewrite orb_false_r.
  - destruct pl as [|pid p sf line|pid p sf e]; simpl.
    + apply IH.
    + destruct (known resume_flag pid st); [apply IH|].
      destruct (IH (write_record (save_image st p sf) line pid) true)
        as (new & Hj & Hw & Hs & Hwa).
      exists (line :: new). simpl in Hj, Hw, Hs.
      rewrite Hj, Hw, Hs, <- app_assoc.
      split; [reflexivity|]. split; [simpl; lia|]. split; [reflexivity|].
      intros st' wa' Hc. rewrite (Hwa _ _ Hc). simpl. now rewrite orb_true_r.
    + destruct (known resume_flag pid st); [apply IH|].
      exists []. simpl. rewrite app_nil_r.
      split; [reflexivity|]. split; [lia|]. split; [reflexivity|]. discriminate.
Qed.

Lemma exec_entry_counts new_reqs ep st :
  (forall o, ep = inl o -> counted_skipped o = true) ->
  exists new,
    jsonl (fst (exec_entry resume_flag new_reqs ep st)) = (jsonl st ++ new)%list
    /\ n_written (fst (exec_entry resume_flag new_reqs ep st))
       = (n_written st + List.length new)%nat
    /\ n_skipped (fst (exec_entry resume_flag new_reqs ep st))
       = (n_skipped st
          + if counted_skipped (snd (exec_entry resume_flag new_reqs ep st)) then 1 else 0)%nat
    /\ (counted_skipped (snd (exec_entry resume_flag new_reqs ep st)) = false -> new <> []).
Proof.
  intros Hgiven. unfold exec_entry. destruct ep as [o|pls].
  - exists []. simpl. rewrite app_nil_r, (Hgiven o eq_refl).
    split; [reflexivity|]. split; [lia|]. split; [lia|]. discriminate.
  - destruct (exec_plans_counts pls (with_reqs st (reqs st ++ new_reqs)) false)
      as (new & Hj & Hw & Hs & Hwa).
    exists new.
    destruct (exec_plans resume_flag pls (with_reqs st (reqs st ++ new_reqs)) false)
      as [st2 wa|st2 e]; simpl in Hj, Hw, Hs |- *.
    + specialize (Hwa st2 wa eq_refl). simpl in Hwa.
      destruct wa; simpl; rewrite ?Hj, ?Hw, ?Hs.
      * split; [reflexivity|]. split; [reflexivity|]. split; [lia|].
        intros _ ->. discriminate.
      * split; [reflexivity|]. split; [reflexivity|]. split; [lia|]. discriminate.
    + rewrite Hj, Hw, Hs.
      split; [reflexivity|]. split; [reflexivity|]. split; [lia|]. discriminate.
Qed.

End Counters.

Section RunCounters.

Variables (cfg : config) (w : world).

(** An entry given up before its captions is never a finished one. *)
Lemma opened_given_up ent o :
  opened cfg w ent = inl o -> counted_skipped o = true.
Proof.
  unfold opened, open_entry.
  repeat break_match; simpl; intros H; try discriminate; now injection H as <-.
Qed.

Lemma entry_plans_given_up ent o :
  entry_plans cfg w ent = inl o -> counted_skipped o = true.
Proof.
  unfold entry_plans.
  destruct (opened cfg w ent) as [o'|[[members fig0] figs]] eqn:E; [|discriminate].
  intros H. injection H as <-. now apply (opened_given_up ent).
Qed.

Lemma process_entry_counts st ent :
  exists new,
    jsonl (fst (process_entry cfg w st ent)) = (jsonl st ++ new)%list
    /\ n_written (fst (process_entry cfg w st ent)) = (n_written st + List.length new)%nat
    /\ n_skipped (fst (process_entry cfg w st ent))
       = (n_skipped st
          + if counted_skipped (snd (process_entry cfg w st ent)) then 1 else 0)%nat
    /\ (counted_skipped (snd (process_entry cfg w st ent)) = false -> new <> []).
Proof.
  rewrite process_entry_exec. apply exec_entry_counts.
  intros o. apply entry_plans_given_up.
Qed.

Lemma process_entries_counts entries : forall st,
  exists new,
    jsonl (fst (process_entries cfg w entries st)) = (jsonl st ++ new)%list
    /\ n_written (fst (process_entries cfg w entries st))
       = (n_written st + List.length new)%nat
    /\ n_skipped (fst (process_entries cfg w entries st))
       = (n_skipped st + count_skipped (snd (process_entries cfg w entries st)))%nat
    /\ List.length (snd (process_entries cfg w entries st)) = List.length entries
    /\ (List.length entries
        <= List.length new + count_skipped (snd (process_entries cfg w entries st)))%nat.
Proof.
  induction entries as [|ent rest IH]; intros st; simpl.
  - exists []. rewrite app_nil_r. unfold count_skipped. simpl.
    repeat (split; [first [reflexivity | lia]|]). lia.
  - destruct (process_entry_counts st ent) as (new1 & Hj1 & Hw1 & Hs1 & Hne1).
    destruct (process_entry cfg w st ent) as [st1 o]. simpl in Hj1, Hw1, Hs1, Hne1.
    destruct (IH st1) as (new2 & Hj2 & Hw2 & Hs2 & Hl2 & Hle2).
    destruct (process_entries cfg w rest st1) as [st2 os].
    simpl in Hj2, Hw2, Hs2, Hl2, Hle2 |- *.
    exists (new1 ++ new2)%list. rewrite Hj2, Hj1, Hw2, Hw1, Hs2, Hs1, <- app_assoc.
    rewrite length_app. unfold count_skipped in *. simpl.
    destruct (counted_skipped o) eqn:Ho; simpl.
    + repeat (split; [first [reflexivity | lia]|]). lia.
    + specialize (Hne1 eq_refl).
      assert (0 < List.length new1)%nat by (destruct new1; [congruence | simpl; lia]).
      repeat (split; [first [reflexivity | lia]|]). lia.
Qed.

End RunCounters.

(** C2, as the code has it. The skipped counter goes up by at most one
    per attempted entry, and by exactly one for every attempted entry
    that appended no record. The written counter counts records, not
    entries: it goes up by one for every appended line. So at the end of
    a run [n_skipped] is the number of entries counted as skipped,
    [n_written] is the number of lines appended, and their sum is at
    least, and not always equal to, the number of attempted entries. *)
Theorem counters_account_for_entries :
  (forall cfg w st ent,
      (n_skipped (fst (process_entry cfg w st ent)) = n_skipped st
       \/ n_skipped (fst (process_entry cfg w st ent)) = S (n_skipped st))
      /\ (jsonl (fst (process_entry cfg w st ent)) = jsonl st ->
          n_skipped (fst (process_entry cfg w st ent)) = S (n_skipped st))
      /\ (List.length (jsonl (fst (process_entry cfg w st ent)))
          = List.length (jsonl st)
            + (n_written (fst (process_entry cfg w st ent)) - n_written st))%nat
      /\ (n_written st <= n_written (fst (process_entry cfg w st ent)))%nat)
  /\ (forall cfg w manifest file,
         List.length (run_outcomes cfg w manifest file)
         = List.length (read_entries (subset_size cfg) manifest)
         /\ n_skipped (run_state cfg w manifest file)
            = count_skipped (run_outcomes cfg w manifest file)
         /\ n_written (run_state cfg w manifest file)
            = List.length (appended cfg w manifest file)
         /\ (List.length (read_entries (subset_size cfg) manifest)
             <= n_written (run_state cfg w manifest file)
                + n_skipped (run_state cfg w manifest file))%nat).
Proof.
  split.
  - intros cfg w st ent.
    destruct (process_entry_counts cfg w st ent) as (new & Hj & Hw & Hs & Hne).
    rewrite Hj, Hw, Hs, length_app.
    destruct (counted_skipped (snd (process_entry cfg w st ent))) eqn:Ho.
    + split; [right; lia|]. split; [lia|]. split; lia.
    + specialize (Hne eq_refl). split; [left; lia|]. split; [|split; lia].
      intros Heq. exfalso. apply Hne.
      apply (f_equal (@List.length jline)) in Heq. rewrite length_app in Heq.
      destruct new; [reflexivity | simpl in Heq; lia].
  - intros cfg w manifest file.
    unfold run_outcomes, appended, run_state, build_pubmed_image_caption_dataset_streaming.
    destruct (process_entries_counts cfg w (read_entries (subset_size cfg) manifest)
                (initial_state cfg file)) as (new & Hj & Hw & Hs & Hl & Hle).
    simpl in Hj, Hw, Hs. rewrite Hj, Hw, Hs, Hl, drop_app_length.
    repeat (split; [first [reflexivity | lia]|]). lia.
Qed.

(** C2 as stated fails: a run over one entry whose two captions are both
    written ends with [n_written = 2] and [n_skipped = 0], while one
    entry was attempted. *)
Lemma written_counter_counts_records :
  List.length (read_entries (subset_size Fixture.cfg0) Fixture.manifest2) = 1%nat
  /\ n_written (run_state Fixture.cfg0 Fixture.world2 Fixture.manifest2 []) = 2%nat
  /\ n_skipped (run_state Fixture.cfg0 Fixture.world2 Fixture.manifest2 []) = 0%nat
  /\ run_outcomes Fixture.cfg0 Fixture.world2 Fixture.manifest2 [] = [Finished true].
Proof. repeat split; vm_compute; reflexivity. Qed.

(** An entry whose download fails on both endpoints: nothing is
    appended and the skipped counter goes up by one. *)
Lemma counters_account_for_entries_witness :
  jsonl (fst (process_entry Fixture.cfg0 Fixture.world3 Fixture.state0 Fixture.entry1))
  = jsonl Fixture.state0
  /\ n_skipped (fst (process_entry Fixture.cfg0 Fixture.world3 Fixture.state0
                       Fixture.entry1))
     = S (n_skipped Fixture.state0).
Proof.
  assert (jsonl (fst (process_entry Fixture.cfg0 Fixture.world3 Fixture.state0
                        Fixture.entry1))
          = jsonl Fixture.state0) as H by (vm_compute; reflexivity).
  split; [exact H|].
  exact (proj1 (proj2 (proj1 counters_account_for_entries
                         Fixture.cfg0 Fixture.world3 Fixture.state0 Fixture.entry1)) H).
Defined.

(** ** The image tree *)

Lemma of_str_plain (s : string) :
  plain s = true -> Pathlib.of_str s = {| root := ""; parts := [s] |}.
Proof.
  unfold plain. intros H. apply andb_true_iff in H as [Hns Hk].
  unfold Pathlib.of_str. rewrite (root_of_no_slash _ Hns), (split_no_slash _ Hns).
  simpl. now rewrite Hk.
Qed.

Lemma is_prefix_app (l x : list string) : Pathlib.is_prefix l (l ++ x) = true.
Proof.
  induction l as [|a l IH]; simpl; [reflexivity|].
  now rewrite String.eqb_refl, IH.
Qed.

Lemma root_of_kept (s : string) :
  Pathlib.keep_part (List.hd "" (Str.split "/" s)) = true -> Pathlib.root_of s = "".
Proof.
  destruct s as [|c s]; [reflexivity|]. unfold Pathlib.root_of. simpl.
  destruct (Ascii.eqb c "/"); [discriminate | reflexivity].
Qed.

Lemma root_of_app (s t : string) :
  s <> "" -> Pathlib.root_of s = "" -> Pathlib.root_of (s ++ t) = "".
Proof.
  destruct s as [|c s]; [congruence|]. intros _. unfold Pathlib.root_of.
  rewrite app_cons. simpl. destruct (Ascii.eqb c "/"); [|reflexivity].
  destruct (Pathlib.leading_slashes s) as [|[|n]]; discriminate.
Qed.

Lemma forallb_hd (l : list string) :
  l <> [] -> forallb Pathlib.keep_part l = true ->
  Pathlib.keep_part (List.hd "" l) = true.
Proof.
  destruct l as [|x l]; [congruence|]. simpl. intros _ H.
  now apply andb_true_iff in H as [H _].
Qed.

Section ImagePaths.

Variables (dir : Path) (_pmc fig_id : string).
Hypothesis Hkept : kept_as_written (image_text _pmc fig_id) = true.

Lemma image_text_split :
  Str.split "/" (image_text _pmc fig_id)
  = (Str.split "/" _pmc ++ Str.split "/" (image_name _pmc fig_id))%list.
Proof. unfold image_text. apply (split_sep_app "/" _pmc). Qed.

Lemma image_text_parts :
  forallb Pathlib.keep_part (Str.split "/" _pmc) = true
  /\ forallb Pathlib.keep_part (Str.split "/" (image_name _pmc fig_id)) = true
  /\ List.last (Str.split "/" (image_text _pmc fig_id)) "" <> ".jpg".
Proof.
  unfold kept_as_written in Hkept. apply andb_true_iff in Hkept as [Hall Hlast].
  rewrite image_text_split, forallb_app in Hall.
  apply andb_true_iff in Hall as [H1 H2].
  apply negb_true_iff, String.eqb_neq in Hlast. auto.
Qed.

Lemma pmc_relative : _pmc <> "" /\ Pathlib.root_of _pmc = "".
Proof.
  destruct image_text_parts as (H1 & _ & _).
  pose proof (forallb_hd _ (split_nonempty "/" _pmc) H1) as Hhd.
  split; [|now apply root_of_kept].
  intros ->. discriminate.
Qed.

(** [Path(_pmc) / f"{_pmc}_fig-{fig_id}.jpg"] is the path of the text. *)
Lemma img_rel_kept :
  img_rel_of _pmc fig_id
  = {| root := ""; parts := Str.split "/" (image_text _pmc fig_id) |}
  /\ Pathlib.of_str (image_text _pmc fig_id) = img_rel_of _pmc fig_id.
Proof.
  destruct image_text_parts as (H1 & H2 & _). destruct pmc_relative as [Hne Hroot].
  assert (img_rel_of _pmc fig_id
          = {| root := ""; parts := Str.split "/" (image_text _pmc fig_id) |}) as Hrel.
  { unfold img_rel_of. fold (image_name _pmc fig_id).
    unfold Pathlib.join, Pathlib.of_str. simpl root. simpl parts.
    unfold image_name at 1. rewrite (root_of_app _ _ Hne Hroot), Hroot. simpl.
    now rewrite (filter_all _ _ H1), (filter_all _ _ H2), image_text_split. }
  split; [exact Hrel|]. rewrite Hrel. unfold Pathlib.of_str. f_equal.
  - unfold image_text. now apply root_of_app.
  - apply filter_all. rewrite image_text_split, forallb_app, H1, H2. reflexivity.
Qed.

Lemma img_abs_kept :
  Pathlib.join dir (img_rel_of _pmc fig_id)
  = {| root := root dir;
       parts := parts dir ++ Str.split "/" (image_text _pmc fig_id) |}.
Proof. now rewrite (proj1 img_rel_kept). Qed.

Lemma img_abs_suffix :
  Pathlib.suffix (Pathlib.join dir (img_rel_of _pmc fig_id)) = ".jpg".
Proof.
  destruct image_text_parts as (_ & _ & Hlast).
  rewrite img_abs_kept. unfold Pathlib.suffix, Pathlib.name. simpl parts.
  rewrite (last_app_nonempty (parts dir) _ "") by apply split_nonempty.
  revert Hlast. unfold image_text.
  replace (_pmc ++ "/" ++ _pmc ++ "_fig-" ++ fig_id ++ ".jpg")
    with ((_pmc ++ "/" ++ _pmc ++ "_fig-" ++ fig_id) ++ ".jpg")
    by (now rewrite !app_assoc_str).
  rewrite split_app_no_slash by reflexivity. rewrite last_snoc.
  intros Hlast. apply suffix_of_jpg. intros He. apply Hlast. now rewrite He.
Qed.

Lemma img_abs_relative :
  Pathlib.relative_to (Pathlib.join dir (img_rel_of _pmc fig_id)) dir
  = Some (Pathlib.of_str (image_text _pmc fig_id)).
Proof.
  rewrite (proj2 img_rel_kept), img_abs_kept, (proj1 img_rel_kept).
  unfold Pathlib.relative_to. simpl.
  rewrite String.eqb_refl, is_prefix_app. simpl.
  now rewrite drop_app_length.
Qed.

Lemma image_text_posix :
  Pathlib.as_posix (Pathlib.of_str (image_text _pmc fig_id)) = image_text _pmc fig_id.
Proof.
  rewrite (proj2 img_rel_kept), (proj1 img_rel_kept). unfold Pathlib.as_posix. simpl.
  pose proof (split_nonempty "/" (image_text _pmc fig_id)) as Hne.
  pose proof (join_split "/" (image_text _pmc fig_id)) as Hjs.
  destruct (Str.split "/" (image_text _pmc fig_id)); [congruence | exact Hjs].
Qed.

End ImagePaths.

Section ImagePlans.

Variables (cfg : config) (w : world) (idx : list (string * TarInfo)).
Variables (_pmid _pmc : string) (f : fig).
Hypothesis Hkept : kept_as_written (image_text _pmc (get_str (f_fig_id f))) = true.

(** For identifiers that pathlib keeps as written the image of a caption
    goes to [<images_out_dir>/<pmc>/<pmc>_fig-<fig_id>.jpg], the record
    names it relative to the image directory, and [relative_to] never
    raises. *)
Lemma fig_plan_kept :
  match fig_plan cfg w idx _pmid _pmc f with
  | PNothing => True
  | PWrite pid p sf line =>
      p = Pathlib.join (images_out_dir cfg)
            (Pathlib.of_str (image_text _pmc (get_str (f_fig_id f))))
      /\ exists caption,
          line = record_line (image_text _pmc (get_str (f_fig_id f)))
                   caption _pmid _pmc pid
  | PFail _ _ _ _ => False
  end.
Proof.
  unfold fig_plan.
  destruct (get_ref (f_graphic_ref f)) as [graphic_ref|]; [|exact I].
  destruct (negb _); [exact I|].
  destruct (find_member idx graphic_ref) as [member|]; [|exact I].
  destruct (normalized w _ _) as [[p sf]|] eqn:Hn; [|exact I].
  destruct (normalized_path _ _ _ _ _ Hn) as [[_ ->]|[Hlow _]].
  - rewrite (img_abs_relative _ _ _ Hkept), (image_text_posix _ _ Hkept).
    split; [now rewrite (proj2 (img_rel_kept _ _ Hkept)) | eexists; reflexivity].
  - exfalso. apply Hlow. now rewrite (img_abs_suffix _ _ _ Hkept).
Qed.

End ImagePlans.

Lemma exec_plan_saved (r : bool) (pl : plan) (st : state) (wrote_any : bool)
    (p : Path) (sf : saved_file) :
  saved (step_state (exec_plan r pl st wrote_any)) = (saved st ++ [(p, sf)])%list ->
  known r (match plan_pid pl with Some pid => pid | None => "" end) st = false
  /\ ((exists pid line, pl = PWrite pid p sf line) \/ (exists pid e, pl = PFail pid p sf e)).
Proof.
  assert (forall l : list (Path * saved_file), l <> (l ++ [(p, sf)])%list) as Hlen.
  { intros l H. apply (f_equal (@List.length _)) in H. rewrite length_app in H.
    simpl in H. lia. }
  destruct pl as [|pid q sf' line|pid q sf' e]; unfold exec_plan; simpl plan_pid.
  - intros H. now apply Hlen in H.
  - destruct (known r pid st); simpl.
    + intros H. now apply Hlen in H.
    + intros H. apply app_inj_tail in H as [_ H]. injection H as -> ->. eauto 6.
  - destruct (known r pid st); simpl.
    + intros H. now apply Hlen in H.
    + intros H. apply app_inj_tail in H as [_ H]. injection H as -> ->. eauto 6.
Qed.

(** The file at a path after a save there is the file of that save,
    whatever was at the path before. *)
Lemma image_at_last (log : list (Path * saved_file)) (p : Path) (sf : saved_file) :
  image_at (log ++ [(p, sf)]) p = Some sf.
Proof.
  induction log as [|[q sf0] rest IH]; simpl.
  - destruct (decide (p = p)); [reflexivity | congruence].
  - now rewrite IH.
Qed.




(** ** The identifiers of an entry's records *)

Section EntryRecords.

Variables (cfg : config) (w : world).

(** Every line the caption loop appends is the line of one of its
    writing plans. *)
Lemma exec_plans_lines pls : forall st wrote_any,
  exists new,
    jsonl (step_state (exec_plans (resume cfg) pls st wrote_any)) = (jsonl st ++ new)%list
    /\ Forall (fun l => exists pid p sf, In (PWrite pid p sf l) pls) new.
Proof.
  induction pls as [|pl pls IH]; intros st wrote_any; simpl.
  - exists []. rewrite app_nil_r. split; [reflexivity | constructor].
  - assert (forall new : list jline,
               Forall (fun l => exists pid p sf, In (PWrite pid p sf l) pls) new ->
               Forall (fun l => exists pid p sf, pl = PWrite pid p sf l
                                                 \/ In (PWrite pid p sf l) pls) new) as Hweak.
    { intros new H. eapply Forall_impl; [exact H|].
      intros l (pid & p & sf & Hin). eauto 6. }
    destruct pl as [|pid p sf line|pid p sf e]; simpl.
    + destruct (IH st wrote_any) as (new & Hj & Hall). eauto.
    + destruct (known (resume cfg) pid st).
      * destruct (IH st wrote_any) as (new & Hj & Hall). eauto.
      * destruct (IH (write_record (save_image st p sf) line pid) true)
          as (new & Hj & Hall).
        exists (line :: new). simpl in Hj. rewrite Hj, <- app_assoc.
        split; [reflexivity|]. constructor; [eauto 6 | auto].
    + destruct (known (resume cfg) pid st).
      * destruct (IH st wrote_any) as (new & Hj & Hall). eauto.
      * exists []. simpl. rewrite app_nil_r. split; [reflexivity | constructor].
Qed.

Lemma open_entry_first_caption st ent members fig0 figs st1 :
  open_entry cfg w st ent = (inr (members, fig0, figs), st1) ->
  exists nxml,
    List.hd_error (_members_by_ext members [".nxml"]) = Some nxml
    /\ parse_pubmed_caption w (_extract_member_to_bytes nxml) = Ok (fig0 :: figs).
Proof.
  unfold open_entry.
  repeat break_match; intros H; try discriminate.
  injection H as <- <- <- <-. eexists. split; [|eassumption].
  unfold hd_error. now rewrite Heql.
Qed.

End EntryRecords.

Lemma get_or_first_or_manifest (v : pyval) (manifest_value : string) :
  get_or v manifest_value = first_or_manifest v manifest_value.
Proof.
  destruct v as [| |s]; try reflexivity. unfold get_or, first_or_manifest, Str.truthy.
  now destruct (String.eqb s "").
Qed.

Lemma record_line_fields (image caption pmid pmcid pair_id : string) :
  record_field (record_line image caption pmid pmcid pair_id) "image" = Some image
  /\ record_field (record_line image caption pmid pmcid pair_id) "caption" = Some caption
  /\ record_field (record_line image caption pmid pmcid pair_id) "pmid" = Some pmid
  /\ record_field (record_line image caption pmid pmcid pair_id) "pmcid" = Some pmcid
  /\ record_field (record_line image caption pmid pmcid pair_id) "pair_id" = Some pair_id.
Proof. repeat split. Qed.

(** C10. Every record written for an entry holds, under [pmid] and
    [pmcid], the [pmid] and the [pmc] of the first caption the parser
    returned for the archive, and the manifest's value where that caption
    has none, [None] or the empty text; under [pair_id] it holds that one
    [pmid], an underscore and the figure id of the caption the record is
    for. The [pmid] and [pmc] of the later captions are never read. *)
Theorem records_carry_first_caption_ids :
  forall cfg w st ent members fig0 figs st1,
    open_entry cfg w st ent = (inr (members, fig0, figs), st1) ->
    (exists nxml,
        List.hd_error (_members_by_ext members [".nxml"]) = Some nxml
        /\ parse_pubmed_caption w (_extract_member_to_bytes nxml) = Ok (fig0 :: figs))
    /\ exists pmid pmcid : string,
        match f_pmid fig0 with
        | Missing | PNone => pmid = e_pmid ent
        | PStr s => if String.eqb s "" then pmid = e_pmid ent else pmid = s
        end
        /\ match f_pmc fig0 with
           | Missing | PNone => pmcid = e_pmcid ent
           | PStr s => if String.eqb s "" then pmcid = e_pmcid ent else pmcid = s
           end
        /\ exists new,
            jsonl (fst (process_entry cfg w st ent)) = (jsonl st ++ new)%list
            /\ Forall (fun l =>
                         record_field l "pmid" = Some pmid
                         /\ record_field l "pmcid" = Some pmcid
                         /\ exists f,
                             In f (fig0 :: figs)
                             /\ record_field l "pair_id"
                                = Some (pmid ++ "_" ++ get_str (f_fig_id f)))
                 new.
Proof.
  intros cfg w st ent members fig0 figs st1 Hopen.
  split; [exact (open_entry_first_caption cfg w st ent members fig0 figs st1 Hopen)|].
  exists (entry_pmid ent fig0), (entry_pmc ent fig0).
  split; [|split].
  - unfold entry_pmid. rewrite get_or_first_or_manifest.
    destruct (f_pmid fig0) as [| |s]; try reflexivity. simpl.
    destruct (String.eqb s ""); reflexivity.
  - unfold entry_pmc. rewrite get_or_first_or_manifest.
    destruct (f_pmc fig0) as [| |s]; try reflexivity. simpl.
    destruct (String.eqb s ""); reflexivity.
  - rewrite process_entry_exec. unfold exec_entry, entry_plans.
    rewrite open_entry_pure in Hopen. injection Hopen as Hop _. rewrite Hop.
    destruct (exec_plans_lines cfg
                (List.map (fig_plan cfg w (img_index members) (entry_pmid ent fig0)
                             (entry_pmc ent fig0)) (fig0 :: figs))
                (with_reqs st (reqs st ++ sent cfg w ent)) false) as (new & Hj & Hall).
    exists new. split.
    + destruct (exec_plans _ _ _ _) as [st2 [|]|st2 e]; exact Hj.
    + eapply Forall_impl; [exact Hall|].
      intros l (pid & p & sf & Hin). apply in_map_iff in Hin as (f & Hplan & Hf).
      destruct (fig_plan_write _ _ _ _ _ _ _ _ _ _ Hplan) as (-> & image & caption & ->).
      destruct (record_line_fields image caption (entry_pmid ent fig0)
                  (entry_pmc ent fig0)
                  (pair_id_of (entry_pmid ent fig0) (get_str (f_fig_id f))))
        as (_ & _ & H1 & H2 & H3).
      split; [exact H1|]. split; [exact H2|]. exists f. split; [exact Hf | exact H3].
Qed.

(** An archive whose first caption has an empty [pmid] and [None] for its
    [pmc], and whose second caption names another article: both records
    carry the identifiers of the manifest. *)
Lemma records_carry_first_caption_ids_witness :
  open_entry Fixture.cfg0 Sample.world6 Fixture.state0 Fixture.entry5
  = (inr (Fixture.members5, Sample.caption6a, [Fixture.caption5b]),
     log_req Fixture.state0 (Get (PRIMARY_BASE ++ "00/05/PMC5.tar.gz")))
  /\ jsonl (fst (process_entry Fixture.cfg0 Sample.world6 Fixture.state0 Fixture.entry5))
     = [record_line "PMC5/PMC5_fig-F1.jpg" "First." "5005" "PMC5" "5005_F1";
        record_line "PMC5/PMC5_fig-F2.jpg" "Second." "5005" "PMC5" "5005_F2"]
  /\ jsonl (fst (process_entry Fixture.cfg0 Fixture.world5 Fixture.state0 Fixture.entry5))
     = [record_line "PMC111/PMC111_fig-F1.jpg" "First." "111" "PMC111" "111_F1";
        record_line "PMC111/PMC111_fig-F2.jpg" "Second." "111" "PMC111" "111_F2"]
  /\ exists pmid pmcid : string,
      match f_pmid Sample.caption6a with
      | Missing | PNone => pmid = e_pmid Fixture.entry5
      | PStr s => if String.eqb s "" then pmid = e_pmid Fixture.entry5 else pmid = s
      end
      /\ match f_pmc Sample.caption6a with
         | Missing | PNone => pmcid = e_pmcid Fixture.entry5
         | PStr s => if String.eqb s "" then pmcid = e_pmcid Fixture.entry5 else pmcid = s
         end
      /\ exists new,
          jsonl (fst (process_entry Fixture.cfg0 Sample.world6 Fixture.state0
                        Fixture.entry5))
          = (jsonl Fixture.state0 ++ new)%list
          /\ Forall (fun l =>
                       record_field l "pmid" = Some pmid
                       /\ record_field l "pmcid" = Some pmcid
                       /\ exists f,
                           In f [Sample.caption6a; Fixture.caption5b]
                           /\ record_field l "pair_id"
                              = Some (pmid ++ "_" ++ get_str (f_fig_id f)))
               new.
Proof.
  assert (open_entry Fixture.cfg0 Sample.world6 Fixture.state0 Fixture.entry5
          = (inr (Fixture.members5, Sample.caption6a, [Fixture.caption5b]),
             log_req Fixture.state0 (Get (PRIMARY_BASE ++ "00/05/PMC5.tar.gz")))) as Hopen
    by (vm_compute; reflexivity).
  split; [exact Hopen|]. split; [vm_compute; reflexivity|].
  split; [vm_compute; reflexivity|].
  exact (proj2 (records_carry_first_caption_ids Fixture.cfg0 Sample.world6 Fixture.state0
                  Fixture.entry5 _ _ _ _ Hopen)).
Defined.

(** ** The requests a run sends *)

Section Requests.

Variable resume_flag : bool.

(** The caption loop sends nothing, and does the same whatever was sent
    before it. *)
Lemma exec_plans_with_reqs pls : forall st wrote_any r,
  exec_plans resume_flag pls (with_reqs st r) wrote_any
  = match exec_plans resume_flag pls st wrote_any with
    | Continue st' wa' => Continue (with_reqs st' r) wa'
    | Abort st' e => Abort (with_reqs st' r) e
    end.
Proof.
  induction pls as [|pl pls IH]; intros st wrote_any r; simpl; [reflexivity|].
  destruct pl as [|pid p sf line|pid p sf e]; simpl.
  - apply IH.
  - change (known resume_flag pid (with_reqs st r)) with (known resume_flag pid st).
    destruct (known resume_flag pid st); [apply IH|].
    apply (IH (write_record (save_image st p sf) line pid) true r).
  - change (known resume_flag pid (with_reqs st r)) with (known resume_flag pid st).
    destruct (known resume_flag pid st); [apply IH | reflexivity].
Qed.

Lemma exec_plans_reqs pls : forall st wrote_any,
  reqs (step_state (exec_plans resume_flag pls st wrote_any)) = reqs st.
Proof.
  induction pls as [|pl pls IH]; intros st wrote_any; simpl; [reflexivity|].
  destruct pl as [|pid p sf line|pid p sf e]; simpl.
  - apply IH.
  - destruct (known resume_flag pid st); [apply IH|]. now rewrite IH.
  - destruct (known resume_flag pid st); [apply IH | reflexivity].
Qed.

Lemma exec_entry_reqs new_reqs ep st :
  reqs (fst (exec_entry resume_flag new_reqs ep st)) = (reqs st ++ new_reqs)%list.
Proof.
  unfold exec_entry. destruct ep as [o|pls]; [reflexivity|].
  pose proof (exec_plans_reqs pls (with_reqs st (reqs st ++ new_reqs)) false) as H.
  destruct (exec_plans resume_flag pls (with_reqs st (reqs st ++ new_reqs)) false)
    as [st2 [|]|st2 e]; exact H.
Qed.

(** What an entry does to the state, its requests apart, does not depend
    on the requests it sends. *)
Lemma exec_entry_reqs_indep new1 new2 ep st :
  snd (exec_entry resume_flag new1 ep st) = snd (exec_entry resume_flag new2 ep st)
  /\ with_reqs (fst (exec_entry resume_flag new1 ep st)) []
     = with_reqs (fst (exec_entry resume_flag new2 ep st)) [].
Proof.
  unfold exec_entry. destruct ep as [o|pls]; [split; reflexivity|].
  rewrite !exec_plans_with_reqs.
  destruct (exec_plans resume_flag pls st false) as [st2 [|]|st2 e]; split; reflexivity.
Qed.

End Requests.

Section RunRequests.

Variables (cfg : config) (w : world).

Lemma process_entry_reqs st ent :
  reqs (fst (process_entry cfg w st ent)) = (reqs st ++ sent cfg w ent)%list.
Proof. rewrite process_entry_exec. apply exec_entry_reqs. Qed.

Lemma process_entries_reqs entries : forall st,
  reqs (fst (process_entries cfg w entries st))
  = (reqs st ++ List.concat (List.map (sent cfg w) entries))%list.
Proof.
  induction entries as [|ent rest IH]; intros st; simpl.
  - now rewrite app_nil_r.
  - pose proof (process_entry_reqs st ent) as H1.
    destruct (process_entry cfg w st ent) as [st1 o]. simpl in H1.
    specialize (IH st1).
    destruct (process_entries cfg w rest st1) as [st2 os]. simpl in IH |- *.
    now rewrite IH, H1, <- app_assoc.
Qed.

(** The requests of an entry: the size query if a ceiling is set, then,
    unless the size is over the ceiling, the download from the primary
    endpoint and, with the dual base on and the primary failing, from the
    fallback. *)
Lemma sent_shape ent :
  sent cfg w ent
  = ((match max_filesize_mb cfg with
      | Some _ => [Head (primary_url cfg ent)]
      | None => []
      end)
     ++ (if fst (size_guard cfg w (e_path ent) empty_state) then []
         else Get (primary_url cfg ent)
              :: (match use_dual_base cfg, http_get w (primary_url cfg ent) with
                  | true, Raise _ => [Get (fallback_url cfg ent)]
                  | _, _ => []
                  end)))%list.
Proof.
  unfold sent, open_entry, size_guard, download, _try_download_with_fallback,
    _stream_download, primary_url, fallback_url.
  repeat break_match; simpl in *; try reflexivity; congruence.
Qed.

End RunRequests.

(** ** The size guard *)

Section SizeGuard.

Variables (cfg : config) (w : world).

Lemma fig_loop_no_ceiling idx _pmid _pmc figs st wrote_any :
  fig_loop (no_ceiling cfg) w idx _pmid _pmc figs st wrote_any
  = fig_loop cfg w idx _pmid _pmc figs st wrote_any.
Proof. rewrite !fig_loop_exec. reflexivity. Qed.

(** Past the size check an entry is opened as if no ceiling were set. *)
Lemma open_entry_past_guard st ent :
  open_entry cfg w st ent
  = match size_guard cfg w (e_path ent) st with
    | (true, st0) => (inl TooLarge, st0)
    | (false, st0) => open_entry (no_ceiling cfg) w st0 ent
    end.
Proof.
  unfold open_entry at 1.
  destruct (size_guard cfg w (e_path ent) st) as [[|] st0]; reflexivity.
Qed.

Lemma process_entry_past_guard st ent :
  process_entry cfg w st ent
  = match size_guard cfg w (e_path ent) st with
    | (true, st0) => (skip st0, TooLarge)
    | (false, st0) => process_entry (no_ceiling cfg) w st0 ent
    end.
Proof.
  unfold process_entry at 1. rewrite open_entry_past_guard.
  destruct (size_guard cfg w (e_path ent) st) as [[|] st0]; [reflexivity|].
  unfold process_entry.
  destruct (open_entry (no_ceiling cfg) w st0 ent) as [[o|[[members fig0] figs]] st1];
    [reflexivity|].
  now rewrite fig_loop_no_ceiling.
Qed.

(** With no ceiling the first request of an entry is the download from
    the primary endpoint, and no request is a size query. *)
Lemma sent_without_ceiling ent :
  max_filesize_mb cfg = None ->
  exists rest,
    sent cfg w ent = Get (primary_url cfg ent) :: rest /\ forallb is_get rest = true.
Proof.
  intros Hmax. rewrite sent_shape. unfold size_guard. rewrite Hmax. simpl.
  eexists. split; [reflexivity|].
  destruct (use_dual_base cfg); [|reflexivity].
  destruct (http_get w (primary_url cfg ent)); reflexivity.
Qed.

Lemma opened_without_ceiling ent o :
  max_filesize_mb cfg = None -> opened cfg w ent = inl o -> o <> TooLarge.
Proof.
  intros Hmax. unfold opened, open_entry, size_guard. rewrite Hmax.
  repeat break_match; simpl; intros H; try discriminate; injection H as <-; discriminate.
Qed.

Lemma process_entry_without_ceiling st ent :
  max_filesize_mb cfg = None -> snd (process_entry cfg w st ent) <> TooLarge.
Proof.
  intros Hmax. rewrite process_entry_exec. unfold exec_entry, entry_plans.
  pose proof (opened_without_ceiling ent) as Ho.
  destruct (opened cfg w ent) as [o|[[members fig0] figs]].
  - simpl. now apply Ho.
  - destruct (exec_plans _ _ _ _) as [st2 [|]|st2 e]; discriminate.
Qed.

End SizeGuard.

(** C7. With a ceiling of [mx] megabytes set, the size query to the
    primary endpoint is the first request of every entry. A reported
    size above [mx * 1024 * 1024] bytes ends the entry there: the size
    query is its only request, the skipped counter goes up by one, and
    the file, the dedup set, the images and the written counter stay as
    they were. A reported size of [mx * 1024 * 1024] bytes or less, a
    failed query and a missing Content-Length all leave the entry to be
    processed exactly as without a ceiling, so the download follows and
    the entry is not given up for its size. With no ceiling set no size
    query is sent, by an entry or by a whole run. *)
Theorem size_guard_precedes_download :
  (forall cfg w st ent mx,
      max_filesize_mb cfg = Some mx ->
      (exists rest,
          reqs (fst (process_entry cfg w st ent))
          = (reqs st ++ Head (primary_url cfg ent) :: rest)%list)
      /\ (forall size_bytes,
             http_head w (primary_url cfg ent) = Ok (Some size_bytes) ->
             (size_bytes > mx * 1024 * 1024)%Z ->
             snd (process_entry cfg w st ent) = TooLarge
             /\ reqs (fst (process_entry cfg w st ent))
                = (reqs st ++ [Head (primary_url cfg ent)])%list
             /\ n_skipped (fst (process_entry cfg w st ent)) = S (n_skipped st)
             /\ n_written (fst (process_entry cfg w st ent)) = n_written st
             /\ jsonl (fst (process_entry cfg w st ent)) = jsonl st
             /\ saved (fst (process_entry cfg w st ent)) = saved st
             /\ existing_pairs (fst (process_entry cfg w st ent)) = existing_pairs st)
      /\ ((exists size_bytes,
              http_head w (primary_url cfg ent) = Ok (Some size_bytes)
              /\ (size_bytes <= mx * 1024 * 1024)%Z)
          \/ http_head w (primary_url cfg ent) = Ok None
          \/ (exists e, http_head w (primary_url cfg ent) = Raise e) ->
          process_entry cfg w st ent
          = process_entry (no_ceiling cfg) w (log_req st (Head (primary_url cfg ent))) ent
          /\ snd (process_entry cfg w st ent) <> TooLarge
          /\ exists rest,
              reqs (fst (process_entry cfg w st ent))
              = (reqs st ++ Head (primary_url cfg ent)
                   :: Get (primary_url cfg ent) :: rest)%list))
  /\ (forall cfg w st ent,
         max_filesize_mb cfg = None ->
         snd (process_entry cfg w st ent) <> TooLarge
         /\ exists rest,
             reqs (fst (process_entry cfg w st ent))
             = (reqs st ++ Get (primary_url cfg ent) :: rest)%list
             /\ forallb is_get rest = true)
  /\ (forall cfg w manifest file,
         max_filesize_mb cfg = None ->
         forallb is_get (reqs (run_state cfg w manifest file)) = true).
Proof.
  split; [|split].
  - intros cfg w st ent mx Hmax. split; [|split].
    + rewrite process_entry_reqs, sent_shape, Hmax. simpl. eauto.
    + intros size_bytes Hsize Hgt. rewrite process_entry_past_guard.
      unfold size_guard, _response_size. rewrite Hmax. fold (primary_url cfg ent).
      rewrite Hsize. apply Z.gt_lt, Z.gtb_lt in Hgt. rewrite Hgt.
      repeat split.
    + intros Hsize.
      assert (size_guard cfg w (e_path ent) st
              = (false, log_req st (Head (primary_url cfg ent)))) as Hguard.
      { unfold size_guard, _response_size. rewrite Hmax. fold (primary_url cfg ent).
        destruct Hsize as [(size_bytes & -> & Hle)|[->|[e ->]]]; [|reflexivity..].
        destruct (Z.gtb_spec size_bytes (mx * 1024 * 1024)); [lia | reflexivity]. }
      assert (process_entry cfg w st ent
              = process_entry (no_ceiling cfg) w
                  (log_req st (Head (primary_url cfg ent))) ent) as Hsame
        by (rewrite process_entry_past_guard, Hguard; reflexivity).
      split; [exact Hsame|]. split.
      * rewrite Hsame. now apply process_entry_without_ceiling.
      * rewrite Hsame, process_entry_reqs.
        destruct (sent_without_ceiling (no_ceiling cfg) w ent eq_refl) as (rest & -> & _).
        simpl. rewrite <- app_assoc. simpl. eauto.
  - intros cfg w st ent Hmax. split; [now apply process_entry_without_ceiling|].
    rewrite process_entry_reqs.
    destruct (sent_without_ceiling cfg w ent Hmax) as (rest & -> & Hrest). eauto.
  - intros cfg w manifest file Hmax.
    unfold run_state, build_pubmed_image_caption_dataset_streaming.
    rewrite process_entries_reqs. simpl.
    induction (read_entries (subset_size cfg) manifest) as [|ent rest IH];
      simpl; [reflexivity|].
    rewrite forallb_app, IH, andb_true_r.
    destruct (sent_without_ceiling cfg w ent Hmax) as (rest' & -> & Hrest).
    exact Hrest.
Qed.

(** The end-to-end scenario under a ceiling of 1 MB. When one byte more
    than 1 MB is reported the entry is skipped after the size query
    alone; when exactly 1 MB is reported the package is downloaded and
    its record written. *)
Lemma size_guard_precedes_download_witness :
  (snd (process_entry Fixture.cfg_ceiling Sample.world_over_ceiling Fixture.state0
          Fixture.entry1) = TooLarge
   /\ reqs (fst (process_entry Fixture.cfg_ceiling Sample.world_over_ceiling Fixture.state0
                   Fixture.entry1))
      = [Head (PRIMARY_BASE ++ "00/00/PMC1.tar.gz")]
   /\ n_skipped (fst (process_entry Fixture.cfg_ceiling Sample.world_over_ceiling
                        Fixture.state0 Fixture.entry1)) = 1%nat
   /\ jsonl (fst (process_entry Fixture.cfg_ceiling Sample.world_over_ceiling
                    Fixture.state0 Fixture.entry1)) = [])
  /\ (snd (process_entry Fixture.cfg_ceiling Sample.world_at_ceiling Fixture.state0
             Fixture.entry1) = Finished true
      /\ reqs (fst (process_entry Fixture.cfg_ceiling Sample.world_at_ceiling Fixture.state0
                      Fixture.entry1))
         = [Head (PRIMARY_BASE ++ "00/00/PMC1.tar.gz");
            Get (PRIMARY_BASE ++ "00/00/PMC1.tar.gz")]
      /\ jsonl (fst (process_entry Fixture.cfg_ceiling Sample.world_at_ceiling
                       Fixture.state0 Fixture.entry1)) = [Fixture.line1])
  /\ (process_entry Fixture.cfg_ceiling Sample.world_at_ceiling Fixture.state0
        Fixture.entry1
      = process_entry (no_ceiling Fixture.cfg_ceiling) Sample.world_at_ceiling
          (log_req Fixture.state0
             (Head (primary_url Fixture.cfg_ceiling Fixture.entry1)))
          Fixture.entry1
      /\ snd (process_entry Fixture.cfg_ceiling Sample.world_at_ceiling Fixture.state0
                Fixture.entry1) <> TooLarge
      /\ exists rest,
          reqs (fst (process_entry Fixture.cfg_ceiling Sample.world_at_ceiling
                       Fixture.state0 Fixture.entry1))
          = (reqs Fixture.state0
             ++ Head (primary_url Fixture.cfg_ceiling Fixture.entry1)
                  :: Get (primary_url Fixture.cfg_ceiling Fixture.entry1) :: rest)%list).
Proof.
  split; [repeat split; vm_compute; reflexivity|].
  split; [repeat split; vm_compute; reflexivity|].
  apply (proj2 (proj2 (proj1 size_guard_precedes_download
                         Fixture.cfg_ceiling Sample.world_at_ceiling Fixture.state0
                         Fixture.entry1 1%Z eq_refl))).
  left. exists 1048576%Z. split; [reflexivity | lia].
Defined.

(** ** Retrieval with the fallback endpoint *)

Section Fallback.

Variables (cfg : config) (w : world) (ent : entry).
Hypothesis Hdual : use_dual_base cfg = true.

Lemma download_primary_ok st b :
  http_get w (primary_url cfg ent) = Ok b ->
  download cfg w (e_path ent) st = (Ok b, log_req st (Get (primary_url cfg ent))).
Proof.
  intros H. unfold download, _try_download_with_fallback, _stream_download. rewrite Hdual.
  cbv zeta. fold (primary_url cfg ent). now rewrite H.
Qed.

Lemma download_primary_fails st e1 :
  http_get w (primary_url cfg ent) = Raise e1 ->
  download cfg w (e_path ent) st
  = (match http_get w (fallback_url cfg ent) with
     | Ok b => Ok b
     | Raise _ => Raise RuntimeError
     end,
     log_req (log_req st (Get (primary_url cfg ent))) (Get (fallback_url cfg ent))).
Proof.
  intros H. unfold download, _try_download_with_fallback, _stream_download. rewrite Hdual.
  cbv zeta. fold (primary_url cfg ent). fold (fallback_url cfg ent). rewrite H.
  now destruct (http_get w (fallback_url cfg ent)).
Qed.

(** What is found in the package does not depend on the endpoint that
    served it. *)
Lemma opened_served e1 b :
  http_get w (primary_url cfg ent) = Raise e1 ->
  http_get w (fallback_url cfg ent) = Ok b ->
  opened cfg (served_at w (primary_url cfg ent) b) ent = opened cfg w ent.
Proof.
  intros H1 H2. unfold opened, open_entry.
  change (size_guard cfg (served_at w (primary_url cfg ent) b))
    with (size_guard cfg w).
  destruct (size_guard cfg w (e_path ent) empty_state) as [[|] st0]; [reflexivity|].
  rewrite (download_primary_fails st0 e1 H1), H2.
  assert (download cfg (served_at w (primary_url cfg ent) b) (e_path ent) st0
          = (Ok b, log_req st0 (Get (primary_url cfg ent)))) as ->.
  { unfold download, _try_download_with_fallback, _stream_download. rewrite Hdual. cbv zeta.
    fold (primary_url cfg ent). simpl http_get. now rewrite String.eqb_refl. }
  unfold _safe_open_tar, _load_pubmed_figs_from_nxml_bytes.
  simpl tar_open. simpl parse_pubmed_caption.
  destruct (tar_open w b) as [members|e]; [|reflexivity].
  destruct (_members_by_ext members [".nxml"]) as [|nxml others]; [reflexivity|].
  destruct (parse_pubmed_caption w (_extract_member_to_bytes nxml)) as [[|fig0 figs]|e];
    reflexivity.
Qed.

Lemma entry_plans_served e1 b :
  http_get w (primary_url cfg ent) = Raise e1 ->
  http_get w (fallback_url cfg ent) = Ok b ->
  entry_plans cfg (served_at w (primary_url cfg ent) b) ent = entry_plans cfg w ent.
Proof.
  intros H1 H2. unfold entry_plans. rewrite (opened_served e1 b H1 H2).
  destruct (opened cfg w ent) as [o|[[members fig0] figs]]; reflexivity.
Qed.

End Fallback.

(** C6. With the dual base on, the download goes to the primary endpoint
    first; only when that raises is the fallback endpoint asked, for the
    same relative path. When both raise, the download raises and the
    entry is counted as skipped with nothing written. When the fallback
    serves the package, the entry ends as it would had the primary served
    the same bytes: same exit, same file, dedup set, images and counters;
    only the list of requests differs. *)
Theorem fallback_endpoint_retrieval :
  forall cfg w st ent,
    use_dual_base cfg = true ->
    (exists rest,
        reqs (snd (download cfg w (e_path ent) st))
        = (reqs st ++ Get (primary_url cfg ent) :: rest)%list)
    /\ (forall b,
           http_get w (primary_url cfg ent) = Ok b ->
           download cfg w (e_path ent) st
           = (Ok b, log_req st (Get (primary_url cfg ent))))
    /\ (forall e1,
           http_get w (primary_url cfg ent) = Raise e1 ->
           download cfg w (e_path ent) st
           = (match http_get w (fallback_url cfg ent) with
              | Ok b => Ok b
              | Raise _ => Raise RuntimeError
              end,
              log_req (log_req st (Get (primary_url cfg ent)))
                (Get (fallback_url cfg ent))))
    /\ (forall e1 e2,
           http_get w (primary_url cfg ent) = Raise e1 ->
           http_get w (fallback_url cfg ent) = Raise e2 ->
           fst (size_guard cfg w (e_path ent) st) = false ->
           process_entry cfg w st ent
           = (skip (log_req (log_req (snd (size_guard cfg w (e_path ent) st))
                               (Get (primary_url cfg ent)))
                      (Get (fallback_url cfg ent))),
              DownloadFailed RuntimeError))
    /\ (forall e1 b,
           http_get w (primary_url cfg ent) = Raise e1 ->
           http_get w (fallback_url cfg ent) = Ok b ->
           snd (process_entry cfg w st ent)
           = snd (process_entry cfg (served_at w (primary_url cfg ent) b) st ent)
           /\ with_reqs (fst (process_entry cfg w st ent)) []
              = with_reqs
                  (fst (process_entry cfg (served_at w (primary_url cfg ent) b) st ent)) []).
Proof.
  intros cfg w st ent Hdual.
  split; [|split; [|split; [|split]]].
  - destruct (http_get w (primary_url cfg ent)) as [b|e1] eqn:H.
    + rewrite (download_primary_ok cfg w ent Hdual st b H). simpl. eauto.
    + rewrite (download_primary_fails cfg w ent Hdual st e1 H). simpl.
      rewrite <- app_assoc. simpl. eauto.
  - intros b. apply download_primary_ok, Hdual.
  - intros e1. apply download_primary_fails, Hdual.
  - intros e1 e2 H1 H2 Hguard. unfold process_entry, open_entry.
    destruct (size_guard cfg w (e_path ent) st) as [[|] st0];
      simpl in Hguard; [discriminate|].
    rewrite (download_primary_fails cfg w ent Hdual st0 e1 H1), H2. reflexivity.
  - intros e1 b H1 H2. rewrite !process_entry_exec.
    rewrite (entry_plans_served cfg w ent Hdual e1 b H1 H2).
    apply exec_entry_reqs_indep.
Qed.

(** The end-to-end scenario with the primary endpoint down: the record
    is written all the same. *)
Lemma fallback_endpoint_retrieval_witness :
  use_dual_base Fixture.cfg0 = true
  /\ http_get Fixture.world_fallback (primary_url Fixture.cfg0 Fixture.entry1)
     = Raise HTTPError
  /\ http_get Fixture.world_fallback (fallback_url Fixture.cfg0 Fixture.entry1)
     = Ok "tar-1"
  /\ jsonl (fst (process_entry Fixture.cfg0 Fixture.world_fallback Fixture.state0
                   Fixture.entry1))
     = [Fixture.line1]
  /\ snd (process_entry Fixture.cfg0 Fixture.world_fallback Fixture.state0 Fixture.entry1)
     = snd (process_entry Fixture.cfg0
              (served_at Fixture.world_fallback
                 (primary_url Fixture.cfg0 Fixture.entry1) "tar-1")
              Fixture.state0 Fixture.entry1)
  /\ with_reqs (fst (process_entry Fixture.cfg0 Fixture.world_fallback Fixture.state0
                       Fixture.entry1)) []
     = with_reqs
         (fst (process_entry Fixture.cfg0
                 (served_at Fixture.world_fallback
                    (primary_url Fixture.cfg0 Fixture.entry1) "tar-1")
                 Fixture.state0 Fixture.entry1)) [].
Proof.
  split; [reflexivity|]. split; [vm_compute; reflexivity|].
  split; [vm_compute; reflexivity|]. split; [vm_compute; reflexivity|].
  apply (proj2 (proj2 (proj2 (proj2
           (fallback_endpoint_retrieval Fixture.cfg0 Fixture.world_fallback
              Fixture.state0 Fixture.entry1 eq_refl)))) HTTPError "tar-1");
    vm_compute; reflexivity.
Defined.

(** ** Running again *)

Section Rerun.

(** The dedup set only grows. *)
Lemma exec_plans_mono r pls : forall st wrote_any,
  existing_pairs st ⊆ existing_pairs (step_state (exec_plans r pls st wrote_any)).
Proof.
  induction pls as [|pl pls IH]; intros st wrote_any; simpl; [reflexivity|].
  destruct pl as [|pid p sf line|pid p sf e]; simpl.
  - apply IH.
  - destruct (known r pid st); [apply IH|].
    etransitivity; [|apply IH]. simpl. apply union_subseteq_r.
  - destruct (known r pid st); [apply IH | reflexivity].
Qed.

Lemma exec_entry_mono r new_reqs ep st :
  existing_pairs st ⊆ existing_pairs (fst (exec_entry r new_reqs ep st)).
Proof.
  unfold exec_entry. destruct ep as [o|pls]; [reflexivity|].
  pose proof (exec_plans_mono r pls (with_reqs st (reqs st ++ new_reqs)) false) as H.
  destruct (exec_plans r pls (with_reqs st (reqs st ++ new_reqs)) false)
    as [st2 [|]|st2 e]; exact H.
Qed.

(** With resume on, a caption loop that runs to its end leaves the pair
    id of every plan in the dedup set. *)
Lemma exec_plans_covers pls : forall st wrote_any st' wrote_any',
  exec_plans true pls st wrote_any = Continue st' wrote_any' ->
  forall pid, In (Some pid) (List.map plan_pid pls) -> KStr pid ∈ existing_pairs st'.
Proof.
  induction pls as [|pl pls IH]; intros st wrote_any st' wrote_any' Hrun pid Hin;
    simpl in Hin; [contradiction|].
  simpl in Hrun.
  destruct (exec_plan true pl st wrote_any) as [st1 wa1|st1 e] eqn:Hstep; [|discriminate].
  destruct Hin as [Hpl|Hin]; [|exact (IH _ _ _ _ Hrun pid Hin)].
  assert (KStr pid ∈ existing_pairs st1) as Hst1.
  { destruct pl as [|pid' p sf line|pid' p sf e]; simpl in Hpl;
      unfold exec_plan in Hstep;
      [discriminate| |]; injection Hpl as ->;
      destruct (known true pid st) eqn:Hk; try discriminate.
    - injection Hstep as <- _. now apply known_true_in in Hk as [_ Hk].
    - injection Hstep as <- _. simpl. apply elem_of_union_l. now apply elem_of_singleton.
    - injection Hstep as <- _. now apply known_true_in in Hk as [_ Hk]. }
  pose proof (exec_plans_mono true pls st1 wa1) as Hmono.
  rewrite Hrun in Hmono. simpl in Hmono. now apply Hmono.
Qed.

Lemma exec_entry_covers new_reqs ep st :
  aborted (snd (exec_entry true new_reqs ep st)) = false ->
  covered (existing_pairs (fst (exec_entry true new_reqs ep st))) ep.
Proof.
  unfold exec_entry. destruct ep as [o|pls]; simpl; [auto|].
  destruct (exec_plans true pls (with_reqs st (reqs st ++ new_reqs)) false)
    as [st2 wa|st2 e] eqn:Hrun; simpl; [|discriminate].
  intros _ pid Hin.
  pose proof (exec_plans_covers _ _ _ _ _ Hrun pid Hin) as H.
  now destruct wa.
Qed.

Lemma covered_mono s s' ep : covered s ep -> s ⊆ s' -> covered s' ep.
Proof.
  destruct ep as [o|pls]; simpl; [auto|].
  intros H Hsub pid Hin. apply Hsub, H, Hin.
Qed.

(** With resume on, a caption loop whose pair ids are all in the dedup
    set does nothing. *)
Lemma exec_plans_covered pls : forall st wrote_any,
  (forall pid, In (Some pid) (List.map plan_pid pls) -> KStr pid ∈ existing_pairs st) ->
  exec_plans true pls st wrote_any = Continue st wrote_any.
Proof.
  induction pls as [|pl pls IH]; intros st wrote_any Hcov; simpl; [reflexivity|].
  assert (exec_plan true pl st wrote_any = Continue st wrote_any) as ->.
  { destruct pl as [|pid p sf line|pid p sf e]; unfold exec_plan; [reflexivity| |];
      (assert (known true pid st = true) as ->;
       [unfold known; simpl; apply bool_decide_eq_true_2, Hcov; now left
       |reflexivity]). }
  apply IH. intros pid Hin. apply Hcov. now right.
Qed.

Lemma exec_entry_covered new_reqs ep st :
  covered (existing_pairs st) ep ->
  jsonl (fst (exec_entry true new_reqs ep st)) = jsonl st
  /\ existing_pairs (fst (exec_entry true new_reqs ep st)) = existing_pairs st
  /\ n_written (fst (exec_entry true new_reqs ep st)) = n_written st
  /\ saved (fst (exec_entry true new_reqs ep st)) = saved st.
Proof.
  unfold exec_entry. destruct ep as [o|pls]; simpl; [auto|].
  intros Hcov. rewrite exec_plans_covered by exact Hcov. simpl. auto.
Qed.

End Rerun.

Section RerunRun.

Variables (cfg : config) (w : world).
Hypothesis Hresume : resume cfg = true.

Lemma process_entry_mono st ent :
  existing_pairs st ⊆ existing_pairs (fst (process_entry cfg w st ent)).
Proof. rewrite process_entry_exec. apply exec_entry_mono. Qed.

Lemma process_entries_mono entries : forall st,
  existing_pairs st ⊆ existing_pairs (fst (process_entries cfg w entries st)).
Proof.
  induction entries as [|ent rest IH]; intros st; simpl; [reflexivity|].
  pose proof (process_entry_mono st ent) as H1.
  destruct (process_entry cfg w st ent) as [st1 o]. simpl in H1.
  specialize (IH st1). destruct (process_entries cfg w rest st1) as [st2 os].
  simpl in IH |- *. etransitivity; eassumption.
Qed.

(** After a run, every entry that was not left by an exception in its
    caption loop has all its pair ids in the dedup set. *)
Lemma process_entries_covers entries : forall st,
  Forall2 (fun ent o =>
             aborted o = false ->
             covered (existing_pairs (fst (process_entries cfg w entries st)))
               (entry_plans cfg w ent))
    entries (snd (process_entries cfg w entries st)).
Proof.
  induction entries as [|ent rest IH]; intros st; simpl; [constructor|].
  pose proof (process_entry_exec cfg w st ent) as Hexec.
  pose proof (exec_entry_covers (sent cfg w ent) (entry_plans cfg w ent) st) as Hcov.
  rewrite Hresume in Hexec. rewrite <- Hexec in Hcov.
  destruct (process_entry cfg w st ent) as [st1 o]. simpl in Hcov.
  pose proof (process_entries_mono rest st1) as Hmono.
  specialize (IH st1). destruct (process_entries cfg w rest st1) as [st2 os].
  simpl in IH, Hmono |- *. constructor; [|exact IH].
  intros Ho. eapply covered_mono; [exact (Hcov Ho) | exact Hmono].
Qed.

Lemma process_entry_covered st ent :
  covered (existing_pairs st) (entry_plans cfg w ent) ->
  jsonl (fst (process_entry cfg w st ent)) = jsonl st
  /\ existing_pairs (fst (process_entry cfg w st ent)) = existing_pairs st
  /\ n_written (fst (process_entry cfg w st ent)) = n_written st
  /\ saved (fst (process_entry cfg w st ent)) = saved st.
Proof. rewrite process_entry_exec, Hresume. apply exec_entry_covered. Qed.

Lemma process_entries_covered entries : forall st,
  Forall (fun ent => covered (existing_pairs st) (entry_plans cfg w ent)) entries ->
  jsonl (fst (process_entries cfg w entries st)) = jsonl st
  /\ n_written (fst (process_entries cfg w entries st)) = n_written st
  /\ saved (fst (process_entries cfg w entries st)) = saved st.
Proof.
  induction entries as [|ent rest IH]; intros st Hall; simpl; [auto|].
  apply Forall_cons in Hall as [Hent Hrest].
  destruct (process_entry_covered st ent Hent) as (Hj & Hs & Hw & Hv).
  destruct (process_entry cfg w st ent) as [st1 o]. simpl in Hj, Hs, Hw, Hv.
  rewrite <- Hs in Hrest. specialize (IH st1 Hrest).
  destruct (process_entries cfg w rest st1) as [st2 os]. simpl in IH |- *.
  destruct IH as (Hj2 & Hw2 & Hv2). rewrite Hj2, Hw2, Hv2. auto.
Qed.

(** The dedup set a run starts from is the set the run before ended
    with. *)
Lemma rebuilt_index manifest file :
  existing_pairs (initial_state cfg (jsonl (run_state cfg w manifest file)))
  = existing_pairs (run_state cfg w manifest file).
Proof.
  apply set_eq. intros k. unfold initial_state. simpl. rewrite Hresume.
  rewrite load_existing_pairs_collected. symmetry.
  unfold run_state, build_pubmed_image_caption_dataset_streaming.
  apply (process_entries_inv true
           (fun st => forall k, k ∈ existing_pairs st <-> k ∈ collected (jsonl st)));
    auto.
  - intros st pid p sf line Heq _ Hline k'. simpl.
    rewrite (collected_snoc _ _ _ Hline), elem_of_union, elem_of_singleton,
      elem_of_app, list_elem_of_singleton, Heq. tauto.
  - intros k'. unfold initial_state. simpl. rewrite Hresume.
    apply load_existing_pairs_collected.
Qed.

End RerunRun.

Lemma Forall2_unaborted {A : Type} (C : A -> Prop) (l : list A) (os : list outcome) :
  Forall2 (fun x o => aborted o = false -> C x) l os ->
  forallb (fun o => negb (aborted o)) os = true ->
  Forall C l.
Proof.
  induction 1 as [|x o l os Hx _ IH]; simpl; intros Hall; constructor.
  - apply andb_true_iff in Hall as [Ho _]. apply Hx. now apply negb_true_iff.
  - apply andb_true_iff in Hall as [_ Hos]. now apply IH.
Qed.




(** ** The scenarios of the specification *)

(** The end-to-end scenario: one manifest row, one caption, one image
    member. The run appends exactly one line and saves exactly one file,
    under the path the line names; a second run leaves the file with that
    one line. *)
Theorem end_to_end_scenario :
  jsonl (run_state Fixture.cfg0 Fixture.world1 Fixture.manifest1 [])
  = [record_line "PMC1/PMC1_fig-1.jpg" "A cell." "1001" "PMC1" "1001_1"]
  /\ List.map fst (saved (run_state Fixture.cfg0 Fixture.world1 Fixture.manifest1 []))
     = [Pathlib.join (images_out_dir Fixture.cfg0) (Pathlib.of_str "PMC1/PMC1_fig-1.jpg")]
  /\ n_written (run_state Fixture.cfg0 Fixture.world1 Fixture.manifest1 []) = 1%nat
  /\ n_skipped (run_state Fixture.cfg0 Fixture.world1 Fixture.manifest1 []) = 0%nat
  /\ jsonl (run_state Fixture.cfg0 Fixture.world1 Fixture.manifest1
              (jsonl (run_state Fixture.cfg0 Fixture.world1 Fixture.manifest1 [])))
     = [record_line "PMC1/PMC1_fig-1.jpg" "A cell." "1001" "PMC1" "1001_1"].
Proof. repeat split; vm_compute; reflexivity. Qed.

Lemma appended_records (cfg : config) (w : world) (manifest : list string)
    (file : list jline) :
  all_records (appended cfg w manifest file).
Proof.
  assert (exists new, jsonl (run_state cfg w manifest file) = (file ++ new)%list
                      /\ all_records new) as (new & Hj & Hall).
  { unfold run_state, build_pubmed_image_caption_dataset_streaming.
    apply (process_entries_inv (resume cfg)
             (fun st => exists new, jsonl st = (file ++ new)%list /\ all_records new));
      auto.
    - intros st pid p sf line (new & Hj & Hall) _ Hline.
      exists (new ++ [line])%list. simpl. rewrite Hj, <- app_assoc.
      split; [reflexivity|]. now apply all_records_write with pid.
    - exists []. simpl. rewrite app_nil_r. split; [reflexivity | constructor]. }
  unfold appended. rewrite Hj, drop_app_length. exact Hall.
Qed.

(** X1. The output file is append-only. On a file whose last line is
    complete (or on no file) a run leaves the lines it found in place and
    adds its records after them, one line each, and every line it adds
    gives the startup loop of a later run a pair id. On a file that ends
    in a line cut short the lines before it stay in place and the first
    record lands on that line: unless the cut line was blank, no later
    run can read that record. A file that cannot be decoded stops a run
    with resume on at its startup; with resume off the file is not
    read. *)
Theorem output_file_append_only :
  forall cfg w manifest,
    (forall complete : list jline,
        exists st os new,
          run_on cfg w manifest (Lines complete None)
          = Some (st, os, Lines (complete ++ new) None)
          /\ lines_read (Lines (complete ++ new) None) = Some (complete ++ new)%list
          /\ Forall (fun l => exists pid,
                         line_pid l = Some (KStr pid)
                         /\ KStr pid ∈ load_existing_pairs true (complete ++ new))
               new)
    /\ (forall (complete : list jline) (t : tail_text),
           exists st os new,
             run_on cfg w manifest (Lines complete (Some t))
             = Some (st, os, append_records (Lines complete (Some t)) new)
             /\ all_records new
             /\ match new with
                | [] => append_records (Lines complete (Some t)) new
                        = Lines complete (Some t)
                | r :: rest =>
                    append_records (Lines complete (Some t)) new
                    = Lines (complete ++ glue t r :: rest) None
                    /\ (forall v, t = Fragment v -> line_pid (glue t r) = None)
                    /\ (t = Blank -> glue t r = r)
                end)
    /\ (resume cfg = true -> run_on cfg w manifest Undecodable = None)
    /\ (resume cfg = false ->
        exists st os, run_on cfg w manifest Undecodable = Some (st, os, Undecodable)).
Proof.
  intros cfg w manifest. split; [|split; [|split]].
  - intros complete.
    set (file := if resume cfg then complete else []).
    exists (run_state cfg w manifest file), (run_outcomes cfg w manifest file),
      (appended cfg w manifest file).
    split; [|split; [reflexivity|]].
    + unfold run_on, file. destruct (resume cfg); reflexivity.
    + pose proof (appended_records cfg w manifest file) as Hall.
      apply List.Forall_forall. intros l Hin.
      unfold all_records in Hall. rewrite List.Forall_forall in Hall.
      destruct (Hall l Hin) as (pid & Hpid).
      exists pid. split; [exact Hpid|].
      apply load_existing_pairs_collected. unfold collected.
      apply list_elem_of_omap. exists l. split; [|exact Hpid].
      apply elem_of_app. right. now apply list_elem_of_In.
  - intros complete t.
    set (file := if resume cfg then (complete ++ [tail_line t])%list else []).
    exists (run_state cfg w manifest file), (run_outcomes cfg w manifest file),
      (appended cfg w manifest file).
    split; [|split].
    + unfold run_on, file. destruct (resume cfg); reflexivity.
    + apply appended_records.
    + destruct (appended cfg w manifest file) as [|r rest]; [reflexivity|].
      split; [reflexivity|]. split.
      * intros v ->. reflexivity.
      * intros ->. reflexivity.
  - intros Hr. unfold run_on. now rewrite Hr.
  - intros Hr. unfold run_on. rewrite Hr. eauto.
Qed.

(** ** Sharding a manifest *)

Section Decimal.

Lemma app_inv_head_str (a b c : string) : a ++ b = a ++ c -> b = c.
Proof.
  induction a as [|x a IH]; [now rewrite !app_nil|].
  rewrite !app_cons. intros H. injection H as H. auto.
Qed.

Lemma app_inv_tail_str (c : string) : forall a b, a ++ c = b ++ c -> a = b.
Proof.
  induction a as [|x a IH]; intros b H.
  - rewrite app_nil in H. apply (f_equal String.length) in H.
    rewrite str_length_app in H. destruct b; [reflexivity | simpl in H; lia].
  - destruct b as [|y b].
    + rewrite app_nil in H. apply (f_equal String.length) in H.
      rewrite str_length_app in H. simpl in H. lia.
    + rewrite !app_cons in H. injection H as -> H. f_equal. auto.
Qed.

Lemma uint_of_string_zeros (k : nat) (s : string) (d : Decimal.uint) :
  DecimalString.NilEmpty.uint_of_string s = Some d ->
  exists d', DecimalString.NilEmpty.uint_of_string (zeros k ++ s) = Some d'
             /\ Nat.of_uint d' = Nat.of_uint d.
Proof.
  intros H. induction k as [|k (d' & Hd' & Hv)]; simpl zeros.
  - rewrite app_nil. eauto.
  - rewrite app_cons. simpl. rewrite Hd'. simpl. exists (Decimal.D0 d').
    split; [reflexivity | exact Hv].
Qed.

(** Reading the digits of [format_05d n] back gives [n]. *)
Lemma parse_format_05d (n : nat) : parse_decimal (format_05d n) = Some n.
Proof.
  unfold parse_decimal, format_05d, decimal.
  destruct (uint_of_string_zeros
              (5 - String.length (DecimalString.NilEmpty.string_of_uint (Nat.to_uint n)))
              _ _ (DecimalString.NilEmpty.usu (Nat.to_uint n))) as (d' & -> & Hv).
  simpl. now rewrite Hv, DecimalNat.Unsigned.of_to.
Qed.

Lemma format_05d_inj (n m : nat) : format_05d n = format_05d m -> n = m.
Proof.
  intros H. pose proof (parse_format_05d n) as Hn. rewrite H, parse_format_05d in Hn.
  now injection Hn.
Qed.

Lemma length_zeros (k : nat) : String.length (zeros k) = k.
Proof. induction k; simpl; auto. Qed.

(** Five characters at least: more for an index past 99999. *)
Lemma format_05d_length (n : nat) : (5 <= String.length (format_05d n))%nat.
Proof. unfold format_05d. rewrite str_length_app, length_zeros. lia. Qed.

Lemma no_slash_zeros (k : nat) : no_slash (zeros k) = true.
Proof. induction k; simpl; auto. Qed.

Lemma no_slash_uint (d : Decimal.uint) :
  no_slash (DecimalString.NilEmpty.string_of_uint d) = true.
Proof. induction d; simpl; auto. Qed.

Lemma no_slash_format_05d (n : nat) : no_slash (format_05d n) = true.
Proof.
  unfold format_05d, decimal. now rewrite no_slash_app, no_slash_zeros, no_slash_uint.
Qed.

End Decimal.

Section ShardPaths.

Lemma leading_slashes_underscore (p r : string) :
  Pathlib.leading_slashes (p ++ String "_" r) = Pathlib.leading_slashes p.
Proof.
  induction p as [|c p IH]; [reflexivity|].
  rewrite app_cons. simpl. destruct (Ascii.eqb c "/"); [now rewrite IH | reflexivity].
Qed.

Lemma keep_part_long (s : string) : (2 <= String.length s)%nat -> Pathlib.keep_part s = true.
Proof.
  intros H. unfold Pathlib.keep_part.
  apply andb_true_iff; split; apply negb_true_iff, String.eqb_neq;
    intros ->; simpl in H; lia.
Qed.

(** A path made of [a], the underscore-led text [String "_" m] and a
    slash-free tail [b] of two characters or more: only its last part
    depends on [b]. *)
Lemma of_str_tail (a m b : string) :
  no_slash b = true -> (2 <= String.length b)%nat ->
  Pathlib.of_str (a ++ String "_" m ++ b)
  = {| root := Pathlib.root_of (a ++ String "_" m);
       parts := List.filter Pathlib.keep_part
                  (List.removelast (Str.split "/" (a ++ String "_" m)))
                ++ [(List.last (Str.split "/" (a ++ String "_" m)) "" ++ b)%string] |}.
Proof.
  intros Hb Hlen.
  replace (a ++ String "_" m ++ b) with ((a ++ String "_" m) ++ b)
    by (rewrite app_assoc_str; reflexivity).
  unfold Pathlib.of_str. f_equal.
  - unfold Pathlib.root_of.
    replace ((a ++ String "_" m) ++ b) with (a ++ String "_" (m ++ b))
      by (rewrite app_assoc_str; reflexivity).
    now rewrite !leading_slashes_underscore.
  - rewrite (split_app_no_slash _ _ Hb), List.filter_app. simpl List.filter.
    rewrite keep_part_long; [reflexivity|]. rewrite str_length_app. lia.
Qed.

Variables (out_dir : Path) (prefix : string).

Lemma shard_path_inj (i j : nat) :
  Shards.shard_path out_dir prefix i = Shards.shard_path out_dir prefix j -> i = j.
Proof.
  unfold Shards.shard_path.
  assert (forall k, no_slash (format_05d k ++ ".txt") = true
                    /\ (2 <= String.length (format_05d k ++ ".txt"))%nat) as Hk.
  { intros k. rewrite no_slash_app, no_slash_format_05d, str_length_app. simpl. split; [reflexivity | lia]. }
  change (prefix ++ "_shard-" ++ format_05d i ++ ".txt")
    with (prefix ++ String "_" "shard-" ++ (format_05d i ++ ".txt")).
  change (prefix ++ "_shard-" ++ format_05d j ++ ".txt")
    with (prefix ++ String "_" "shard-" ++ (format_05d j ++ ".txt")).
  rewrite !of_str_tail by apply Hk.
  unfold Pathlib.join. simpl root. simpl parts.
  destruct (Str.truthy _); intros H.
  - injection H as H. apply app_inj_tail in H as [_ H].
    apply app_inv_head_str, app_inv_tail_str in H. now apply format_05d_inj.
  - injection H as H. rewrite !app_assoc in H. apply app_inj_tail in H as [_ H].
    apply app_inv_head_str, app_inv_tail_str in H. now apply format_05d_inj.
Qed.

Variable header : string.

Lemma shard_layout_app (i : nat) (a b : list (list string)) :
  shard_layout out_dir prefix header i (a ++ b)
  = (shard_layout out_dir prefix header i a
     ++ shard_layout out_dir prefix header (i + List.length a) b)%list.
Proof.
  revert i. induction a as [|c a IH]; intros i; simpl.
  - now rewrite Nat.add_0_r.
  - rewrite IH. now rewrite Nat.add_succ_r.
Qed.

Lemma shard_layout_paths (cs : list (list string)) : forall i,
  List.map fst (shard_layout out_dir prefix header i cs)
  = List.map (Shards.shard_path out_dir prefix) (List.seq i (List.length cs)).
Proof.
  induction cs as [|c cs IH]; intros i; simpl; [reflexivity|]. now rewrite IH.
Qed.

Lemma shard_layout_rows (cs : list (list string)) : forall i,
  List.map Shards.rows_of (shard_layout out_dir prefix header i cs) = cs.
Proof.
  induction cs as [|c cs IH]; intros i; simpl; [reflexivity|]. now rewrite IH.
Qed.

Lemma shard_layout_fresh (cs : list (list string)) (i k : nat) :
  (i + List.length cs <= k)%nat ->
  forall q c, In (q, c) (shard_layout out_dir prefix header i cs) ->
              q <> Shards.shard_path out_dir prefix k.
Proof.
  revert i. induction cs as [|c' cs IH]; intros i Hk q c Hin; simpl in *; [contradiction|].
  destruct Hin as [Heq|Hin].
  - injection Heq as <- _. intros H. apply shard_path_inj in H. lia.
  - apply (IH (S i)) with c; [lia | exact Hin].
Qed.

End ShardPaths.

Section FileOps.

Context {A : Type}.

Lemma fs_open_w_fresh (fs : list (Path * list A)) (p : Path) :
  (forall q c, In (q, c) fs -> q <> p) -> fs_open_w fs p = (fs ++ [(p, [])])%list.
Proof.
  induction fs as [|[q c] fs IH]; intros H; simpl; [reflexivity|].
  destruct (decide (q = p)) as [Heq|_].
  - exfalso. apply (H q c); [now left | exact Heq].
  - rewrite IH; [reflexivity|]. intros q' c' Hin. apply (H q' c'). now right.
Qed.

Lemma fs_write_last (fs : list (Path * list A)) (p : Path) (c : list A) (x : A) :
  (forall q c', In (q, c') fs -> q <> p) ->
  fs_write (fs ++ [(p, c)]) p x = (fs ++ [(p, (c ++ [x])%list)])%list.
Proof.
  induction fs as [|[q c'] fs IH]; intros H; simpl.
  - destruct (decide (p = p)); [reflexivity | congruence].
  - destruct (decide (q = p)) as [Heq|_].
    + exfalso. apply (H q c'); [now left | exact Heq].
    + rewrite IH; [reflexivity|]. intros q' c'' Hin. apply (H q' c''). now right.
Qed.

End FileOps.

Section ShardLoop.

Variables (out_dir : Path) (prefix : string) (shard_size : Z) (header : string).

Let n : nat := Shards.effective_size shard_size.

Lemma effective_size_pos : (1 <= n)%nat.
Proof. unfold n, Shards.effective_size. lia. Qed.

Lemma shard_full_test (r : nat) :
  (Z.of_nat (S r) >=? shard_size)%Z = (n <=? S r)%nat.
Proof.
  unfold n, Shards.effective_size.
  destruct (Z.geb_spec (Z.of_nat (S r)) shard_size);
    destruct (Nat.leb_spec (Z.to_nat (Z.max 1 shard_size)) (S r)); lia.
Qed.

Lemma last_shard_open {B : Type} (f : nat -> B) (cs : list (list string)) (c : list string) :
  match (cs ++ [c])%list with
  | [] => None
  | _ => Some (f (List.length (cs ++ [c]) - 1)%nat)
  end = Some (f (List.length cs)).
Proof.
  destruct (cs ++ [c])%list eqn:E; [destruct cs; discriminate|].
  rewrite <- E, length_app. simpl. f_equal. f_equal. lia.
Qed.

Lemma shards_inv_init :
  shards_inv out_dir prefix header n []
    {| Shards.files := []; Shards.shard_idx := 0; Shards.rows_in_shard := 0;
       Shards.fout := None |}.
Proof.
  exists [], []. pose proof effective_size_pos. simpl. repeat split; auto.
Qed.

Lemma shards_inv_step (done : list string) (st : Shards.loop_state) (line : string) :
  shards_inv out_dir prefix header n done st ->
  shards_inv out_dir prefix header n (done ++ [line])
    (Shards.step out_dir prefix shard_size header st line).
Proof.
  intros (full & last & Hfull & Hlast & Hrows & Hfiles & Hidx & Hfout & Hdone).
  pose proof effective_size_pos as Hn.
  unfold Shards.step. rewrite Hrows.
  destruct last as [|x last]; simpl List.length in *; simpl Nat.eqb; cbv iota.
  - (* a new shard is opened *)
    simpl open_chunk in *. rewrite app_nil_r in *. cbn [Shards.fout Shards.files
      Shards.shard_idx Shards.rows_in_shard].
    rewrite Hfiles, Hidx.
    pose proof (shard_layout_fresh out_dir prefix header full 0 (List.length full)
                  (Nat.le_refl _)) as Hfresh.
    rewrite (fs_open_w_fresh _ _ Hfresh), (fs_write_last _ _ _ _ Hfresh),
      (fs_write_last _ _ _ _ Hfresh).
    simpl app. rewrite shard_full_test.
    assert (shard_layout out_dir prefix header 0 (full ++ [[line]])
            = (shard_layout out_dir prefix header 0 full
               ++ [(Shards.shard_path out_dir prefix (List.length full), [header; line])])%list)
      as Hlay by (rewrite shard_layout_app; reflexivity).
    destruct (Nat.leb_spec n 1) as [Hle|Hgt].
    + exists (full ++ [[line]])%list, []. simpl open_chunk. rewrite app_nil_r.
      rewrite last_shard_open, length_app. simpl List.length.
      split; [apply Forall_app; split; [exact Hfull | repeat constructor; simpl; lia]|].
      split; [lia|]. split; [reflexivity|]. split; [now rewrite Hlay|].
      split; [simpl; lia|]. split.
      * reflexivity.
      * rewrite <- Hdone, ?app_nil_r, concat_app. simpl. now rewrite ?app_nil_r.
    + exists full, [line]. simpl open_chunk.
      rewrite last_shard_open, length_app. simpl List.length.
      split; [exact Hfull|]. split; [lia|]. split; [reflexivity|].
      split; [now rewrite Hlay|]. split; [simpl; lia|]. split.
      * reflexivity.
      * now rewrite <- Hdone, ?app_nil_r.
  - (* the open shard gets one more row *)
    simpl open_chunk in *. rewrite last_shard_open in Hfout.
    rewrite length_app in Hidx. simpl List.length in *.
    rewrite Hfiles, Hfout.
    rewrite shard_layout_app. simpl shard_layout. rewrite ?Nat.add_0_l, ?Hrows.
    pose proof (shard_layout_fresh out_dir prefix header full 0 (List.length full)
                  (Nat.le_refl _)) as Hfresh.
    rewrite (fs_write_last _ _ _ _ Hfresh). rewrite shard_full_test.
    assert (forall c : list string,
               shard_layout out_dir prefix header 0 (full ++ [c])
               = (shard_layout out_dir prefix header 0 full
                  ++ [(Shards.shard_path out_dir prefix (List.length full), header :: c)])%list)
      as Hlay by (intros c; rewrite shard_layout_app; reflexivity).
    cbn [Shards.fout Shards.files Shards.shard_idx Shards.rows_in_shard].
    rewrite Hidx.
    destruct (Nat.leb_spec n (S (S (List.length last)))) as [Hle|Hgt].
    + exists (full ++ [(x :: last) ++ [line]])%list, []. simpl open_chunk.
      rewrite app_nil_r, last_shard_open, length_app. simpl List.length.
      split; [apply Forall_app; split; [exact Hfull|];
              repeat constructor; rewrite length_app; simpl; lia|].
      split; [lia|]. split; [reflexivity|]. split; [now rewrite Hlay|].
      split; [reflexivity|]. split.
      * reflexivity.
      * rewrite <- Hdone, ?app_nil_r, concat_app. simpl.
        now rewrite ?app_nil_r, <- ?app_assoc.
    + exists full, ((x :: last) ++ [line])%list. simpl open_chunk.
      rewrite last_shard_open, !length_app. simpl List.length.
      split; [exact Hfull|].
      split; [rewrite ?length_app; simpl; lia|].
      split; [rewrite ?length_app; simpl; lia|].
      split; [now rewrite Hlay|]. split; [reflexivity|]. split.
      * reflexivity.
      * rewrite <- Hdone. now rewrite <- ?app_assoc.
Qed.

Lemma shards_inv_loop (rows : list string) : forall done st,
  shards_inv out_dir prefix header n done st ->
  shards_inv out_dir prefix header n (done ++ rows)
    (fold_left (Shards.step out_dir prefix shard_size header) rows st).
Proof.
  induction rows as [|line rows IH]; intros done st H; simpl.
  - now rewrite app_nil_r.
  - replace (done ++ line :: rows)%list with ((done ++ [line]) ++ rows)%list
      by (now rewrite <- app_assoc).
    apply IH, shards_inv_step, H.
Qed.

End ShardLoop.

Section ShardMain.

Variables (out_dir : Path) (prefix : string) (shard_size : Z) (input : list string).

(** The files [main] leaves: full shards, then the rest of the rows. *)
Lemma main_layout :
  exists full last,
    Forall (fun c => List.length c = Shards.effective_size shard_size) full
    /\ (List.length last < Shards.effective_size shard_size)%nat
    /\ Shards.main out_dir prefix shard_size input
       = shard_layout out_dir prefix (List.hd ""%string input) 0 (full ++ open_chunk last)
    /\ (List.concat full ++ last)%list = List.tl input.
Proof.
  pose proof (shards_inv_loop out_dir prefix shard_size (List.hd ""%string input)
                (List.tl input) [] _
                (shards_inv_init out_dir prefix shard_size (List.hd ""%string input)))
    as (full & last & Hfull & Hlast & _ & Hfiles & _ & _ & Hdone).
  exists full, last. unfold Shards.main. rewrite Hfiles. auto.
Qed.

End ShardMain.

Lemma concat_open_chunk (last : list string) : List.concat (open_chunk last) = last.
Proof. destruct last; simpl; [reflexivity | now rewrite app_nil_r]. Qed.

Lemma length_open_chunk (n : nat) (last : list string) :
  (List.length last < n)%nat ->
  Forall (fun c => 1 <= List.length c <= n)%nat (open_chunk last).
Proof.
  intros H. destruct last; simpl; constructor; [simpl in *; lia | constructor].
Qed.

Lemma length_concat_full (n : nat) (full : list (list string)) :
  Forall (fun c => List.length c = n) full ->
  List.length (List.concat full) = (n * List.length full)%nat.
Proof.
  induction 1 as [|c full Hc _ IH]; simpl; [lia|].
  rewrite length_app, IH, Hc. lia.
Qed.

Lemma read_entries_file (header : string) (rows : list string) :
  read_entries None (header :: rows) = omap parse_row rows.
Proof.
  unfold read_entries. rewrite read_loop_remaining. reflexivity.
Qed.

Lemma omap_concat {A B : Type} (f : A -> option B) (ls : list (list A)) :
  omap f (List.concat ls) = List.concat (List.map (omap f) ls).
Proof.
  induction ls as [|l ls IH]; simpl; [reflexivity|].
  now rewrite omap_app, IH.
Qed.

Lemma shard_layout_entries (out_dir : Path) (prefix header : string)
    (cs : list (list string)) : forall i,
  List.concat (List.map (fun f => read_entries None (snd f))
                 (shard_layout out_dir prefix header i cs))
  = omap parse_row (List.concat cs).
Proof.
  induction cs as [|c cs IH]; intros i; simpl; [reflexivity|].
  now rewrite IH, read_entries_file, omap_app.
Qed.

(** X2. The shards hold every row of the input after its first line, once
    and in order, and each shard starts with that first line and has a
    row after it. *)
Theorem shards_hold_every_row_once (out_dir : Path) (prefix : string) (shard_size : Z)
    (input : list string) :
  List.concat (List.map Shards.rows_of (Shards.main out_dir prefix shard_size input))
  = List.tl input
  /\ Forall (fun f => exists row rows, snd f = List.hd ""%string input :: row :: rows)
       (Shards.main out_dir prefix shard_size input).
Proof.
  destruct (main_layout out_dir prefix shard_size input)
    as (full & last & Hfull & Hlast & -> & Hdone).
  pose proof (effective_size_pos shard_size) as Hn.
  split.
  - now rewrite shard_layout_rows, concat_app, concat_open_chunk.
  - assert (Forall (fun c : list string => c <> []) (full ++ open_chunk last)) as Hne.
    { apply Forall_app; split.
      - eapply Forall_impl; [exact Hfull|]. intros c Hc ->. simpl in Hc. lia.
      - destruct last; simpl; repeat constructor. discriminate. }
    revert Hne. generalize (full ++ open_chunk last)%list, 0%nat.
    induction l as [|c cs IH]; intros i Hne; simpl; constructor.
    + apply Forall_inv in Hne. destruct c as [|row rows]; [congruence|].
      simpl. eauto.
    + apply IH. now apply Forall_inv_tail in Hne.
Qed.

(** X3. With [n] the shard size in effect (the given size, or 1 when it is
    below 1): the number of shards is the number of rows divided by [n],
    rounded up; every shard has between 1 and [n] rows, and every shard
    but the last has [n]. *)
Theorem shards_full_but_last (out_dir : Path) (prefix : string) (shard_size : Z)
    (input : list string) :
  List.length (Shards.main out_dir prefix shard_size input)
  = ((List.length (List.tl input) + Shards.effective_size shard_size - 1)
     / Shards.effective_size shard_size)%nat
  /\ (forall i f,
         List.nth_error (Shards.main out_dir prefix shard_size input) i = Some f ->
         (1 <= List.length (Shards.rows_of f) <= Shards.effective_size shard_size)%nat
         /\ ((S i < List.length (Shards.main out_dir prefix shard_size input))%nat ->
             List.length (Shards.rows_of f) = Shards.effective_size shard_size)).
Proof.
  destruct (main_layout out_dir prefix shard_size input)
    as (full & last & Hfull & Hlast & -> & Hdone).
  pose proof (effective_size_pos shard_size) as Hn.
  set (n := Shards.effective_size shard_size) in *.
  assert (forall cs i, List.length (shard_layout out_dir prefix (List.hd ""%string input) i cs)
                       = List.length cs) as Hlen.
  { induction cs as [|c cs IH]; intros i; simpl; [reflexivity | now rewrite IH]. }
  split.
  - rewrite Hlen, <- Hdone, !length_app, (length_concat_full n full Hfull).
    destruct last as [|x last]; simpl List.length in *.
    + apply Nat.div_unique with (r := (n - 1)%nat); [lia | nia].
    + apply Nat.div_unique with (r := List.length last); [lia | nia].
  - intros i f Hf.
    assert (List.nth_error (full ++ open_chunk last) i = Some (Shards.rows_of f)) as Hc.
    { rewrite <- (shard_layout_rows out_dir prefix (List.hd ""%string input)
                    (full ++ open_chunk last) 0).
      rewrite nth_error_map, Hf. reflexivity. }
    rewrite Hlen. split.
    + assert (Forall (fun c => 1 <= List.length c <= n)%nat (full ++ open_chunk last)) as Hall.
      { apply Forall_app; split; [|now apply length_open_chunk].
        eapply Forall_impl; [exact Hfull|]. simpl. intros c Hc'. lia. }
      rewrite List.Forall_forall in Hall. apply Hall. eapply nth_error_In, Hc.
    + intros Hi. rewrite nth_error_app1 in Hc.
      * rewrite List.Forall_forall in Hfull. apply Hfull. eapply nth_error_In, Hc.
      * rewrite length_app in Hi. destruct last; simpl in Hi; lia.
Qed.

Lemma shard_layout_length (out_dir : Path) (prefix header : string)
    (cs : list (list string)) : forall i,
  List.length (shard_layout out_dir prefix header i cs) = List.length cs.
Proof. induction cs as [|c cs IH]; intros i; simpl; [reflexivity | now rewrite IH]. Qed.

(** The number of files [main] leaves. *)
Lemma main_count (out_dir : Path) (prefix : string) (shard_size : Z) (input : list string) :
  List.length (Shards.main out_dir prefix shard_size input)
  = ((List.length (List.tl input) + Shards.effective_size shard_size - 1)
     / Shards.effective_size shard_size)%nat.
Proof.
  destruct (main_layout out_dir prefix shard_size input)
    as (full & last & Hfull & Hlast & -> & Hdone).
  pose proof (effective_size_pos shard_size) as Hn.
  set (n := Shards.effective_size shard_size) in *.
  rewrite shard_layout_length.
  rewrite <- Hdone, !length_app, (length_concat_full n full Hfull).
  destruct last as [|x last]; simpl List.length in *.
  - apply Nat.div_unique with (r := (n - 1)%nat); [lia | nia].
  - apply Nat.div_unique with (r := List.length last); [lia | nia].
Qed.

Lemma shard_layout_nth (out_dir : Path) (prefix header : string) (cs : list (list string)) :
  forall (k i : nat) (f : Path * list string),
    List.nth_error (shard_layout out_dir prefix header k cs) i = Some f ->
    fst f = Shards.shard_path out_dir prefix (k + i).
Proof.
  induction cs as [|c cs IH]; intros k i f H.
  - destruct i; discriminate.
  - destruct i as [|i]; simpl in H.
    + injection H as <-. simpl. now rewrite Nat.add_0_r.
    + rewrite (IH (S k) i f H). f_equal. lia.
Qed.

(** X4. Two shard indices never give the same path, also past the five
    digits of the file name. The files a run leaves are as many as the
    shards it opened, the number of rows divided by the shard size and
    rounded up, and the file of shard [i] is at the path of index [i],
    counting from 0 without a gap: no shard is written over by a later
    one. *)
Theorem shard_paths_numbered_distinct (out_dir : Path) (prefix : string) (shard_size : Z)
    (input : list string) :
  (forall i j : nat,
      Shards.shard_path out_dir prefix i = Shards.shard_path out_dir prefix j -> i = j)
  /\ List.map fst (Shards.main out_dir prefix shard_size input)
     = List.map (Shards.shard_path out_dir prefix)
         (List.seq 0
            ((List.length (List.tl input) + Shards.effective_size shard_size - 1)
             / Shards.effective_size shard_size))
  /\ (forall (i : nat) (f : Path * list string),
         List.nth_error (Shards.main out_dir prefix shard_size input) i = Some f ->
         fst f = Shards.shard_path out_dir prefix i
         /\ forall (j : nat) (g : Path * list string),
             List.nth_error (Shards.main out_dir prefix shard_size input) j = Some g ->
             fst g = fst f -> j = i)
  /\ List.NoDup (List.map fst (Shards.main out_dir prefix shard_size input)).
Proof.
  assert (List.map fst (Shards.main out_dir prefix shard_size input)
          = List.map (Shards.shard_path out_dir prefix)
              (List.seq 0
                 ((List.length (List.tl input) + Shards.effective_size shard_size - 1)
                  / Shards.effective_size shard_size))) as Hpaths.
  { rewrite <- (main_count out_dir prefix shard_size input).
    destruct (main_layout out_dir prefix shard_size input)
      as (full & last & _ & _ & -> & _).
    now rewrite shard_layout_paths, shard_layout_length. }
  assert (forall (i : nat) (f : Path * list string),
             List.nth_error (Shards.main out_dir prefix shard_size input) i = Some f ->
             fst f = Shards.shard_path out_dir prefix i) as Hnth.
  { destruct (main_layout out_dir prefix shard_size input)
      as (full & last & _ & _ & -> & _).
    intros i f Hf. now apply shard_layout_nth in Hf. }
  split; [exact (shard_path_inj out_dir prefix)|]. split; [exact Hpaths|]. split.
  - intros i f Hf. split; [now apply Hnth|].
    intros j g Hg Heq. rewrite (Hnth _ _ Hf), (Hnth _ _ Hg) in Heq.
    now apply shard_path_inj in Heq.
  - rewrite Hpaths.
    apply List.NoDup_map_NoDup_ForallPairs; [|apply List.seq_NoDup].
    intros i j _ _ Hij. now apply shard_path_inj in Hij.
Qed.

(** X5. Sharding keeps the work list: the manifest entries the pipeline
    reads from the shards, taken in shard order, are the entries it reads
    from the input file. *)
Theorem shards_give_same_entries (out_dir : Path) (prefix : string) (shard_size : Z)
    (input : list string) :
  List.concat (List.map (fun f => read_entries None (snd f))
                 (Shards.main out_dir prefix shard_size input))
  = read_entries None input.
Proof.
  destruct (main_layout out_dir prefix shard_size input)
    as (full & last & _ & _ & -> & Hdone).
  rewrite shard_layout_entries, concat_app, concat_open_chunk, Hdone.
  unfold read_entries. now rewrite read_loop_remaining.
Qed.

(** ** Splitting a manifest into train, dev and test *)

Section SplitLoop.

Variable md5_32 : string -> Z.

Lemma bucket_range (pmcid : string) : (0 <= Split.bucket md5_32 pmcid < 100)%Z.
Proof. unfold Split.bucket. apply Z.mod_pos_bound. lia. Qed.

Lemma split_step_cases (o : Split.outputs) (line : string) :
  Split.step md5_32 o line
  = {| Split.train := (Split.train o
                       ++ List.filter (Split.row_in md5_32 0 97) [line])%list;
       Split.dev := (Split.dev o ++ List.filter (Split.row_in md5_32 97 98) [line])%list;
       Split.test := (Split.test o ++ List.filter (Split.row_in md5_32 98 100) [line])%list |}.
Proof.
  unfold Split.step, Split.row_in, Split.kept, Split.row_bucket. simpl List.filter.
  destruct (List.length (Split.fields line) <? 5)%nat; simpl.
  - rewrite !app_nil_r. now destruct o.
  - pose proof (bucket_range (List.nth 2 (Split.fields line) ""%string)) as Hr.
    set (h := Split.bucket md5_32 (List.nth 2 (Split.fields line) ""%string)) in *.
    destruct (Z.ltb_spec h 97), (Z.ltb_spec h 98), (Z.ltb_spec h 100),
      (Z.leb_spec 0 h), (Z.leb_spec 97 h), (Z.leb_spec 98 h);
      try lia; simpl; rewrite ?app_nil_r; reflexivity.
Qed.

Lemma split_fold (rows : list string) : forall o,
  fold_left (Split.step md5_32) rows o
  = {| Split.train := (Split.train o ++ List.filter (Split.row_in md5_32 0 97) rows)%list;
       Split.dev := (Split.dev o ++ List.filter (Split.row_in md5_32 97 98) rows)%list;
       Split.test := (Split.test o ++ List.filter (Split.row_in md5_32 98 100) rows)%list |}.
Proof.
  induction rows as [|line rows IH]; intros o.
  - simpl. rewrite !app_nil_r. now destruct o.
  - change (fold_left (Split.step md5_32) (line :: rows) o)
      with (fold_left (Split.step md5_32) rows (Split.step md5_32 o line)).
    rewrite IH, split_step_cases. cbn [Split.train Split.dev Split.test].
    rewrite <- !app_assoc.
    change (line :: rows) with ([line] ++ rows)%list.
    now rewrite !List.filter_app.
Qed.

Lemma parse_row_fields (line : string) (e : entry) :
  parse_row line = Some e ->
  Split.fields line = [e_path e; e_title e; e_pmcid e; e_pmid e; e_code e].
Proof.
  unfold parse_row, Split.fields.
  destruct (Str.split Str.tab (Str.rstrip (Ascii.eqb Str.newline) line))
    as [|a [|b [|c [|d [|f [|g l]]]]]]; try discriminate.
  intros H. injection H as <-. reflexivity.
Qed.

Lemma parse_row_in (lo hi : Z) (line : string) (e : entry) :
  parse_row line = Some e ->
  Split.row_in md5_32 lo hi line = Split.entry_in md5_32 lo hi e.
Proof.
  intros H. apply parse_row_fields in H.
  unfold Split.row_in, Split.entry_in, Split.kept, Split.row_bucket. now rewrite H.
Qed.

Lemma omap_cons_eq {A B : Type} (f : A -> option B) (x : A) (l : list A) :
  omap f (x :: l) = match f x with Some y => y :: omap f l | None => omap f l end.
Proof. reflexivity. Qed.

Lemma omap_parse_filter (lo hi : Z) (rows : list string) :
  omap parse_row (List.filter (Split.row_in md5_32 lo hi) rows)
  = List.filter (Split.entry_in md5_32 lo hi) (omap parse_row rows).
Proof.
  induction rows as [|line rows IH]; [reflexivity|].
  cbn [List.filter]. rewrite (omap_cons_eq _ line rows).
  destruct (parse_row line) as [e|] eqn:He.
  - rewrite (parse_row_in lo hi _ _ He). cbn [List.filter].
    destruct (Split.entry_in md5_32 lo hi e); [|exact IH].
    now rewrite omap_cons_eq, He, IH.
  - destruct (Split.row_in md5_32 lo hi line); [|exact IH].
    now rewrite omap_cons_eq, He.
Qed.

Lemma entry_in_bucket (lo hi : Z) (es : list entry) (e : entry) :
  In e (List.filter (Split.entry_in md5_32 lo hi) es) ->
  (lo <= Split.bucket md5_32 (e_pmcid e) < hi)%Z.
Proof.
  intros H. apply List.filter_In in H as [_ H]. unfold Split.entry_in in H.
  apply andb_true_iff in H as [H1 H2]. apply Z.leb_le in H1. apply Z.ltb_lt in H2. lia.
Qed.

End SplitLoop.

Lemma filter3_permutation {A : Type} (p q r : A -> bool) (l : list A) :
  (forall x, In x l ->
             (p x = true /\ q x = false /\ r x = false)
             \/ (p x = false /\ q x = true /\ r x = false)
             \/ (p x = false /\ q x = false /\ r x = true)) ->
  Permutation (List.filter p l ++ List.filter q l ++ List.filter r l) l.
Proof.
  induction l as [|x l IH]; intros H; [constructor|].
  assert (Permutation (List.filter p l ++ List.filter q l ++ List.filter r l) l) as IH'.
  { apply IH. intros y Hy. apply H. now right. }
  simpl. destruct (H x (or_introl eq_refl)) as [(->&->&->)|[(->&->&->)|(->&->&->)]].
  - simpl. now constructor.
  - simpl. symmetry. apply Permutation_cons_app. now symmetry.
  - simpl. rewrite app_assoc. symmetry. apply Permutation_cons_app.
    rewrite <- app_assoc. now symmetry.
Qed.

(** X6. The three files of split.py: each starts with the header of the
    source; train holds the rows of five fields or more whose bucket is
    below 97, dev those of bucket 97, test those of bucket 98 or 99, each
    in source order, so that every such row is in exactly one file; a row
    of fewer fields is in none. An empty source stops the script before
    a row is written. *)
Theorem split_rows_by_bucket (md5_32 : string -> Z) :
  Split.main md5_32 [] = None
  /\ (forall (header : string) (rows : list string),
         Split.main md5_32 (header :: rows)
         = Some {| Split.train := header :: List.filter (Split.row_in md5_32 0 97) rows;
                   Split.dev := header :: List.filter (Split.row_in md5_32 97 98) rows;
                   Split.test := header :: List.filter (Split.row_in md5_32 98 100) rows |}
         /\ Permutation (List.filter (Split.row_in md5_32 0 97) rows
                         ++ List.filter (Split.row_in md5_32 97 98) rows
                         ++ List.filter (Split.row_in md5_32 98 100) rows)
              (List.filter Split.kept rows)).
Proof.
  split; [reflexivity|]. intros header rows. split.
  - unfold Split.main. now rewrite split_fold.
  - assert (forall lo hi, List.filter (Split.row_in md5_32 lo hi) rows
                          = List.filter (Split.row_in md5_32 lo hi) (List.filter Split.kept rows))
      as Hk.
    { intros lo hi. induction rows as [|x l IH]; [reflexivity|].
      cbn [List.filter]. destruct (Split.kept x) eqn:Hx.
      - cbn [List.filter]. destruct (Split.row_in md5_32 lo hi x); now rewrite IH.
      - replace (Split.row_in md5_32 lo hi x) with false
          by (unfold Split.row_in; now rewrite Hx).
        exact IH. }
    rewrite (Hk 0%Z), (Hk 97%Z), (Hk 98%Z). apply filter3_permutation.
    intros x Hx. apply List.filter_In in Hx as [_ Hx].
    unfold Split.row_in. rewrite Hx. simpl.
    pose proof (bucket_range md5_32 (List.nth 2 (Split.fields x) ""%string)) as Hr.
    unfold Split.row_bucket.
    set (h := Split.bucket md5_32 (List.nth 2 (Split.fields x) ""%string)) in *.
    destruct (Z.ltb_spec h 97), (Z.ltb_spec h 98), (Z.ltb_spec h 100),
      (Z.leb_spec 0 h), (Z.leb_spec 97 h), (Z.leb_spec 98 h);
      try lia; simpl; auto.
Qed.

(** X7. Splitting, then reading each file as the pipeline reads a manifest:
    the entries of train, dev and test are the entries of the source
    whose article has its bucket below 97, equal to 97, and above 97;
    together they are the entries of the source, and no article is in
    two of the files. *)
Theorem split_entries_by_article (md5_32 : string -> Z) (header : string)
    (rows : list string) :
  exists o : Split.outputs,
    Split.main md5_32 (header :: rows) = Some o
    /\ read_entries None (Split.train o)
       = List.filter (Split.entry_in md5_32 0 97) (read_entries None (header :: rows))
    /\ read_entries None (Split.dev o)
       = List.filter (Split.entry_in md5_32 97 98) (read_entries None (header :: rows))
    /\ read_entries None (Split.test o)
       = List.filter (Split.entry_in md5_32 98 100) (read_entries None (header :: rows))
    /\ Permutation (read_entries None (Split.train o) ++ read_entries None (Split.dev o)
                    ++ read_entries None (Split.test o))
         (read_entries None (header :: rows))
    /\ (forall e1 e2 : entry,
           (In e1 (read_entries None (Split.train o))
            /\ (In e2 (read_entries None (Split.dev o))
                \/ In e2 (read_entries None (Split.test o))))
           \/ (In e1 (read_entries None (Split.dev o))
               /\ In e2 (read_entries None (Split.test o))) ->
           e_pmcid e1 <> e_pmcid e2).
Proof.
  eexists. split; [unfold Split.main; rewrite split_fold; reflexivity|].
  cbn [Split.train Split.dev Split.test]. simpl app.
  rewrite !read_entries_file, !omap_parse_filter.
  split; [reflexivity|]. split; [reflexivity|]. split; [reflexivity|]. split.
  - apply filter3_permutation. intros e _. unfold Split.entry_in.
    pose proof (bucket_range md5_32 (e_pmcid e)) as Hr.
    set (h := Split.bucket md5_32 (e_pmcid e)) in *.
    destruct (Z.ltb_spec h 97), (Z.ltb_spec h 98), (Z.ltb_spec h 100),
      (Z.leb_spec 0 h), (Z.leb_spec 97 h), (Z.leb_spec 98 h);
      try lia; simpl; auto.
  - intros e1 e2 H Heq.
    destruct H as [[H1 [H2|H2]]|[H1 H2]];
      apply entry_in_bucket in H1; apply entry_in_bucket in H2;
      rewrite Heq in H1; lia.
Qed.

(** ** Package URLs and the requests of a run *)

Section Urls.

Lemma endswith_refl (s : string) : Str.endswith s s = true.
Proof. destruct s; cbn [Str.endswith]; rewrite String.eqb_refl; reflexivity. Qed.

Lemma endswith_app (a suf : string) : Str.endswith suf (a ++ suf) = true.
Proof.
  induction a as [|c a IH]; [rewrite app_nil; apply endswith_refl|].
  rewrite app_cons. cbn [Str.endswith]. rewrite IH. apply orb_true_r.
Qed.

Lemma endswith_prepend (a s suf : string) :
  Str.endswith suf s = true -> Str.endswith suf (a ++ s) = true.
Proof.
  intros H. induction a as [|c a IH]; [now rewrite app_nil|].
  rewrite app_cons. cbn [Str.endswith]. rewrite IH. apply orb_true_r.
Qed.

Lemma with_extension_ends (rel_path ext : string) :
  Str.endswith ext (with_extension rel_path ext) = true.
Proof.
  unfold with_extension. destruct (Str.endswith ext rel_path) eqn:E; [exact E|].
  apply endswith_app.
Qed.

End Urls.

(** X8. The requests of a run are those of its entries, one entry after the
    other, and what an entry sends depends on the configuration and the
    answers alone. An entry sends at most one size query and at most two
    downloads; each goes to the package URL at the primary endpoint, or,
    with the dual base on, a download to the same relative path at the
    fallback endpoint; with the dual base off an entry sends at most one
    download. Both URLs end with the configured extension, which is not
    added to a path that already ends with it. *)
Theorem run_requests_bounded (cfg : config) (w : world) (manifest : list string)
    (file : list jline) :
  reqs (run_state cfg w manifest file)
  = List.concat (List.map (sent cfg w) (read_entries (subset_size cfg) manifest))
  /\ (forall ent : entry,
         (List.length (List.filter (fun r => negb (is_get r)) (sent cfg w ent)) <= 1)%nat
         /\ (List.length (List.filter is_get (sent cfg w ent))
             <= (if use_dual_base cfg then 2 else 1))%nat
         /\ Forall (fun r => r = Head (primary_url cfg ent)
                             \/ r = Get (primary_url cfg ent)
                             \/ (use_dual_base cfg = true /\ r = Get (fallback_url cfg ent)))
              (sent cfg w ent)
         /\ Str.endswith (file_extension cfg) (primary_url cfg ent) = true
         /\ Str.endswith (file_extension cfg) (fallback_url cfg ent) = true
         /\ with_extension (with_extension (e_path ent) (file_extension cfg))
              (file_extension cfg)
            = with_extension (e_path ent) (file_extension cfg)).
Proof.
  split.
  - unfold run_state, build_pubmed_image_caption_dataset_streaming.
    rewrite process_entries_reqs. reflexivity.
  - intros ent. rewrite sent_shape.
    assert (Str.endswith (file_extension cfg)
              (with_extension (e_path ent) (file_extension cfg)) = true) as Hext
      by apply with_extension_ends.
    set (big := fst (size_guard cfg w (e_path ent) empty_state)).
    set (got := http_get w (primary_url cfg ent)).
    repeat split.
    + destruct (max_filesize_mb cfg), big, (use_dual_base cfg), got; simpl; lia.
    + destruct (max_filesize_mb cfg), big, (use_dual_base cfg), got; simpl; lia.
    + destruct (max_filesize_mb cfg), big, (use_dual_base cfg), got; simpl;
        repeat match goal with
               | |- Forall _ (_ :: _) => apply List.Forall_cons
               | |- Forall _ [] => apply List.Forall_nil
               end; auto.
    + now apply endswith_prepend.
    + now apply endswith_prepend.
    + unfold with_extension at 1. now rewrite Hext.
Qed.

(** ** The image index and the matcher *)

Section Index.

Lemma dict_get_set {V : Type} (d : list (string * V)) (k k' : string) (v : V) :
  dict_get (dict_set d k v) k'
  = if String.eqb k k' then Some v else dict_get d k'.
Proof.
  induction d as [|[k0 v0] d IH]; simpl.
  - reflexivity.
  - destruct (String.eqb k0 k) eqn:E0; simpl.
    + apply String.eqb_eq in E0. subst k0.
      destruct (String.eqb k k'); reflexivity.
    + destruct (String.eqb k0 k') eqn:E1.
      * apply String.eqb_eq in E1. subst k0.
        rewrite String.eqb_sym, E0. reflexivity.
      * exact IH.
Qed.

Lemma dict_set_keys {V : Type} (d : list (string * V)) (k : string) (v : V) :
  List.map fst (dict_set d k v)
  = if existsb (String.eqb k) (List.map fst d) then List.map fst d
    else (List.map fst d ++ [k])%list.
Proof.
  induction d as [|[k0 v0] d IH]; simpl; [reflexivity|].
  rewrite (String.eqb_sym k k0).
  destruct (String.eqb k0 k) eqn:E0; simpl.
  - apply String.eqb_eq in E0. now subst k0.
  - rewrite IH. destruct (existsb (String.eqb k) (List.map fst d)); reflexivity.
Qed.

Lemma dict_set_in {V : Type} (d : list (string * V)) (k k' : string) (v v' : V) :
  In (k', v') (dict_set d k v) -> (k' = k /\ v' = v) \/ In (k', v') d.
Proof.
  induction d as [|[k0 v0] d IH]; simpl.
  - intros [H|[]]. injection H as <- <-. auto.
  - destruct (String.eqb k0 k) eqn:E0; simpl.
    + apply String.eqb_eq in E0. subst k0.
      intros [H|H]; [injection H as <- <-; auto | auto].
    + intros [H|H]; [auto|]. destruct (IH H); auto.
Qed.

Lemma dict_get_in {V : Type} (d : list (string * V)) (k : string) (v : V) :
  dict_get d k = Some v -> In (k, v) d.
Proof.
  induction d as [|[k0 v0] d IH]; simpl; [discriminate|].
  destruct (String.eqb k0 k) eqn:E0.
  - apply String.eqb_eq in E0. subst k0. intros H. injection H as <-. now left.
  - auto.
Qed.

(** The step of the index comprehension. *)
Lemma img_index_snoc (members : list TarInfo) (m : TarInfo) :
  img_index (members ++ [m])
  = if is_image_member m then dict_set (img_index members) (member_key m) m
    else img_index members.
Proof. unfold img_index. now rewrite fold_left_app. Qed.

Lemma img_index_in (members : list TarInfo) (k : string) (m : TarInfo) :
  In (k, m) (img_index members) ->
  In m members /\ is_image_member m = true /\ k = member_key m.
Proof.
  induction members as [|m' members IH] using rev_ind; [intros []|].
  rewrite img_index_snoc, in_app_iff.
  destruct (is_image_member m') eqn:E.
  - intros H. apply dict_set_in in H as [[-> ->]|H].
    + simpl. auto.
    + destruct (IH H) as (? & ? & ?). auto.
  - intros H. destruct (IH H) as (? & ? & ?). auto.
Qed.

Lemma img_index_keys_nodup (members : list TarInfo) :
  List.NoDup (List.map fst (img_index members)).
Proof.
  induction members as [|m members IH] using rev_ind; [constructor|].
  rewrite img_index_snoc. destruct (is_image_member m); [|exact IH].
  rewrite dict_set_keys.
  destruct (existsb (String.eqb (member_key m)) (List.map fst (img_index members))) eqn:E;
    [exact IH|].
  apply List.NoDup_app; [exact IH | repeat constructor; intros []|].
  intros k Hk [<-|[]].
  assert (existsb (String.eqb (member_key m)) (List.map fst (img_index members)) = true)
    as Ht by (apply existsb_exists; exists (member_key m); split;
              [exact Hk | apply String.eqb_refl]).
  congruence.
Qed.

Lemma find_snoc {A : Type} (p : A -> bool) (l : list A) (x : A) :
  List.find p (l ++ [x])
  = match List.find p l with
    | Some y => Some y
    | None => if p x then Some x else None
    end.
Proof.
  induction l as [|y l IH]; simpl; [reflexivity|].
  destruct (p y); [reflexivity | exact IH].
Qed.

Lemma first_candidate_in (idx : list (string * TarInfo)) (cs : list string) (m : TarInfo) :
  first_candidate idx cs = Some m -> exists c, In c cs /\ In (c, m) idx.
Proof.
  induction cs as [|c cs IH]; simpl; [discriminate|].
  destruct (dict_get idx c) as [m'|] eqn:E.
  - intros H. injection H as <-. exists c. split; [now left | now apply dict_get_in].
  - intros H. destruct (IH H) as (c' & ? & ?). exists c'. auto.
Qed.

Lemma scan_stem_in (stem : string) (idx : list (string * TarInfo)) (m : TarInfo) :
  scan_stem stem idx = Some m ->
  exists k, In (k, m) idx /\ Str.contains stem k = true.
Proof.
  induction idx as [|[k m'] idx IH]; simpl; [discriminate|].
  destruct (Str.contains stem k) eqn:E.
  - intros H. injection H as <-. exists k. auto.
  - intros H. destruct (IH H) as (k' & ? & ?). exists k'. auto.
Qed.

End Index.

Section Capitals.

Lemma lower_ascii_not_upper (c : ascii) : is_upper (Str.lower_ascii c) = false.
Proof.
  unfold Str.lower_ascii, is_upper.
  destruct ((65 <=? nat_of_ascii c)%nat && (nat_of_ascii c <=? 90)%nat) eqn:E.
  - apply andb_true_iff in E as [H1 H2].
    apply Nat.leb_le in H1. apply Nat.leb_le in H2.
    rewrite nat_ascii_embedding by lia.
    apply andb_false_iff. right. apply Nat.leb_gt. lia.
  - exact E.
Qed.

Lemma lower_no_upper (s : string) : has_upper (Str.lower s) = false.
Proof.
  induction s as [|c s IH]; simpl; [reflexivity|].
  now rewrite lower_ascii_not_upper, IH.
Qed.

Lemma startswith_upper (p : string) : forall s,
  Str.startswith p s = true -> has_upper p = true -> has_upper s = true.
Proof.
  induction p as [|a p IH]; intros s Hs Hp; [discriminate|].
  destruct s as [|b s]; [discriminate|]. simpl in Hs, Hp |- *.
  apply andb_true_iff in Hs as [Hab Hs]. apply Ascii.eqb_eq in Hab. subst b.
  destruct (is_upper a); [reflexivity|]. simpl in Hp |- *. now apply IH.
Qed.

Lemma contains_upper (needle hay : string) :
  Str.contains needle hay = true -> has_upper needle = true -> has_upper hay = true.
Proof.
  intros Hc Hn. induction hay as [|b hay IH].
  - simpl in Hc. rewrite orb_false_r in Hc. now apply startswith_upper with needle.
  - cbn [Str.contains] in Hc. apply orb_true_iff in Hc as [Hc|Hc].
    + now apply startswith_upper with needle.
    + simpl. rewrite (IH Hc). apply orb_true_r.
Qed.

Lemma scan_stem_upper (stem : string) (idx : list (string * TarInfo)) :
  has_upper stem = true ->
  Forall (fun km => has_upper (fst km) = false) idx ->
  scan_stem stem idx = None.
Proof.
  intros Hs. induction 1 as [|[k m] idx Hk _ IH]; simpl; [reflexivity|].
  destruct (Str.contains stem k) eqn:E; [|exact IH].
  apply contains_upper in E; [|exact Hs]. simpl in Hk. congruence.
Qed.

End Capitals.

(** X9. A member the matcher returns is an image file of the archive, and
    its lowercased basename is one of the candidate names of the
    reference or has the stem of the reference inside it. *)
Theorem matched_member_is_archive_image (members : list TarInfo) (graphic_ref : string)
    (m : TarInfo) :
  find_member (img_index members) graphic_ref = Some m ->
  In m members
  /\ is_image_member m = true
  /\ (In (member_key m) (candidates graphic_ref)
      \/ Str.contains (ref_stem graphic_ref) (member_key m) = true).
Proof.
  unfold find_member.
  destruct (first_candidate (img_index members) (candidates graphic_ref)) as [m'|] eqn:E.
  - intros H. injection H as <-.
    apply first_candidate_in in E as (c & Hc & Hin).
    apply img_index_in in Hin as (? & ? & ->). auto.
  - intros H. apply scan_stem_in in H as (k & Hin & Hk).
    apply img_index_in in Hin as (? & ? & ->). auto.
Qed.

Lemma matched_member_is_archive_image_witness :
  find_member (img_index [Fixture.other_jpg; Fixture.fig3_png]) "fig3.tif"
  = Some Fixture.fig3_png
  /\ In Fixture.fig3_png [Fixture.other_jpg; Fixture.fig3_png]
  /\ is_image_member Fixture.fig3_png = true
  /\ (In (member_key Fixture.fig3_png) (candidates "fig3.tif")
      \/ Str.contains (ref_stem "fig3.tif") (member_key Fixture.fig3_png) = true).
Proof.
  split; [vm_compute; reflexivity|].
  apply (matched_member_is_archive_image [Fixture.other_jpg; Fixture.fig3_png] "fig3.tif").
  vm_compute. reflexivity.
Defined.

(** X10. The index binds each lowercased basename once: when two image
    members of the archive share one, the later member is the one every
    lookup returns. *)
Theorem index_keeps_last_member (members : list TarInfo) :
  List.NoDup (List.map fst (img_index members))
  /\ forall k : string,
      dict_get (img_index members) k
      = List.find (fun m => is_image_member m && String.eqb (member_key m) k)
          (List.rev members).
Proof.
  split; [apply img_index_keys_nodup|]. intros k.
  induction members as [|m members IH] using rev_ind; [reflexivity|].
  rewrite img_index_snoc, List.rev_app_distr. simpl.
  destruct (is_image_member m); simpl; [|exact IH].
  rewrite dict_get_set. destruct (String.eqb (member_key m) k); [reflexivity | exact IH].
Qed.

(** X11. The substring pass compares the stem of the reference as written
    with the lowercased names of the index: a reference whose stem has a
    capital letter is matched by its candidate names or not at all. *)
Theorem capital_stem_skips_substring_pass (members : list TarInfo) (graphic_ref : string) :
  has_upper (ref_stem graphic_ref) = true ->
  scan_stem (ref_stem graphic_ref) (img_index members) = None
  /\ find_member (img_index members) graphic_ref
     = first_candidate (img_index members) (candidates graphic_ref).
Proof.
  intros Hup.
  assert (scan_stem (ref_stem graphic_ref) (img_index members) = None) as Hscan.
  { apply scan_stem_upper; [exact Hup|]. apply List.Forall_forall.
    intros [k m] Hin. apply img_index_in in Hin as (_ & _ & ->).
    apply lower_no_upper. }
  split; [exact Hscan|]. unfold find_member. rewrite Hscan.
  destruct (first_candidate _ _); reflexivity.
Qed.

(** The reference [Fig] against an archive whose one image is
    [fig1.jpg]: no match, where the reference [fig] finds the image. *)
Lemma capital_stem_skips_substring_pass_witness :
  has_upper (ref_stem "Fig") = true
  /\ find_member (img_index Sample.archive) "Fig" = None
  /\ find_member (img_index Sample.archive) "fig" = Some Sample.fig1
  /\ scan_stem (ref_stem "Fig") (img_index Sample.archive) = None
  /\ find_member (img_index Sample.archive) "Fig"
     = first_candidate (img_index Sample.archive) (candidates "Fig").
Proof.
  split; [vm_compute; reflexivity|].
  split; [vm_compute; reflexivity|].
  split; [vm_compute; reflexivity|].
  apply (capital_stem_skips_substring_pass Sample.archive "Fig").
  vm_compute. reflexivity.
Defined.

Lemma contains_empty (hay : string) : Str.contains "" hay = true.
Proof. destruct hay; reflexivity. Qed.

(** X12. A reference that names no file, such as ["."] or ["/"]: its stem is
    empty, every indexed name contains it, and unless one of the
    candidate names (the empty name, or a bare extension) is indexed the
    matcher returns the first image of the index, whatever the caption
    is about. *)
Theorem nameless_reference_takes_first_image (members : list TarInfo)
    (graphic_ref : string) :
  Pathlib.name (Pathlib.of_str graphic_ref) = "" ->
  first_candidate (img_index members) (candidates graphic_ref) = None ->
  ref_stem graphic_ref = ""
  /\ candidates graphic_ref = "" :: IMAGE_EXTS
  /\ find_member (img_index members) graphic_ref
     = List.hd_error (List.map snd (img_index members)).
Proof.
  intros Hname Hcand.
  assert (ref_stem graphic_ref = "") as Hstem
    by (unfold ref_stem, ref_base; rewrite Hname; reflexivity).
  split; [exact Hstem|]. split.
  - unfold candidates, ref_base. rewrite Hstem, Hname. reflexivity.
  - unfold find_member. rewrite Hcand, Hstem.
    destruct (img_index members) as [|[k m] rest]; [reflexivity|].
    simpl. now rewrite contains_empty.
Qed.

Lemma nameless_reference_takes_first_image_witness :
  find_member (img_index Sample.archive) "." = Some Sample.fig1
  /\ ref_stem "." = ""
  /\ candidates "." = "" :: IMAGE_EXTS
  /\ find_member (img_index Sample.archive) "."
     = List.hd_error (List.map snd (img_index Sample.archive)).
Proof.
  split; [vm_compute; reflexivity|].
  apply (nameless_reference_takes_first_image Sample.archive ".");
    vm_compute; reflexivity.
Defined.

(** ** Records and the images behind them *)

Section RecordImages.

Variables (cfg : config) (w : world).

Lemma record_has_image_mono (files files' : list (Path * saved_file)) (l : jline) :
  (forall x, In x files -> In x files') ->
  record_has_image cfg files l -> record_has_image cfg files' l.
Proof.
  intros Hsub (p & sf & rel & caption & pmid & pmc & pid & Hin & H).
  exists p, sf, rel, caption, pmid, pmc, pid. split; [now apply Hsub | exact H].
Qed.

Lemma fig_plan_has_image idx _pmid _pmc f :
  plan_has_image cfg (fig_plan cfg w idx _pmid _pmc f).
Proof.
  unfold fig_plan.
  destruct (get_ref (f_graphic_ref f)) as [graphic_ref|]; [|exact Logic.I].
  destruct (Str.truthy (Str.strip (get_str (f_fig_caption f)))) eqn:Hcap;
    [|exact Logic.I]. simpl negb. cbv iota.
  destruct (find_member idx graphic_ref) as [member|]; [|exact Logic.I].
  destruct (normalized w _ _) as [[q sf]|] eqn:Hn; [|exact Logic.I].
  pose proof (normalized_file _ _ _ _ _ Hn) as Hfile.
  destruct (Pathlib.relative_to q (images_out_dir cfg)) as [rel|] eqn:Hrel;
    [|exact Hfile].
  destruct Hfile as (Hfmt & Hq & Hmode).
  simpl. exists q, sf, rel. do 4 eexists. split; [now left|].
  split; [exact Hrel|]. split; [reflexivity|]. split; [exact Hcap|]. auto.
Qed.

Lemma entry_plans_have_images ent pls :
  entry_plans cfg w ent = inr pls -> Forall (plan_has_image cfg) pls.
Proof.
  unfold entry_plans.
  destruct (opened cfg w ent) as [o|[[members fig0] figs]]; [discriminate|].
  intros H. injection H as <-. apply List.Forall_forall.
  intros pl [<-|Hin]; [apply fig_plan_has_image|].
  apply in_map_iff in Hin as (f & <- & _). apply fig_plan_has_image.
Qed.

(** What the caption loop adds to the file and to the image tree: an
    image for every line, and one more when an exception ends the loop. *)
Lemma exec_plans_images pls : forall st wrote_any,
  Forall (plan_has_image cfg) pls ->
  exists new files,
    jsonl (step_state (exec_plans (resume cfg) pls st wrote_any)) = (jsonl st ++ new)%list
    /\ saved (step_state (exec_plans (resume cfg) pls st wrote_any))
       = (saved st ++ files)%list
    /\ Forall (record_has_image cfg files) new
    /\ List.length files
       = (List.length new
          + if step_aborted (exec_plans (resume cfg) pls st wrote_any) then 1 else 0)%nat
    /\ (forall st', exec_plans (resume cfg) pls st false = Continue st' false ->
                    wrote_any = false -> st' = st).
Proof.
  induction pls as [|pl pls IH]; intros st wrote_any Hall.
  - exists [], []. simpl. rewrite !app_nil_r. repeat split; auto.
    intros st' H _. now injection H.
  - apply Forall_cons in Hall as [Hpl Hpls].
    assert (forall st0 wa0,
               exec_plan (resume cfg) pl st wrote_any = Continue st0 wa0 ->
               st0 = st ->
               exists new files,
                 jsonl (step_state (exec_plans (resume cfg) pls st0 wa0))
                 = (jsonl st ++ new)%list
                 /\ saved (step_state (exec_plans (resume cfg) pls st0 wa0))
                    = (saved st ++ files)%list
                 /\ Forall (record_has_image cfg files) new
                 /\ List.length files
                    = (List.length new
                       + if step_aborted (exec_plans (resume cfg) pls st0 wa0)
                         then 1 else 0)%nat) as Hsame.
    { intros st0 wa0 _ ->. destruct (IH st wa0 Hpls) as (new & files & H1 & H2 & H3 & H4 & _).
      exists new, files. auto. }
    assert (forall st0 st', exec_plans (resume cfg) pls st0 true <> Continue st' false)
      as Htrue.
    { intros st0 st' H. destruct (exec_plans_counts (resume cfg) pls st0 true)
        as (new & _ & _ & _ & Hwa). specialize (Hwa _ _ H). discriminate. }
    cbn [exec_plans].
    destruct pl as [|pid p sf line|pid p sf e]; unfold exec_plan.
    + destruct (Hsame st wrote_any eq_refl eq_refl) as (new & files & H1 & H2 & H3 & H4).
      exists new, files. repeat split; auto.
      intros st' H ->. destruct (IH st false Hpls) as (_ & _ & _ & _ & _ & _ & Hst). auto.
    + destruct (known (resume cfg) pid st) eqn:Hk.
      * destruct (IH st wrote_any Hpls) as (new & files & H1 & H2 & H3 & H4 & _).
        exists new, files. repeat split; auto.
        intros st' H ->. destruct (IH st false Hpls) as (_ & _ & _ & _ & _ & _ & Hst). auto.
      * destruct (IH (write_record (save_image st p sf) line pid) true Hpls)
          as (new & files & H1 & H2 & H3 & H4 & _).
        exists (line :: new), ((p, sf) :: files). simpl in H1, H2.
        rewrite H1, H2, <- !app_assoc. repeat split; auto.
        -- constructor.
           ++ apply record_has_image_mono with [(p, sf)]; [|exact Hpl].
              intros x [<-|[]]. now left.
           ++ eapply Forall_impl; [exact H3|]. intros l Hl.
              apply record_has_image_mono with files; [|exact Hl].
              intros x Hx. now right.
        -- simpl. now rewrite H4.
        -- intros st' H _. exfalso. exact (Htrue _ _ H).
    + destruct (known (resume cfg) pid st) eqn:Hk.
      * destruct (IH st wrote_any Hpls) as (new & files & H1 & H2 & H3 & H4 & _).
        exists new, files. repeat split; auto.
        intros st' H ->. destruct (IH st false Hpls) as (_ & _ & _ & _ & _ & _ & Hst). auto.
      * exists [], [(p, sf)]. simpl. rewrite app_nil_r. repeat split; auto.
        intros st' H. discriminate.
Qed.

(** Every file the caption loop saves is a normalised one. *)
Lemma exec_plans_saved_normalised pls : forall st wrote_any,
  Forall (plan_has_image cfg) pls ->
  Forall (fun x => normalised_file (snd x)) (saved st) ->
  Forall (fun x => normalised_file (snd x))
    (saved (step_state (exec_plans (resume cfg) pls st wrote_any))).
Proof.
  induction pls as [|pl pls IH]; intros st wrote_any Hall Hst; [exact Hst|].
  apply Forall_cons in Hall as [Hpl Hpls].
  cbn [exec_plans].
  destruct pl as [|pid p sf line|pid p sf e]; unfold exec_plan.
  - now apply IH.
  - destruct (known (resume cfg) pid st); [now apply IH|].
    apply IH; [exact Hpls|]. simpl. apply Forall_app. split; [exact Hst|].
    constructor; [|constructor]. simpl.
    destruct Hpl as (p0 & sf0 & rel & caption & pmid & pmc & pid0 & [Heq|[]] & _ & _ & _ & H).
    injection Heq as _ <-. exact H.
  - destruct (known (resume cfg) pid st); [now apply IH|].
    simpl. apply Forall_app. split; [exact Hst|].
    constructor; [exact Hpl|constructor].
Qed.

End RecordImages.

Section ImageTree.

(** The last save at a path is one of the saves of the log. *)
Lemma image_at_some (log : list (Path * saved_file)) (p : Path) (sf : saved_file) :
  image_at log p = Some sf -> In (p, sf) log.
Proof.
  induction log as [|[q sf0] rest IH]; simpl; [discriminate|].
  destruct (image_at rest p) as [later|].
  - intros H. injection H as ->. right. now apply IH.
  - destruct (decide (q = p)) as [->|]; [|discriminate].
    intros H. injection H as ->. now left.
Qed.

(** A path the log saved at has a file. *)
Lemma image_at_in (log : list (Path * saved_file)) (p : Path) (sf : saved_file) :
  In (p, sf) log -> exists sf', image_at log p = Some sf'.
Proof.
  induction log as [|[q sf0] rest IH]; simpl; [intros []|].
  intros [Heq|Hin].
  - injection Heq as -> ->. destruct (image_at rest p) as [later|]; [now exists later|].
    destruct (decide (p = p)); [now exists sf | congruence].
  - destruct (IH Hin) as (sf' & ->). now exists sf'.
Qed.

(** With one save per path, the file at a path is the one saved there. *)
Lemma image_at_once (log : list (Path * saved_file)) (p : Path) (sf : saved_file) :
  List.NoDup (map fst log) -> In (p, sf) log -> image_at log p = Some sf.
Proof.
  induction log as [|[q sf0] rest IH]; simpl; [intros _ []|].
  intros Hnd Hin. apply List.NoDup_cons_iff in Hnd as [Hq Hnd].
  destruct Hin as [Heq|Hin].
  - injection Heq as -> ->.
    destruct (image_at rest p) as [later|] eqn:Hl.
    + exfalso. apply Hq. apply image_at_some in Hl.
      apply in_map_iff. now exists (p, later).
    + destruct (decide (p = p)); [reflexivity | congruence].
  - now rewrite (IH Hnd Hin).
Qed.

End ImageTree.

Lemma opened_not_aborted (cfg : config) (w : world) (ent : entry) (o : outcome) :
  opened cfg w ent = inl o -> aborted o = false.
Proof.
  unfold opened, open_entry.
  repeat break_match; simpl; intros H; try discriminate; now injection H as <-.
Qed.

Section RecordImagesRun.

Variables (cfg : config) (w : world).

Lemma process_entry_images st ent :
  exists new files,
    jsonl (fst (process_entry cfg w st ent)) = (jsonl st ++ new)%list
    /\ saved (fst (process_entry cfg w st ent)) = (saved st ++ files)%list
    /\ Forall (record_has_image cfg files) new
    /\ List.length files
       = (List.length new
          + if aborted (snd (process_entry cfg w st ent)) then 1 else 0)%nat.
Proof.
  rewrite process_entry_exec. unfold exec_entry.
  destruct (entry_plans cfg w ent) as [o|pls] eqn:Hep.
  - exists [], []. simpl. rewrite !app_nil_r. repeat split; auto.
    unfold entry_plans in Hep. pose proof (opened_not_aborted cfg w ent) as Hna.
    destruct (opened cfg w ent) as [o'|[[members fig0] figs]]; [|discriminate].
    injection Hep as ->. now rewrite (Hna _ eq_refl).
  - destruct (exec_plans_images cfg pls (with_reqs st (reqs st ++ sent cfg w ent)) false
                (entry_plans_have_images cfg w ent pls Hep))
      as (new & files & H1 & H2 & H3 & H4 & _).
    exists new, files.
    destruct (exec_plans (resume cfg) pls _ false) as [st2 [|]|st2 e];
      simpl in *; repeat split; auto.
Qed.

Lemma process_entries_images entries : forall st,
  exists new files,
    jsonl (fst (process_entries cfg w entries st)) = (jsonl st ++ new)%list
    /\ saved (fst (process_entries cfg w entries st)) = (saved st ++ files)%list
    /\ Forall (record_has_image cfg files) new
    /\ List.length files
       = (List.length new
          + List.length (List.filter aborted (snd (process_entries cfg w entries st))))%nat.
Proof.
  induction entries as [|ent rest IH]; intros st.
  - exists [], []. simpl. rewrite !app_nil_r. repeat split; auto.
  - simpl. destruct (process_entry_images st ent) as (new1 & files1 & A1 & A2 & A3 & A4).
    destruct (process_entry cfg w st ent) as [st1 o]. simpl in A1, A2, A4.
    destruct (IH st1) as (new2 & files2 & B1 & B2 & B3 & B4).
    destruct (process_entries cfg w rest st1) as [st2 os]. simpl in B1, B2, B4 |- *.
    exists (new1 ++ new2)%list, (files1 ++ files2)%list.
    rewrite B1, B2, A1, A2, <- !app_assoc. repeat split.
    + apply Forall_app. split.
      * eapply Forall_impl; [exact A3|]. intros l Hl.
        apply record_has_image_mono with files1; [|exact Hl].
        intros x Hx. apply in_or_app. now left.
      * eapply Forall_impl; [exact B3|]. intros l Hl.
        apply record_has_image_mono with files2; [|exact Hl].
        intros x Hx. apply in_or_app. now right.
    + rewrite !length_app, A4, B4. destruct (aborted o); simpl; lia.
Qed.

Lemma process_entry_saved_normalised st ent :
  Forall (fun x => normalised_file (snd x)) (saved st) ->
  Forall (fun x => normalised_file (snd x)) (saved (fst (process_entry cfg w st ent))).
Proof.
  intros Hst. rewrite process_entry_exec. unfold exec_entry.
  destruct (entry_plans cfg w ent) as [o|pls] eqn:Hep; [exact Hst|].
  pose proof (exec_plans_saved_normalised cfg pls
                (with_reqs st (reqs st ++ sent cfg w ent)) false
                (entry_plans_have_images cfg w ent pls Hep) Hst) as H.
  destruct (exec_plans (resume cfg) pls _ false) as [st2 [|]|st2 e]; exact H.
Qed.

Lemma process_entries_saved_normalised entries : forall st,
  Forall (fun x => normalised_file (snd x)) (saved st) ->
  Forall (fun x => normalised_file (snd x))
    (saved (fst (process_entries cfg w entries st))).
Proof.
  induction entries as [|ent rest IH]; intros st Hst; [exact Hst|].
  simpl. pose proof (process_entry_saved_normalised st ent Hst) as H1.
  destruct (process_entry cfg w st ent) as [st1 o]. simpl in H1.
  specialize (IH st1 H1).
  destruct (process_entries cfg w rest st1) as [st2 os]. exact IH.
Qed.

End RecordImagesRun.

(** X13. Every record a run appends names a file of the image tree as
    the run leaves it: under [image] the record holds, relative to the
    image directory, a path at which a file is on disk, a JPEG of quality
    90 written from an RGB image, and under [caption] a text that is not
    empty. The file on disk at a path is the last one saved there: it is
    the file of every save when the run saved at each path once, and
    otherwise a later save has replaced the earlier one (two records of
    one pmc and figure id under two pmids name one path). Every file the
    run saves is such a JPEG. The run saves one image per appended record,
    and one more for each entry that an exception took out of its caption
    loop: only those images are left without a record. *)
Theorem every_record_names_a_saved_image (cfg : config) (w : world)
    (manifest : list string) (file : list jline) :
  Forall (fun l => exists p rel caption sf,
            record_field l "image" = Some (Pathlib.as_posix rel)
            /\ record_field l "caption" = Some caption /\ caption <> ""
            /\ Pathlib.relative_to p (images_out_dir cfg) = Some rel
            /\ image_at (saved (run_state cfg w manifest file)) p = Some sf
            /\ sf_format sf = "JPEG" /\ sf_quality sf = 90%Z /\ decoded_mode sf = "RGB")
    (appended cfg w manifest file)
  /\ (forall p sf, In (p, sf) (saved (run_state cfg w manifest file)) ->
        (sf_format sf = "JPEG" /\ sf_quality sf = 90%Z /\ decoded_mode sf = "RGB")
        /\ exists last, image_at (saved (run_state cfg w manifest file)) p = Some last
                        /\ In (p, last) (saved (run_state cfg w manifest file))
                        /\ (List.NoDup (map fst (saved (run_state cfg w manifest file))) ->
                            last = sf))
  /\ List.length (saved (run_state cfg w manifest file))
     = (List.length (appended cfg w manifest file)
        + List.length (List.filter aborted (run_outcomes cfg w manifest file)))%nat.
Proof.
  assert (Forall (fun x => normalised_file (snd x))
            (saved (run_state cfg w manifest file))) as Hgood.
  { unfold run_state, build_pubmed_image_caption_dataset_streaming.
    apply process_entries_saved_normalised. constructor. }
  assert (forall p sf, In (p, sf) (saved (run_state cfg w manifest file)) ->
            normalised_file sf) as Hfile.
  { intros p sf Hin. rewrite List.Forall_forall in Hgood. exact (Hgood _ Hin). }
  revert Hgood Hfile.
  unfold appended, run_outcomes, run_state, build_pubmed_image_caption_dataset_streaming.
  destruct (process_entries_images cfg w (read_entries (subset_size cfg) manifest)
              (initial_state cfg file)) as (new & files & H1 & H2 & H3 & H4).
  rewrite H1, H2. simpl. rewrite drop_app_length. intros Hgood Hfile.
  split; [|split; [|exact H4]].
  - eapply Forall_impl; [exact H3|]. simpl.
    intros l (p & sf & rel & caption & pmid & pmc & pid & Hin & Hrel & -> & Hcap & _).
    destruct (image_at_in _ _ _ Hin) as (last & Hlast).
    exists p, rel, caption, last.
    split; [reflexivity|]. split; [reflexivity|].
    split; [intros ->; discriminate|]. split; [exact Hrel|]. split; [exact Hlast|].
    exact (Hfile _ _ (image_at_some _ _ _ Hlast)).
  - intros p sf Hin. split; [exact (Hfile _ _ Hin)|].
    destruct (image_at_in _ _ _ Hin) as (last & Hlast).
    exists last. split; [exact Hlast|]. split; [exact (image_at_some _ _ _ Hlast)|].
    intros Hnd. pose proof (image_at_once _ _ _ Hnd Hin) as Honce. congruence.
Qed.

(** X14. An entry that is counted as skipped without an exception in its
    caption loop (too large, download or archive failure, no markup, no
    captions, or no caption that gave a record) leaves the output file,
    the dedup set, the image tree and the written counter as they were;
    the skipped counter goes up by one. *)
Theorem given_up_entry_changes_nothing (cfg : config) (w : world) (st : state)
    (ent : entry) :
  aborted (snd (process_entry cfg w st ent)) = false ->
  counted_skipped (snd (process_entry cfg w st ent)) = true ->
  jsonl (fst (process_entry cfg w st ent)) = jsonl st
  /\ existing_pairs (fst (process_entry cfg w st ent)) = existing_pairs st
  /\ saved (fst (process_entry cfg w st ent)) = saved st
  /\ n_written (fst (process_entry cfg w st ent)) = n_written st
  /\ n_skipped (fst (process_entry cfg w st ent)) = S (n_skipped st).
Proof.
  rewrite process_entry_exec. unfold exec_entry.
  destruct (entry_plans cfg w ent) as [o|pls] eqn:Hep; [repeat split|].
  destruct (exec_plans_images cfg pls (with_reqs st (reqs st ++ sent cfg w ent)) false
              (entry_plans_have_images cfg w ent pls Hep))
    as (_ & _ & _ & _ & _ & _ & Hst).
  destruct (exec_plans (resume cfg) pls _ false) as [st2 [|]|st2 e];
    simpl; intros Ha Hc; try discriminate.
  rewrite (Hst st2 eq_refl eq_refl). repeat split.
Qed.

(** An entry whose download fails at both endpoints. *)
Lemma given_up_entry_changes_nothing_witness :
  snd (process_entry Fixture.cfg0 Fixture.world3 Fixture.state_written Fixture.entry1)
  = DownloadFailed RuntimeError
  /\ jsonl (fst (process_entry Fixture.cfg0 Fixture.world3 Fixture.state_written
                   Fixture.entry1))
     = jsonl Fixture.state_written
  /\ existing_pairs (fst (process_entry Fixture.cfg0 Fixture.world3 Fixture.state_written
                            Fixture.entry1))
     = existing_pairs Fixture.state_written
  /\ saved (fst (process_entry Fixture.cfg0 Fixture.world3 Fixture.state_written
                   Fixture.entry1))
     = saved Fixture.state_written
  /\ n_written (fst (process_entry Fixture.cfg0 Fixture.world3 Fixture.state_written
                       Fixture.entry1))
     = n_written Fixture.state_written
  /\ n_skipped (fst (process_entry Fixture.cfg0 Fixture.world3 Fixture.state_written
                       Fixture.entry1))
     = S (n_skipped Fixture.state_written).
Proof.
  split; [vm_compute; reflexivity|].
  apply (given_up_entry_changes_nothing Fixture.cfg0 Fixture.world3 Fixture.state_written
           Fixture.entry1); vm_compute; reflexivity.
Defined.

(** ** Manifest rows *)

Section Rows.

Lemma split_no_sep (sep : ascii) (s : string) :
  has_char sep s = false -> Str.split sep s = [s].
Proof.
  induction s as [|c s IH]; [reflexivity|]. simpl.
  intros H. apply orb_false_iff in H as [Hc Hs].
  rewrite Hc, (IH Hs). reflexivity.
Qed.

Lemma split_app_sep (sep : ascii) (a b : string) :
  has_char sep a = false ->
  Str.split sep (a ++ String sep b) = a :: Str.split sep b.
Proof.
  induction a as [|c a IH]; intros H.
  - rewrite app_nil. simpl. now rewrite Ascii.eqb_refl.
  - rewrite app_cons. simpl in H |- *. apply orb_false_iff in H as [Hc Ha].
    rewrite Hc, (IH Ha). reflexivity.
Qed.

Lemma join_cons (sep x y : string) (l : list string) :
  Str.join sep (x :: y :: l) = x ++ sep ++ Str.join sep (y :: l).
Proof. reflexivity. Qed.

Lemma split_join (sep : ascii) (fs : list string) :
  Forall (fun f => has_char sep f = false) fs -> fs <> [] ->
  Str.split sep (Str.join (String sep EmptyString) fs) = fs.
Proof.
  induction 1 as [|x fs Hx _ IH]; intros Hne; [congruence|].
  destruct fs as [|y fs].
  - simpl. now apply split_no_sep.
  - rewrite join_cons, app_cons, app_nil, (split_app_sep _ _ _ Hx), IH; [reflexivity|].
    discriminate.
Qed.

Lemma has_char_app (c : ascii) (a b : string) :
  has_char c (a ++ b) = has_char c a || has_char c b.
Proof.
  induction a as [|x a IH]; [now rewrite app_nil|].
  rewrite app_cons. simpl. now rewrite IH, orb_assoc.
Qed.

Lemma has_char_join (c sep : ascii) (fs : list string) :
  Ascii.eqb sep c = false ->
  Forall (fun f => has_char c f = false) fs ->
  has_char c (Str.join (String sep EmptyString) fs) = false.
Proof.
  intros Hsep. induction 1 as [|x fs Hx _ IH]; [reflexivity|].
  destruct fs as [|y fs]; [exact Hx|].
  rewrite join_cons, has_char_app, Hx, app_cons, app_nil. cbn [has_char orb].
  now rewrite Hsep, IH.
Qed.

Lemma rstrip_app_newline (s : string) :
  Str.rstrip (Ascii.eqb Str.newline) (s ++ String Str.newline EmptyString)
  = Str.rstrip (Ascii.eqb Str.newline) s.
Proof.
  induction s as [|c s IH]; [reflexivity|].
  rewrite app_cons. cbn [Str.rstrip]. now rewrite IH.
Qed.

Lemma rstrip_no_newline (s : string) :
  has_char Str.newline s = false -> Str.rstrip (Ascii.eqb Str.newline) s = s.
Proof.
  induction s as [|c s IH]; [reflexivity|]. cbn [Str.rstrip has_char].
  intros H. apply orb_false_iff in H as [Hc Hs]. rewrite (IH Hs).
  destruct s; [|reflexivity]. rewrite Ascii.eqb_sym, Hc. reflexivity.
Qed.

Lemma fields_of_row (fs : list string) :
  Forall (fun f => field_ok f = true) fs -> fs <> [] ->
  Split.fields (Str.join (String Str.tab EmptyString) fs ++ String Str.newline EmptyString)
  = fs.
Proof.
  intros Hok Hne. unfold Split.fields.
  rewrite rstrip_app_newline, rstrip_no_newline, split_join; auto.
  - eapply Forall_impl; [exact Hok|]. intros f Hf. unfold field_ok in Hf.
    apply andb_true_iff in Hf as [Hf _]. now apply negb_true_iff in Hf.
  - apply has_char_join; [reflexivity|].
    eapply Forall_impl; [exact Hok|]. intros f Hf. unfold field_ok in Hf.
    apply andb_true_iff in Hf as [_ Hf]. now apply negb_true_iff in Hf.
Qed.

End Rows.

(** X15. Reading back a manifest row: fields without a tab or a newline,
    joined by tabs and ended by a newline, are split into those fields
    again; the pipeline takes the row as an entry when the fields are
    five and drops it otherwise, and split.py keeps it when they are five
    or more. *)
Theorem manifest_row_round_trip (fs : list string) :
  Forall (fun f => field_ok f = true) fs ->
  parse_row (Str.join (String Str.tab EmptyString) fs ++ String Str.newline EmptyString)
  = match fs with
    | [path; title; pmcid; pmid; code] =>
        Some {| e_path := path; e_title := title; e_pmcid := pmcid;
                e_pmid := pmid; e_code := code |}
    | _ => None
    end
  /\ Split.kept (Str.join (String Str.tab EmptyString) fs ++ String Str.newline EmptyString)
     = (5 <=? List.length fs)%nat.
Proof.
  intros Hok. destruct fs as [|f0 fs'] eqn:Efs; [split; reflexivity|].
  rewrite <- Efs in *.
  assert (fs <> []) as Hne by (rewrite Efs; discriminate).
  pose proof (fields_of_row fs Hok Hne) as Hf.
  split.
  - unfold parse_row. unfold Split.fields in Hf. rewrite Hf, Efs.
    destruct fs' as [|a [|b [|c [|d [|e l]]]]]; reflexivity.
  - unfold Split.kept. rewrite Hf, Efs.
    destruct fs' as [|a [|b [|c [|d l]]]]; reflexivity.
Qed.

Lemma manifest_row_round_trip_witness :
  parse_row (Str.join (String Str.tab EmptyString)
               ["00/00/PMC1.tar.gz"; "titleX"; "PMC1"; "1001"; "CC0"]
             ++ String Str.newline EmptyString)
  = Some Fixture.entry1
  /\ Split.kept (Str.join (String Str.tab EmptyString)
                   ["00/00/PMC1.tar.gz"; "titleX"; "PMC1"; "1001"; "CC0"]
                 ++ String Str.newline EmptyString)
     = true.
Proof.
  apply (manifest_row_round_trip ["00/00/PMC1.tar.gz"; "titleX"; "PMC1"; "1001"; "CC0"]).
  repeat constructor.
Defined.

(** ** The runners *)

Section Disk.

Context {A : Type}.

Lemma fs_lookup_put (fs : list (Path * list A)) (p q : Path) (c : list A) :
  fs_lookup (fs_put fs p c) q = if decide (p = q) then Some c else fs_lookup fs q.
Proof.
  induction fs as [|[r c'] fs IH]; simpl.
  - destruct (decide (p = q)); reflexivity.
  - destruct (decide (r = p)) as [->|Hrp]; simpl.
    + destruct (decide (p = q)); reflexivity.
    + destruct (decide (r = q)) as [->|Hrq].
      * destruct (decide (p = q)); [congruence | reflexivity].
      * exact IH.
Qed.

End Disk.

Section RunnerPaths.

Variable out_root : Path.

Lemma join_plain (dir : Path) (s : string) :
  plain s = true ->
  Pathlib.join dir (Pathlib.of_str s) = {| root := root dir; parts := parts dir ++ [s] |}.
Proof. intros H. now rewrite (of_str_plain s H). Qed.

Lemma numbered_path_inj (dir : Path) (a m ext : string) (i j : nat) :
  no_slash ext = true ->
  Pathlib.join dir (Pathlib.of_str (a ++ String "_" m ++ (format_05d i ++ ext)))
  = Pathlib.join dir (Pathlib.of_str (a ++ String "_" m ++ (format_05d j ++ ext))) ->
  i = j.
Proof.
  intros Hext.
  assert (forall k, no_slash (format_05d k ++ ext) = true
                    /\ (2 <= String.length (format_05d k ++ ext))%nat) as Hk.
  { intros k. rewrite no_slash_app, no_slash_format_05d, str_length_app. split; [exact Hext|].
    pose proof (format_05d_length k). lia. }
  rewrite !of_str_tail by apply Hk.
  unfold Pathlib.join. simpl root. simpl parts.
  destruct (Str.truthy _); intros H.
  - injection H as H. apply app_inj_tail in H as [_ H].
    apply app_inv_head_str, app_inv_tail_str in H. now apply format_05d_inj.
  - injection H as H. rewrite !app_assoc in H. apply app_inj_tail in H as [_ H].
    apply app_inv_head_str, app_inv_tail_str in H. now apply format_05d_inj.
Qed.

Lemma shard_jsonl_inj (i j : nat) :
  Runner.shard_jsonl out_root Runner.default_shard_name i
  = Runner.shard_jsonl out_root Runner.default_shard_name j -> i = j.
Proof.
  unfold Runner.shard_jsonl, Runner.default_shard_name.
  rewrite !app_assoc_str.
  change ("train_shard-" ++ format_05d i ++ ".jsonl")
    with ("train" ++ String "_" "shard-" ++ (format_05d i ++ ".jsonl")).
  change ("train_shard-" ++ format_05d j ++ ".jsonl")
    with ("train" ++ String "_" "shard-" ++ (format_05d j ++ ".jsonl")).
  now apply numbered_path_inj.
Qed.

Lemma shard_images_inj (i j : nat) :
  Runner.shard_images out_root i = Runner.shard_images out_root j -> i = j.
Proof.
  unfold Runner.shard_images.
  assert (forall k, plain ("shard-" ++ format_05d k) = true) as Hk.
  { intros k. unfold plain. rewrite no_slash_app, no_slash_format_05d. simpl.
    apply keep_part_long. rewrite str_length_app. simpl. lia. }
  rewrite (join_plain _ ("shard-" ++ format_05d i)), (join_plain _ ("shard-" ++ format_05d j))
    by apply Hk.
  intros H. injection H as H.
  apply app_inj_tail in H as [_ H]. apply app_inv_head_str in H. now apply format_05d_inj.
Qed.

End RunnerPaths.

Section RunnerCalls.

Variable w : world.

Lemma call_builder_outputs (d : Runner.disk) (manifest : list string) (p dir q : Path) :
  fs_lookup (Runner.outputs (Runner.call_builder w d manifest p dir)) q
  = if decide (p = q)
    then Some (jsonl (run_state (Runner.runner_config dir) w manifest
                        (Runner.lines_of (Runner.outputs d) p)))
    else fs_lookup (Runner.outputs d) q.
Proof. unfold Runner.call_builder. simpl. apply fs_lookup_put. Qed.

(** Without a size ceiling a run sends downloads only. *)
Lemma run_sends_downloads_only (cfg : config) (manifest : list string) (file : list jline) :
  max_filesize_mb cfg = None ->
  Forall (fun r => is_get r = true) (reqs (run_state cfg w manifest file)).
Proof.
  intros Hmax. unfold run_state, build_pubmed_image_caption_dataset_streaming.
  rewrite process_entries_reqs. simpl.
  induction (read_entries (subset_size cfg) manifest) as [|ent rest IH]; [constructor|].
  simpl. apply Forall_app. split; [|exact IH].
  rewrite sent_shape, Hmax. simpl.
  destruct (fst (size_guard cfg w (e_path ent) empty_state)); [constructor|].
  destruct (use_dual_base cfg), (http_get w (primary_url cfg ent)); repeat constructor.
Qed.

Lemma call_builder_traffic (d : Runner.disk) (manifest : list string) (p dir : Path) :
  exists new,
    Runner.traffic (Runner.call_builder w d manifest p dir) = (Runner.traffic d ++ new)%list
    /\ Forall (fun r => is_get r = true) new.
Proof.
  eexists. split; [reflexivity|]. now apply run_sends_downloads_only.
Qed.

Variable out_root : Path.

Lemma shards_from_outputs (shard_lists : list (list string)) : forall (i : nat) (d : Runner.disk),
  (forall p : Path,
      (forall k, (k < List.length shard_lists)%nat ->
                 p <> Runner.shard_jsonl out_root Runner.default_shard_name (i + k)) ->
      fs_lookup (Runner.outputs
                   (Runner.shards_from w out_root Runner.default_shard_name i shard_lists d)) p
      = fs_lookup (Runner.outputs d) p)
  /\ (forall k shard_list,
         List.nth_error shard_lists k = Some shard_list ->
         fs_lookup (Runner.outputs
                      (Runner.shards_from w out_root Runner.default_shard_name i shard_lists d))
           (Runner.shard_jsonl out_root Runner.default_shard_name (i + k))
         = Some (jsonl (run_state
                          (Runner.runner_config (Runner.shard_images out_root (i + k)))
                          w shard_list
                          (Runner.lines_of (Runner.outputs d)
                             (Runner.shard_jsonl out_root Runner.default_shard_name (i + k))))))
  /\ exists new,
      Runner.traffic (Runner.shards_from w out_root Runner.default_shard_name i shard_lists d)
      = (Runner.traffic d ++ new)%list
      /\ Forall (fun r => is_get r = true) new.
Proof.
  induction shard_lists as [|l rest IH]; intros i d.
  - split; [reflexivity|]. split; [intros [|k] sl H; discriminate|].
    exists []. simpl. rewrite app_nil_r. split; [reflexivity | constructor].
  - cbn [Runner.shards_from].
    set (d1 := Runner.call_builder w d l
                 (Runner.shard_jsonl out_root Runner.default_shard_name i)
                 (Runner.shard_images out_root i)).
    destruct (IH (S i) d1) as (Hother & Hown & (new & Htr & Hget)).
    assert (forall p : Path,
               (forall k, (k < S (List.length rest))%nat ->
                          p <> Runner.shard_jsonl out_root Runner.default_shard_name (i + k)) ->
               fs_lookup (Runner.outputs
                            (Runner.shards_from w out_root Runner.default_shard_name (S i)
                               rest d1)) p
               = fs_lookup (Runner.outputs d) p) as Hother'.
    { intros p Hp. rewrite Hother.
      - unfold d1. rewrite call_builder_outputs.
        destruct (decide (_ = p)) as [Heq|_]; [|reflexivity].
        exfalso. apply (Hp 0%nat); [lia|]. now rewrite Nat.add_0_r.
      - intros k Hk. replace (S i + k)%nat with (i + S k)%nat by lia. apply Hp. lia. }
    split; [exact Hother'|]. split.
    + intros [|k] sl Hsl.
      * injection Hsl as <-. rewrite Nat.add_0_r. rewrite Hother.
        -- unfold d1. rewrite call_builder_outputs.
           destruct (decide (_ = _)); [reflexivity | congruence].
        -- intros k _ Heq. apply shard_jsonl_inj in Heq. lia.
      * simpl in Hsl. replace (i + S k)%nat with (S i + k)%nat by lia.
        rewrite (Hown k sl Hsl). do 3 f_equal. unfold Runner.lines_of, d1.
        rewrite call_builder_outputs.
        destruct (decide (_ = _)) as [Heq|_]; [|reflexivity].
        apply shard_jsonl_inj in Heq. lia.
    + destruct (call_builder_traffic d l
                  (Runner.shard_jsonl out_root Runner.default_shard_name i)
                  (Runner.shard_images out_root i)) as (new1 & Htr1 & Hget1).
      exists (new1 ++ new)%list. fold d1 in Htr1. rewrite Htr, Htr1, <- app_assoc.
      split; [reflexivity|]. apply Forall_app. auto.
Qed.

End RunnerCalls.



(** ** What a run reads of the output file *)

Section FileShift.

Variable before : list jline.

Lemma exec_plans_shift r pls : forall st wrote_any,
  exec_plans r pls (shift_file before st) wrote_any
  = match exec_plans r pls st wrote_any with
    | Continue st' wa' => Continue (shift_file before st') wa'
    | Abort st' e => Abort (shift_file before st') e
    end.
Proof.
  assert (forall st p sf line pid,
             write_record (save_image (shift_file before st) p sf) line pid
             = shift_file before (write_record (save_image st p sf) line pid)) as Hw.
  { intros. unfold write_record, save_image, shift_file. simpl. now rewrite app_assoc. }
  induction pls as [|pl pls IH]; intros st wrote_any; [reflexivity|].
  cbn [exec_plans]. destruct pl as [|pid p sf line|pid p sf e]; unfold exec_plan.
  - apply IH.
  - change (known r pid (shift_file before st)) with (known r pid st).
    destruct (known r pid st); [apply IH|]. rewrite Hw. apply IH.
  - change (known r pid (shift_file before st)) with (known r pid st).
    destruct (known r pid st); [apply IH | reflexivity].
Qed.

Lemma exec_entry_shift r new_reqs ep st :
  exec_entry r new_reqs ep (shift_file before st)
  = (shift_file before (fst (exec_entry r new_reqs ep st)),
     snd (exec_entry r new_reqs ep st)).
Proof.
  unfold exec_entry. destruct ep as [o|pls]; [reflexivity|].
  change (with_reqs (shift_file before st) (reqs (shift_file before st) ++ new_reqs))
    with (shift_file before (with_reqs st (reqs st ++ new_reqs))).
  rewrite exec_plans_shift.
  destruct (exec_plans r pls (with_reqs st (reqs st ++ new_reqs)) false)
    as [st2 [|]|st2 e]; reflexivity.
Qed.

Lemma process_entries_shift cfg w entries : forall st,
  process_entries cfg w entries (shift_file before st)
  = (shift_file before (fst (process_entries cfg w entries st)),
     snd (process_entries cfg w entries st)).
Proof.
  induction entries as [|ent rest IH]; intros st; [reflexivity|].
  cbn [process_entries]. rewrite !process_entry_exec, exec_entry_shift.
  destruct (exec_entry (resume cfg) (sent cfg w ent) (entry_plans cfg w ent) st)
    as [st1 o]. cbn [fst snd]. rewrite IH.
  destruct (process_entries cfg w rest st1) as [st2 os]. reflexivity.
Qed.

End FileShift.

Lemma run_from_index (cfg : config) (w : world) (manifest : list string) (file : list jline) :
  build_pubmed_image_caption_dataset_streaming cfg w manifest file
  = (shift_file file
       (fst (process_entries cfg w (read_entries (subset_size cfg) manifest)
               (initial_index cfg file))),
     snd (process_entries cfg w (read_entries (subset_size cfg) manifest)
            (initial_index cfg file))).
Proof.
  unfold build_pubmed_image_caption_dataset_streaming.
  replace (initial_state cfg file) with (shift_file file (initial_index cfg file))
    by (unfold shift_file, initial_index, initial_state; simpl; now rewrite app_nil_r).
  apply process_entries_shift.
Qed.

Lemma load_existing_pairs_ext (r : bool) (file file' : list jline) :
  (forall k, k ∈ collected file <-> k ∈ collected file') ->
  load_existing_pairs r file = load_existing_pairs r file'.
Proof.
  intros H. destruct r; [|reflexivity].
  apply leibniz_equiv. intros k. rewrite !load_existing_pairs_collected. apply H.
Qed.

(** X18. Of the output file it finds, a run reads the pair ids and nothing
    else: from two files with the same pair ids (whatever their other
    fields, their order, repeated or unreadable lines) it appends the same
    lines, saves the same images, sends the same requests and ends with
    the same counters. *)
Theorem resume_reads_only_pair_ids (cfg : config) (w : world) (manifest : list string)
    (file file' : list jline) :
  (forall k : pykey, k ∈ collected file <-> k ∈ collected file') ->
  appended cfg w manifest file = appended cfg w manifest file'
  /\ saved (run_state cfg w manifest file) = saved (run_state cfg w manifest file')
  /\ reqs (run_state cfg w manifest file) = reqs (run_state cfg w manifest file')
  /\ n_written (run_state cfg w manifest file) = n_written (run_state cfg w manifest file')
  /\ n_skipped (run_state cfg w manifest file) = n_skipped (run_state cfg w manifest file')
  /\ run_outcomes cfg w manifest file = run_outcomes cfg w manifest file'.
Proof.
  intros H. unfold appended, run_outcomes, run_state. rewrite !run_from_index.
  assert (initial_index cfg file = initial_index cfg file') as ->.
  { unfold initial_index. now rewrite (load_existing_pairs_ext _ file file' H). }
  cbn [fst snd shift_file jsonl saved reqs n_written n_skipped].
  rewrite !drop_app_length. repeat split.
Qed.

(** A file with an unreadable line and a file with a repeated record,
    both holding the pair id of the first caption: the run appends the
    record of the second caption alone. *)
Lemma resume_reads_only_pair_ids_witness :
  appended Fixture.cfg0 Fixture.world2 Fixture.manifest2 Sample.file_torn
  = [record_line "PMC2/PMC2_fig-F2.jpg" "Second." "2002" "PMC2" "2002_F2"]
  /\ appended Fixture.cfg0 Fixture.world2 Fixture.manifest2 Sample.file_torn
     = appended Fixture.cfg0 Fixture.world2 Fixture.manifest2 Sample.file_twice
  /\ saved (run_state Fixture.cfg0 Fixture.world2 Fixture.manifest2 Sample.file_torn)
     = saved (run_state Fixture.cfg0 Fixture.world2 Fixture.manifest2 Sample.file_twice)
  /\ reqs (run_state Fixture.cfg0 Fixture.world2 Fixture.manifest2 Sample.file_torn)
     = reqs (run_state Fixture.cfg0 Fixture.world2 Fixture.manifest2 Sample.file_twice)
  /\ n_written (run_state Fixture.cfg0 Fixture.world2 Fixture.manifest2 Sample.file_torn)
     = n_written (run_state Fixture.cfg0 Fixture.world2 Fixture.manifest2 Sample.file_twice)
  /\ n_skipped (run_state Fixture.cfg0 Fixture.world2 Fixture.manifest2 Sample.file_torn)
     = n_skipped (run_state Fixture.cfg0 Fixture.world2 Fixture.manifest2 Sample.file_twice)
  /\ run_outcomes Fixture.cfg0 Fixture.world2 Fixture.manifest2 Sample.file_torn
     = run_outcomes Fixture.cfg0 Fixture.world2 Fixture.manifest2 Sample.file_twice.
Proof.
  split; [vm_compute; reflexivity|].
  apply (resume_reads_only_pair_ids Fixture.cfg0 Fixture.world2 Fixture.manifest2
           Sample.file_torn Sample.file_twice).
  intros k.
  change (collected Sample.file_torn) with [KStr "2002_F1"].
  change (collected Sample.file_twice) with [KStr "2002_F1"; KStr "2002_F1"].
  rewrite !elem_of_cons. tauto.
Defined.
